(* ===================================================================== *)
(* Mail-ingestion core of ai-brain-infra: a shallow embedding in Rocq     *)
(*                                                                       *)
(*   internal/eventstore/sqlite   per-tenant store (sync state, events,  *)
(*                                outbox)                                *)
(*   internal/providers/gmail     Gmail adapter                          *)
(*   internal/providers/outlook   Outlook / Microsoft Graph adapter      *)
(*   internal/sync/runner.go      sync runner and event processor        *)
(*   internal/sync/manager.go     worker manager                         *)
(*                                                                       *)
(* Go errors are modelled by their message (err.Error()); I/O that may   *)
(* fail takes the driver's verdict as an explicit argument; the clock    *)
(* and the uuid generator are inputs as well.                            *)
(* ===================================================================== *)

From Stdlib Require Import ZArith NArith Ascii.
From stdpp Require Import gmap strings list fin_maps.
From stdpp Require Import sorting.

Local Open Scope Z_scope.

(* --------------------------------------------------------------------- *)
(* Results of fallible calls: Go's (value, error) pairs.                 *)
(* --------------------------------------------------------------------- *)

Inductive result (A : Type) : Type :=
  | Ok (a : A)
  | Err (e : string).
Arguments Ok {A} a.
Arguments Err {A} e.

(* --------------------------------------------------------------------- *)
(* The parts of the Go standard library the sources call.                *)
(* --------------------------------------------------------------------- *)

Module Go.

(** strings.Contains *)
Fixpoint Contains (s substr : string) : bool :=
  String.prefix substr s ||
  match s with
  | EmptyString => false
  | String _ s' => Contains s' substr
  end.

(** strings.Split on a one-byte separator: always at least one part. *)
Fixpoint Split (s : string) (sep : ascii) : list string :=
  match s with
  | EmptyString => [EmptyString]
  | String c s' =>
      if Ascii.eqb c sep then EmptyString :: Split s' sep
      else match Split s' sep with
           | [] => [String c EmptyString]
           | p :: ps => String c p :: ps
           end
  end.

Definition maxUint64 : N := 18446744073709551615%N.

Inductive NumError := ErrSyntax | ErrRange.

Definition digit_of (c : ascii) : option N :=
  let n := N_of_ascii c in
  if ((48 <=? n) && (n <=? 57))%N then Some (n - 48)%N else None.

Definition digit_char (d : N) : ascii := ascii_of_N (48 + d).

(** The digit loop of strconv.ParseUint(s, 10, 64): a byte that is no
    decimal digit is a syntax error, a value above 2^64-1 a range error,
    whichever the scan meets first. *)
Fixpoint parse_loop (s : string) (n : N) : NumError + N :=
  match s with
  | EmptyString => inr n
  | String c s' =>
      match digit_of c with
      | None => inl ErrSyntax
      | Some d =>
          if (maxUint64 / 10 + 1 <=? n)%N then inl ErrRange
          else let n1 := (n * 10 + d)%N in
               if (maxUint64 <? n1)%N then inl ErrRange
               else parse_loop s' n1
      end
  end.

Definition ParseUint (s : string) : NumError + N :=
  match s with
  | EmptyString => inl ErrSyntax
  | _ => parse_loop s 0%N
  end.

(** fmt.Sprintf("%d", u) for a uint64: the digits are produced from the
    least significant one; a uint64 has at most 20 of them. *)
Fixpoint format_loop (fuel : nat) (u : N) (acc : string) : string :=
  match fuel with
  | O => acc
  | S fuel' =>
      if (u <? 10)%N then String (digit_char u) acc
      else format_loop fuel' (u / 10)%N (String (digit_char (u mod 10)%N) acc)
  end.

Definition FormatUint (u : N) : string := format_loop 20 u EmptyString.

(** The value a digit string denotes, without bound. *)
Fixpoint digits_value (s : string) (n : N) : option N :=
  match s with
  | EmptyString => Some n
  | String c s' =>
      match digit_of c with
      | None => None
      | Some d => digits_value s' (n * 10 + d)%N
      end
  end.

End Go.

(** What the model takes from the Go runtime without looking inside:
    Unicode-aware trimming, quoting for error messages and the JSON
    encoder.  A slice is a list; a nil slice and an empty one are the
    same list here. *)
Inductive JValue :=
  | JStr (s : string)
  | JInt (n : Z)
  | JStrs (l : list string)
  | JMap (m : gmap string string).

Class GoRuntime := {
  TrimSpace : string → string;                      (* strings.TrimSpace *)
  Quote : string → string;                          (* strconv.Quote *)
  Marshal : JValue → string;                        (* json.Marshal, scalars and containers *)
  MarshalObject : list (string * JValue) → string   (* json.Marshal of a map[string]interface{} *)
}.

(** A paginated listing as the client libraries see it: each request
    either fails or yields one page, which names a next page or not. *)
Inductive Listing (A : Type) : Type :=
  | FetchError (e : string)
  | LastPage (items : list A)
  | MorePages (items : list A) (next : Listing A).
Arguments FetchError {A} e.
Arguments LastPage {A} items.
Arguments MorePages {A} items next.

(** Everything the provider can enumerate, following next-page links. *)
Fixpoint enumerable {A} (l : Listing A) : list A :=
  match l with
  | FetchError _ => []
  | LastPage items => items
  | MorePages items next => items ++ enumerable next
  end.

Fixpoint healthy {A} (l : Listing A) : bool :=
  match l with
  | FetchError _ => false
  | LastPage _ => true
  | MorePages _ next => healthy next
  end.


(* --------------------------------------------------------------------- *)
(* internal/eventstore/sqlite: the per-tenant store (schema.sql and the  *)
(* statements of the Store methods).                                     *)
(* --------------------------------------------------------------------- *)

Module sqlite.

(** A row of provider_sync_state; the provider column is the key. *)
Record SyncState := {
  ss_inbox_id : string;
  ss_cursor : option string;
  ss_last_synced_at : option Z;
  ss_status : option string;
  ss_last_error : option string;
  ss_retry_count : Z;
  ss_updated_at : option Z
}.

(** A row of email_received_events. *)
Record EmailEvent := {
  ev_event_id : string;
  ev_ts : Z;
  ev_msg_date : Z;
  ev_provider : string;
  ev_inbox_id : string;
  ev_user_id : string;
  ev_provider_message_id : string;
  ev_provider_thread_id : string;
  ev_subject : string;
  ev_sender : string;
  ev_to_addrs : string;
  ev_cc_addrs : string;
  ev_bcc_addrs : string;
  ev_snippet : string;
  ev_headers_json : string;
  ev_labels_json : string
}.

(** A row of outbox. *)
Record OutboxRow := {
  ob_id : Z;
  ob_ts : Z;
  ob_subject : string;
  ob_event_type : string;
  ob_payload : string;
  ob_msg_id : string;
  ob_published_at : option Z;
  ob_retries : Z;
  ob_next_attempt_at : option Z
}.

(** The three tables, rows in insertion order, and the AUTOINCREMENT
    counter of outbox. *)
Record DB := {
  provider_sync_state : gmap string SyncState;
  email_received_events : list EmailEvent;
  outbox : list OutboxRow;
  outbox_seq : Z
}.

Definition empty_db : DB :=
  {| provider_sync_state := ∅; email_received_events := [];
     outbox := []; outbox_seq := 0 |}.

(** Does row [r] stop the insertion of [e]?  event_id is the primary key
    and (provider, provider_message_id) is UNIQUE. *)
Definition conflicts (e r : EmailEvent) : bool :=
  bool_decide (ev_event_id r = ev_event_id e) ||
  (bool_decide (ev_provider r = ev_provider e) &&
   bool_decide (ev_provider_message_id r = ev_provider_message_id e)).

(** INSERT OR IGNORE INTO email_received_events *)
Definition insert_or_ignore_event (e : EmailEvent) (db : DB) : DB :=
  if existsb (conflicts e) (email_received_events db) then db
  else {| provider_sync_state := provider_sync_state db;
          email_received_events := email_received_events db ++ [e];
          outbox := outbox db;
          outbox_seq := outbox_seq db |}.

(** INSERT INTO outbox (ts, subject, event_type, payload, msg_id,
    next_attempt_at) *)
Definition insert_outbox (ts : Z) (subject eventType payload msgID : string)
    (nextAttempt : Z) (db : DB) : DB :=
  let id := outbox_seq db + 1 in
  {| provider_sync_state := provider_sync_state db;
     email_received_events := email_received_events db;
     outbox := outbox db ++
       [{| ob_id := id; ob_ts := ts; ob_subject := subject;
           ob_event_type := eventType; ob_payload := payload;
           ob_msg_id := msgID; ob_published_at := None; ob_retries := 0;
           ob_next_attempt_at := Some nextAttempt |}];
     outbox_seq := id |}.

(** AppendEmailReceivedTx, run on the transaction's view [tx] of the
    store.  [exec1], [exec2] are the driver's verdicts on the two
    statements (None: executed) and [now1], [now2] the two clock reads. *)
Definition AppendEmailReceivedTx (exec1 exec2 : option string) (now1 now2 : Z)
    (ev : EmailEvent) (natsSubject eventType payload msgID : string)
    (tx : DB) : DB * option string :=
  match exec1 with
  | Some e => (tx, Some ("failed to insert email event: " +:+ e))
  | None =>
      let tx1 := insert_or_ignore_event ev tx in
      match exec2 with
      | Some e => (tx1, Some ("failed to insert outbox entry: " +:+ e))
      | None =>
          (insert_outbox now1 natsSubject eventType payload msgID now2 tx1, None)
      end
  end.

(** LoadCheckpoint: no row is the empty cursor, a NULL cursor too. *)
Definition LoadCheckpoint (query : option string) (provider : string)
    (db : DB) : string * option string :=
  match query with
  | Some e => ("", Some ("failed to load checkpoint: " +:+ e))
  | None =>
      match provider_sync_state db !! provider with
      | None => ("", None)
      | Some row => (default "" (ss_cursor row), None)
      end
  end.

Definition upsert_sync_state (provider inboxID cursor : string) (now1 : Z)
    (status : string) (now2 : Z) (db : DB) : DB :=
  let row :=
    match provider_sync_state db !! provider with
    | None =>
        {| ss_inbox_id := inboxID; ss_cursor := Some cursor;
           ss_last_synced_at := Some now1; ss_status := Some status;
           ss_last_error := None; ss_retry_count := 0;
           ss_updated_at := Some now2 |}
    | Some old =>
        {| ss_inbox_id := ss_inbox_id old; ss_cursor := Some cursor;
           ss_last_synced_at := Some now1; ss_status := Some status;
           ss_last_error := ss_last_error old;
           ss_retry_count := ss_retry_count old;
           ss_updated_at := Some now2 |}
    end in
  {| provider_sync_state := <[provider := row]> (provider_sync_state db);
     email_received_events := email_received_events db;
     outbox := outbox db;
     outbox_seq := outbox_seq db |}.

(** SaveCheckpoint: INSERT ... ON CONFLICT(provider) DO UPDATE. *)
Definition SaveCheckpoint (exec : option string) (now1 now2 : Z)
    (provider inboxID cursor status : string) (db : DB) : DB * option string :=
  match exec with
  | Some e => (db, Some ("failed to save checkpoint: " +:+ e))
  | None => (upsert_sync_state provider inboxID cursor now1 status now2 db, None)
  end.

Definition set_status (status errorMsg : string) (now : Z) (row : SyncState)
    : SyncState :=
  {| ss_inbox_id := ss_inbox_id row; ss_cursor := ss_cursor row;
     ss_last_synced_at := ss_last_synced_at row;
     ss_status := Some status; ss_last_error := Some errorMsg;
     ss_retry_count :=
       if bool_decide (errorMsg ≠ "") then ss_retry_count row + 1
       else ss_retry_count row;
     ss_updated_at := Some now |}.

(** UpdateSyncStatus: UPDATE ... WHERE provider = ?; no row, no change. *)
Definition UpdateSyncStatus (exec : option string) (now : Z)
    (provider status errorMsg : string) (db : DB) : DB * option string :=
  match exec with
  | Some e => (db, Some e)
  | None =>
      ({| provider_sync_state :=
            alter (set_status status errorMsg now) provider (provider_sync_state db);
          email_received_events := email_received_events db;
          outbox := outbox db;
          outbox_seq := outbox_seq db |}, None)
  end.

(** The cursor column of the provider's row, if there is a row. *)
Definition stored_cursor (provider : string) (db : DB) : option string :=
  row ← provider_sync_state db !! provider; ss_cursor row.

Definition stored_status (provider : string) (db : DB) : option string :=
  row ← provider_sync_state db !! provider; ss_status row.

Definition stored_error (provider : string) (db : DB) : option string :=
  row ← provider_sync_state db !! provider; ss_last_error row.

(** Rows of the event log with a given (provider, provider_message_id). *)
Definition events_of (provider messageID : string) (db : DB) : list EmailEvent :=
  filter (λ r, ev_provider r = provider ∧ ev_provider_message_id r = messageID)
         (email_received_events db).

(** OutboxMessage: what DequeueOutbox hands to the dispatcher. *)
Record OutboxMessage := {
  ID : Z;
  Subject : string;
  Payload : string;
  MsgID : string
}.

Definition to_message (r : OutboxRow) : OutboxMessage :=
  {| ID := ob_id r; Subject := ob_subject r; Payload := ob_payload r;
     MsgID := ob_msg_id r |}.

(** ORDER BY id: sorting by insertion. *)
Fixpoint insert_by_id (r : OutboxRow) (l : list OutboxRow) : list OutboxRow :=
  match l with
  | [] => [r]
  | x :: l' => if ob_id r <=? ob_id x then r :: l else x :: insert_by_id r l'
  end.

Definition order_by_id (l : list OutboxRow) : list OutboxRow :=
  foldr insert_by_id [] l.

(** WHERE published_at IS NULL AND next_attempt_at <= now; a NULL
    next_attempt_at satisfies no comparison. *)
Definition ready (now : Z) (r : OutboxRow) : bool :=
  match ob_published_at r, ob_next_attempt_at r with
  | None, Some t => t <=? now
  | _, _ => false
  end.

(** LIMIT n; SQLite reads a negative n as no limit. *)
Definition limit_rows {A : Type} (limit : Z) (l : list A) : list A :=
  if limit <? 0 then l else take (Z.to_nat limit) l.

(** The rows the SELECT of DequeueOutbox yields, in order. *)
Definition select_ready (now limit : Z) (db : DB) : list OutboxRow :=
  limit_rows limit (filter (λ r, ready now r = true) (order_by_id (outbox db))).

(** DequeueOutbox.  [query] and [scan] are the driver's verdicts on the
    query and on rows.Scan; [stop] is the number of rows after which
    rows.Next gives up, if it does: the method does not look at
    rows.Err, so such a result comes back short and without error. *)
Definition DequeueOutbox (query scan : option string) (stop : option nat)
    (now limit : Z) (db : DB) : list OutboxMessage * option string :=
  match query with
  | Some e => ([], Some ("failed to query outbox: " +:+ e))
  | None =>
      let rows := select_ready now limit db in
      let seen := match stop with Some n => take n rows | None => rows end in
      match seen, scan with
      | _ :: _, Some e => ([], Some ("failed to scan outbox row: " +:+ e))
      | _, _ => (to_message <$> seen, None)
      end
  end.

Definition update_outbox (id : Z) (f : OutboxRow → OutboxRow) (db : DB) : DB :=
  {| provider_sync_state := provider_sync_state db;
     email_received_events := email_received_events db;
     outbox := (λ r, if bool_decide (ob_id r = id) then f r else r) <$> outbox db;
     outbox_seq := outbox_seq db |}.

Definition set_published (now : Z) (r : OutboxRow) : OutboxRow :=
  {| ob_id := ob_id r; ob_ts := ob_ts r; ob_subject := ob_subject r;
     ob_event_type := ob_event_type r; ob_payload := ob_payload r;
     ob_msg_id := ob_msg_id r; ob_published_at := Some now;
     ob_retries := ob_retries r; ob_next_attempt_at := ob_next_attempt_at r |}.

(** MarkPublished: UPDATE outbox SET published_at = now WHERE id = ? *)
Definition MarkPublished (exec : option string) (now : Z) (id : Z) (db : DB)
    : DB * option string :=
  match exec with
  | Some e => (db, Some ("failed to mark published: " +:+ e))
  | None => (update_outbox id (set_published now) db, None)
  end.

(** time.Duration counts nanoseconds. *)
Definition Second : Z := 1000000000.

Definition set_retry (next : Z) (r : OutboxRow) : OutboxRow :=
  {| ob_id := ob_id r; ob_ts := ob_ts r; ob_subject := ob_subject r;
     ob_event_type := ob_event_type r; ob_payload := ob_payload r;
     ob_msg_id := ob_msg_id r; ob_published_at := ob_published_at r;
     ob_retries := ob_retries r + 1; ob_next_attempt_at := Some next |}.

(** MarkOutboxRetry: retries = retries + 1, next_attempt_at =
    time.Now().Add(backoff).Unix().  [now] is time.Now() in nanoseconds
    since the epoch, [backoff] a Duration. *)
Definition MarkOutboxRetry (exec : option string) (now backoff : Z) (id : Z)
    (db : DB) : DB * option string :=
  match exec with
  | Some e => (db, Some ("failed to mark retry: " +:+ e))
  | None => (update_outbox id (set_retry ((now + backoff) / Second)) db, None)
  end.

End sqlite.

(* --------------------------------------------------------------------- *)
(* internal/sync: provider.go, runner.go, manager.go                     *)
(* --------------------------------------------------------------------- *)

Module sync.
Import sqlite.

Definition ProviderName := string.
Definition ProviderGoogle : ProviderName := "GOOGLE".
Definition ProviderMicrosoft : ProviderName := "MICROSOFT".

(** time.Time at millisecond precision: milliseconds since the epoch. *)
Definition Time := Z.
Definition Unix (t : Time) : Z := t / 1000.
Definition UnixMilli (ms : Z) : Time := ms.
(** The zero time.Time, 0001-01-01T00:00:00Z. *)
Definition zeroTime : Time := -62135596800000.

Record MessageMeta := {
  Provider : ProviderName;
  UserID : string;
  InboxID : string;
  MessageID : string;
  ThreadID : string;
  Subject : string;
  Sender : string;
  To : list string;
  Cc : list string;
  Bcc : list string;
  Snippet : string;
  ProviderLabels : list string;
  Headers : gmap string string;
  MessageDate : Time
}.

Record Checkpoint := { Cursor : string }.

(** The callback the adapters deliver records to; [St] is whatever the
    callback reads and writes. *)
Definition Sink (St : Type) : Type := MessageMeta → St → St * option string.

(** The MailProvider interface.  [Remote] is the provider's side as one
    call sees it; a nil *Checkpoint is None. *)
Record MailProvider := {
  Remote : Type;
  InitialBackfill : ∀ St : Type,
    Remote → string → Checkpoint → Sink St → St → St * result (option Checkpoint);
  IncrementalSync : ∀ St : Type,
    Remote → string → Checkpoint → Sink St → St → St * result (option Checkpoint)
}.
Arguments InitialBackfill _ {St}.
Arguments IncrementalSync _ {St}.

(** What one run of the processor takes from outside: the fresh uuid, the
    clock reads and the driver's verdicts on BeginTx, the two INSERTs and
    Commit. *)
Record TxEnv := {
  uuid : string;
  now_ts : Z;
  begin_err : option string;
  insert_event_err : option string;
  insert_outbox_err : option string;
  now_outbox_ts : Z;
  now_next_attempt : Z;
  commit_err : option string
}.

Definition msgID_of (provider : ProviderName) (messageID : string) : string :=
  "email.received|" +:+ provider +:+ "|" +:+ messageID.

Definition subject_of (userID : string) : string :=
  "user." +:+ userID +:+ ".email.received".

Section Processor.
Context `{GoRuntime}.

Definition event_row (eventID : string) (ts : Z) (userID inboxID : string)
    (meta : MessageMeta) : EmailEvent :=
  {| ev_event_id := eventID; ev_ts := ts;
     ev_msg_date := Unix (MessageDate meta);
     ev_provider := Provider meta; ev_inbox_id := inboxID;
     ev_user_id := userID; ev_provider_message_id := MessageID meta;
     ev_provider_thread_id := ThreadID meta; ev_subject := Subject meta;
     ev_sender := Sender meta;
     ev_to_addrs := Marshal (JStrs (To meta));
     ev_cc_addrs := Marshal (JStrs (Cc meta));
     ev_bcc_addrs := Marshal (JStrs (Bcc meta));
     ev_snippet := Snippet meta;
     ev_headers_json := Marshal (JMap (Headers meta));
     ev_labels_json := Marshal (JStrs (ProviderLabels meta)) |}.

Definition event_payload (eventID : string) (ts : Z) (userID inboxID : string)
    (meta : MessageMeta) : string :=
  MarshalObject
    [("event_id", JStr eventID); ("ts", JInt ts);
     ("msg_date", JInt (Unix (MessageDate meta)));
     ("provider", JStr (Provider meta)); ("inbox_id", JStr inboxID);
     ("user_id", JStr userID); ("provider_message_id", JStr (MessageID meta));
     ("provider_thread_id", JStr (ThreadID meta));
     ("subject", JStr (Subject meta)); ("sender", JStr (Sender meta));
     ("to_addrs", JStrs (To meta)); ("cc_addrs", JStrs (Cc meta));
     ("bcc_addrs", JStrs (Bcc meta)); ("snippet", JStr (Snippet meta));
     ("headers", JMap (Headers meta)); ("labels", JStrs (ProviderLabels meta))].

(** The closure returned by createProcessor, for one record.  The store
    is the committed state; the transaction works on its own view, which
    Commit installs and Rollback drops. *)
Definition process (userID inboxID : string) (e : TxEnv) (meta : MessageMeta)
    (db : DB) : DB * option string :=
  let eventID := uuid e in
  let ts := now_ts e in
  let payload := event_payload eventID ts userID inboxID meta in
  let msgID := msgID_of (Provider meta) (MessageID meta) in
  let subject := subject_of userID in
  match begin_err e with
  | Some x => (db, Some ("failed to begin transaction: " +:+ x))
  | None =>
      let '(tx, err) :=
        AppendEmailReceivedTx (insert_event_err e) (insert_outbox_err e)
          (now_outbox_ts e) (now_next_attempt e)
          (event_row eventID ts userID inboxID meta)
          subject "email.received" payload msgID db in
      match err with
      | Some _ => (db, None)
      | None =>
          match commit_err e with
          | Some x => (db, Some ("failed to commit transaction: " +:+ x))
          | None => (tx, None)
          end
      end
  end.

(** createProcessor: the n-th call of the closure takes [env n]. *)
Definition createProcessor (userID inboxID : string) (env : nat → TxEnv)
    : Sink (DB * nat) :=
  λ meta st,
    let '(db, n) := st in
    let '(db', err) := process userID inboxID (env n) meta db in
    ((db', S n), err).

(** A stream of records handed to the processor one after the other,
    whatever each call returns. *)
Fixpoint feed (userID inboxID : string) (env : nat → TxEnv)
    (ms : list MessageMeta) (st : DB * nat) : DB * nat :=
  match ms with
  | [] => st
  | m :: ms' => feed userID inboxID env ms' (createProcessor userID inboxID env m st).1
  end.

End Processor.

(** A transaction that meets no failure. *)
Definition tx_okb (e : TxEnv) : bool :=
  bool_decide (begin_err e = None) && bool_decide (insert_event_err e = None) &&
  bool_decide (insert_outbox_err e = None) && bool_decide (commit_err e = None).

(** How many of the calls [n], [n+1], ..., [n+k-1] commit. *)
Fixpoint committed (env : nat → TxEnv) (n k : nat) : nat :=
  match k with
  | O => O
  | S k' => (if tx_okb (env n) then 1 else 0)%nat + committed env (S n) k'
  end.

(** runner.go.  Of the Runner's fields the sync loop reads the adapter
    and the provider's name. *)
Record Runner := {
  r_Provider : MailProvider;
  r_ProviderName : ProviderName
}.

(** What one pass of the sync loop takes from outside: the provider's
    side, the driver's verdicts on the sync-state statements, the clock
    before and after the adapter call, and the processor's inputs. *)
Record PassEnv (R : Type) := {
  remote : R;
  load_err : option string;
  presave_err : option string;
  save_err : option string;
  status_err : option string;
  now_start : Z;
  now_end : Z;
  tx_env : nat → TxEnv
}.
Arguments remote {R}.
Arguments load_err {R}.
Arguments presave_err {R}.
Arguments save_err {R}.
Arguments status_err {R}.
Arguments now_start {R}.
Arguments now_end {R}.
Arguments tx_env {R}.

(** The adapter calls a run makes, in order. *)
Inductive Call :=
  | CallBackfill (cp : Checkpoint)
  | CallIncremental (cp : Checkpoint).

(** How a run ends: RunInbox returned (nil or an error), or the schedule
    ran out with the loop still waiting for the next tick. *)
Inductive Outcome :=
  | Returned (err : option string)
  | Ticking.

Record Run := {
  final_db : DB;
  calls : list Call;
  outcome : Outcome
}.

(** What the select of the loop receives. *)
Inductive LoopEvent (R : Type) :=
  | CtxDone
  | TickFire (e : PassEnv R).
Arguments CtxDone {R}.
Arguments TickFire {R} e.

Section RunInbox.
Context `{GoRuntime}.
Variable r : Runner.
Variables userID inboxID : string.

Local Abbreviation R := (Remote (r_Provider r)).

(** The first pass: lines 45-82 of runner.go.  The result is the store,
    the adapter call made, and the error of the pass if any. *)
Definition firstPass (e : PassEnv R) (db : DB) : DB * list Call * option string :=
  let '(cursor, _) := LoadCheckpoint (load_err e) (r_ProviderName r) db in
  let cp := {| Cursor := cursor |} in
  let proc := createProcessor userID inboxID (tx_env e) in
  let '(db0, call, (st, res)) :=
    if bool_decide (Cursor cp = "") then
      let db0 := (SaveCheckpoint (presave_err e) (now_start e) (now_start e)
                    (r_ProviderName r) inboxID "" "SYNCING" db).1 in
      (db0, CallBackfill cp,
       InitialBackfill (r_Provider r) (remote e) "me" cp proc (db0, O))
    else
      let db0 := (SaveCheckpoint (presave_err e) (now_start e) (now_start e)
                    (r_ProviderName r) inboxID (Cursor cp) "SYNCING" db).1 in
      (db0, CallIncremental cp,
       IncrementalSync (r_Provider r) (remote e) "me" cp proc (db0, O)) in
  let db1 := st.1 in
  match res with
  | Err msg =>
      ((UpdateSyncStatus (status_err e) (now_end e) (r_ProviderName r)
          "ERROR" msg db1).1, [call], Some ("sync failed: " +:+ msg))
  | Ok newCP =>
      match newCP with
      | Some ncp =>
          ((SaveCheckpoint (save_err e) (now_end e) (now_end e)
              (r_ProviderName r) inboxID (Cursor ncp) "HOOKED" db1).1, [call], None)
      | None => (db1, [call], None)
      end
  end.

(** One tick of the steady-state loop: lines 96-122 of runner.go. *)
Definition tick (e : PassEnv R) (db : DB) : DB * list Call :=
  let '(cursor, err) := LoadCheckpoint (load_err e) (r_ProviderName r) db in
  match err with
  | Some _ => (db, [])
  | None =>
      let cp := {| Cursor := cursor |} in
      if bool_decide (Cursor cp = "") then (db, [])
      else
        let proc := createProcessor userID inboxID (tx_env e) in
        let '(st, res) := IncrementalSync (r_Provider r) (remote e) "me" cp proc (db, O) in
        let db1 := st.1 in
        match res with
        | Err msg =>
            ((UpdateSyncStatus (status_err e) (now_end e) (r_ProviderName r)
                "ERROR" msg db1).1, [CallIncremental cp])
        | Ok newCP =>
            match newCP with
            | Some ncp =>
                if bool_decide (Cursor ncp ≠ Cursor cp) then
                  ((SaveCheckpoint (save_err e) (now_end e) (now_end e)
                      (r_ProviderName r) inboxID (Cursor ncp) "HOOKED" db1).1,
                   [CallIncremental cp])
                else (db1, [CallIncremental cp])
            | None => (db1, [CallIncremental cp])
            end
        end
  end.

(** The for/select loop over what the select receives. *)
Fixpoint syncLoop (events : list (LoopEvent R)) (db : DB) (log : list Call) : Run :=
  match events with
  | [] => {| final_db := db; calls := log; outcome := Ticking |}
  | CtxDone :: _ => {| final_db := db; calls := log; outcome := Returned None |}
  | TickFire e :: rest =>
      let '(db', cs) := tick e db in
      syncLoop rest db' (log ++ cs)
  end.

(** RunInbox.  [open], [stream] are the verdicts of OpenUserDB and
    EnsureStream; [db] is the content of the tenant's store file.  The
    dispatcher started on line 43 runs beside the loop and only updates
    published_at, retries and next_attempt_at of outbox rows; it is left
    out. *)
Definition RunInbox (open stream : option string) (first : PassEnv R)
    (events : list (LoopEvent R)) (db : DB) : Run :=
  match open with
  | Some e =>
      {| final_db := db; calls := [];
         outcome := Returned (Some ("failed to open user DB: " +:+ e)) |}
  | None =>
      match stream with
      | Some e =>
          {| final_db := db; calls := [];
             outcome := Returned (Some ("failed to ensure NATS stream: " +:+ e)) |}
      | None =>
          let '(db1, cs, err) := firstPass first db in
          match err with
          | Some e => {| final_db := db1; calls := cs; outcome := Returned (Some e) |}
          | None => syncLoop events db1 cs
          end
      end
  end.

End RunInbox.

(** dispatchLoop.  What the dispatcher takes from outside for one
    message: the publisher's verdict, the clock (nanoseconds since the
    epoch) when the row is marked, and the driver's verdict on the
    UPDATE. *)
Record ShipEnv := {
  publish_err : option string;
  mark_clock : Z;
  mark_err : option string
}.

(** What one turn of the dispatcher's loop takes from outside. *)
Record CycleEnv := {
  dq_query : option string;
  dq_scan : option string;
  dq_stop : option nat;
  dq_clock : Z;
  ship : nat → ShipEnv
}.

(** A call of Publisher.Publish and whether the bus acknowledged it. *)
Record Publication := {
  pub_message : OutboxMessage;
  pub_acked : bool
}.

(** The for loop over the dequeued messages: publish, then mark the row
    published, or mark it for a retry in 10 s when the publish failed.
    The errors of the two Mark calls are dropped or logged. *)
Fixpoint shipAll (env : nat → ShipEnv) (k : nat) (messages : list OutboxMessage)
    (db : DB) : DB * list Publication :=
  match messages with
  | [] => (db, [])
  | msg :: rest =>
      let e := env k in
      match publish_err e with
      | Some _ =>
          let db1 := (MarkOutboxRetry (mark_err e) (mark_clock e) (10 * Second)
                        (ID msg) db).1 in
          let '(db2, log) := shipAll env (S k) rest db1 in
          (db2, {| pub_message := msg; pub_acked := false |} :: log)
      | None =>
          let db1 := (MarkPublished (mark_err e) (mark_clock e / Second)
                        (ID msg) db).1 in
          let '(db2, log) := shipAll env (S k) rest db1 in
          (db2, {| pub_message := msg; pub_acked := true |} :: log)
      end
  end.

(** One turn of the loop of dispatchLoop: the store afterwards, the
    publishes made, and the sleep taken (a Duration, 0 for none). *)
Definition dispatchCycle (e : CycleEnv) (db : DB) : DB * list Publication * Z :=
  let '(messages, err) :=
    DequeueOutbox (dq_query e) (dq_scan e) (dq_stop e) (dq_clock e / Second) 100 db in
  match err with
  | Some _ => (db, [], Second)
  | None =>
      match messages with
      | [] => (db, [], 500 * (Second / 1000))
      | _ :: _ =>
          let '(db', log) := shipAll (ship e) O messages db in
          (db', log, 0)
      end
  end.

(** The turns the loop takes until the context is done. *)
Fixpoint dispatchLoop (cycles : list CycleEnv) (db : DB) : DB * list Publication :=
  match cycles with
  | [] => (db, [])
  | e :: rest =>
      let '(db1, log1, _) := dispatchCycle e db in
      let '(db2, log2) := dispatchLoop rest db1 in
      (db2, log1 ++ log2)
  end.

(** manager.go.  Every operation holds runnersMutex from its first line
    to its last, so operations take effect one after the other; a state
    of the manager is the content of the runners map.  A cancel function
    is identified by the number of the runner it belongs to; [cancelled]
    collects the ones that have been called. *)
Record InboxConfig := {
  cfg_UserID : string;
  cfg_InboxID : string;
  cfg_Provider : ProviderName;
  cfg_UserJWT : string
}.

Record Manager := {
  runners : gmap string nat;
  launched : nat;
  cancelled : gset nat
}.

Definition NewManager : Manager :=
  {| runners := ∅; launched := 0; cancelled := ∅ |}.

Definition key_of (userID inboxID : string) (provider : ProviderName) : string :=
  userID +:+ ":" +:+ inboxID +:+ ":" +:+ provider.

(** StartSync.  [token] is what authClient.GetToken answers and [adapter]
    what the provider factory answers. *)
Definition StartSync (token : result unit) (adapter : result MailProvider)
    (config : InboxConfig) (m : Manager) : Manager * option string :=
  let key := key_of (cfg_UserID config) (cfg_InboxID config) (cfg_Provider config) in
  match runners m !! key with
  | Some _ => (m, Some "sync already running")
  | None =>
      if negb (bool_decide (cfg_Provider config = ProviderGoogle) ||
               bool_decide (cfg_Provider config = ProviderMicrosoft))
      then (m, Some "unsupported provider")
      else
        match token with
        | Err e => (m, Some ("get token: " +:+ e))
        | Ok _ =>
            match adapter with
            | Err e => (m, Some ("create provider: " +:+ e))
            | Ok _ =>
                ({| runners := <[key := launched m]> (runners m);
                    launched := S (launched m);
                    cancelled := cancelled m |}, None)
            end
        end
  end.

Definition StopSync (userID inboxID : string) (provider : ProviderName)
    (m : Manager) : Manager * option string :=
  let key := key_of userID inboxID provider in
  match runners m !! key with
  | None => (m, Some ("no sync running for " +:+ key))
  | Some cancel =>
      ({| runners := delete key (runners m);
          launched := launched m;
          cancelled := {[cancel]} ∪ cancelled m |}, None)
  end.

Definition IsRunning (userID inboxID : string) (provider : ProviderName)
    (m : Manager) : bool :=
  bool_decide (is_Some (runners m !! key_of userID inboxID provider)).

Definition StopAll (m : Manager) : Manager :=
  {| runners := ∅;
     launched := launched m;
     cancelled := list_to_set (map_to_list (runners m)).*2 ∪ cancelled m |}.

(** GetRunningSyncs: the keys, in the order the map yields them. *)
Definition GetRunningSyncs (m : Manager) : list string :=
  (map_to_list (runners m)).*1.

(** The tail of the goroutine StartSync launches: when RunInbox returns
    the runner deletes its key. *)
Definition runnerExit (key : string) (m : Manager) : Manager :=
  {| runners := delete key (runners m);
     launched := launched m;
     cancelled := cancelled m |}.

(** The operations on a manager, and the states they reach. *)
Inductive Op :=
  | OpStart (token : result unit) (adapter : result MailProvider) (config : InboxConfig)
  | OpStop (userID inboxID : string) (provider : ProviderName)
  | OpStopAll
  | OpExit (key : string).

Definition apply_op (m : Manager) (o : Op) : Manager :=
  match o with
  | OpStart token adapter config => (StartSync token adapter config m).1
  | OpStop u i p => (StopSync u i p m).1
  | OpStopAll => StopAll m
  | OpExit key => runnerExit key m
  end.

Definition run_ops (ops : list Op) : Manager := fold_left apply_op ops NewManager.

End sync.

(* --------------------------------------------------------------------- *)
(* internal/providers/gmail/adapter.go                                   *)
(* --------------------------------------------------------------------- *)

Module gmail.
Import sync.

(** gmail.Message in metadata format. *)
Record Message := {
  Id : string;
  ThreadId : string;
  MsgSnippet : string;
  LabelIds : list string;
  InternalDate : Z;
  PayloadHeaders : list (string * string)
}.

(** gmail.History: its id and the ids of the messages it adds. *)
Record History := {
  HistoryId : N;
  MessagesAdded : list string
}.

(** The Gmail service as one adapter call sees it: Users.Messages.List,
    Users.Messages.Get, Users.GetProfile (the profile's history id) and
    Users.History.List from a start id. *)
Record Service := {
  Messages_List : string → Listing string;
  Messages_Get : string → string → result Message;
  GetProfile : string → result N;
  History_List : string → N → Listing History
}.

(** call.Pages of the generated client: fetch, hand the page to [f], go
    on while the page names a next one; the first error ends the walk. *)
Fixpoint Pages {A St : Type} (l : Listing A)
    (f : list A → St → St * option string) (st : St) : St * option string :=
  match l with
  | FetchError e => (st, Some e)
  | LastPage items => f items st
  | MorePages items next =>
      let '(st1, err) := f items st in
      match err with
      | Some e => (st1, Some e)
      | None => Pages next f st1
      end
  end.

Section Adapter.
Context `{GoRuntime}.

(** splitAddrs *)
Definition splitAddrs (s : string) : list string :=
  if bool_decide (s = "") then []
  else filter (λ p, p ≠ "") (TrimSpace <$> Go.Split s ",").

(** normalize *)
Definition normalize (m : Message) (userID : string) : MessageMeta :=
  let headers : gmap string string :=
    fold_left (λ h kv, <[kv.1 := kv.2]> h) (PayloadHeaders m) ∅ in
  {| Provider := ProviderGoogle;
     UserID := userID;
     InboxID := "primary";
     MessageID := Id m;
     ThreadID := ThreadId m;
     Subject := default "" (headers !! "Subject");
     Sender := default "" (headers !! "From");
     To := splitAddrs (default "" (headers !! "To"));
     Cc := splitAddrs (default "" (headers !! "Cc"));
     Bcc := splitAddrs (default "" (headers !! "Bcc"));
     Snippet := MsgSnippet m;
     ProviderLabels := LabelIds m;
     Headers := headers;
     MessageDate := UnixMilli (InternalDate m) |}.

Section WithSink.
Context {St : Type}.
Variable svc : Service.
Variable user : string.
Variable fn : Sink St.

(** The callback of InitialBackfill on one page. *)
Fixpoint backfillPage (ms : list string) (st : St) : St * option string :=
  match ms with
  | [] => (st, None)
  | m :: rest =>
      match Messages_Get svc user m with
      | Err e => (st, Some ("failed to get message " +:+ m +:+ ": " +:+ e))
      | Ok meta =>
          let '(st1, err) := fn (normalize meta user) st in
          match err with
          | Some e => (st1, Some e)
          | None => backfillPage rest st1
          end
      end
  end.

(** InitialBackfill *)
Definition InitialBackfill (cp : Checkpoint) (st : St)
    : St * result (option Checkpoint) :=
  let '(st1, err) := Pages (Messages_List svc user) backfillPage st in
  match err with
  | Some e => (st1, Err ("failed to backfill messages: " +:+ e))
  | None =>
      match GetProfile svc user with
      | Ok historyId =>
          if bool_decide (historyId ≠ 0%N)
          then (st1, Ok (Some {| Cursor := Go.FormatUint historyId |}))
          else (st1, Ok (Some {| Cursor := "" |}))
      | Err _ => (st1, Ok (Some {| Cursor := "" |}))
      end
  end.

(** What the closure of IncrementalSync carries besides the sink's
    state: latestHistoryID and processedMessages. *)
Record Walk := {
  sink_state : St;
  latestHistoryID : N;
  processedMessages : gset string
}.

(** The inner loop over history.MessagesAdded. *)
Fixpoint addedLoop (recs : list string) (w : Walk) : Walk * option string :=
  match recs with
  | [] => (w, None)
  | msgID :: rest =>
      if bool_decide (msgID ∈ processedMessages w) then addedLoop rest w
      else
        let w1 := {| sink_state := sink_state w;
                     latestHistoryID := latestHistoryID w;
                     processedMessages := {[msgID]} ∪ processedMessages w |} in
        match Messages_Get svc user msgID with
        | Err e => (w1, Some ("failed to get message " +:+ msgID +:+ ": " +:+ e))
        | Ok meta =>
            let '(st1, err) := fn (normalize meta user) (sink_state w1) in
            let w2 := {| sink_state := st1;
                         latestHistoryID := latestHistoryID w1;
                         processedMessages := processedMessages w1 |} in
            match err with
            | Some e => (w2, Some e)
            | None => addedLoop rest w2
            end
        end
  end.

(** The callback of IncrementalSync on one page of history. *)
Fixpoint historyPage (hs : list History) (w : Walk) : Walk * option string :=
  match hs with
  | [] => (w, None)
  | history :: rest =>
      let w1 := {| sink_state := sink_state w;
                   latestHistoryID :=
                     if (latestHistoryID w <? HistoryId history)%N
                     then HistoryId history else latestHistoryID w;
                   processedMessages := processedMessages w |} in
      let '(w2, err) := addedLoop (MessagesAdded history) w1 in
      match err with
      | Some e => (w2, Some e)
      | None => historyPage rest w2
      end
  end.

(** The walk over the History API from [startHistoryID]. *)
Definition historyWalk (startHistoryID : N) (st : St) : Walk * option string :=
  Pages (History_List svc user startHistoryID) historyPage
    {| sink_state := st; latestHistoryID := startHistoryID;
       processedMessages := ∅ |}.

Definition parse_error (s : string) (e : Go.NumError) : string :=
  "strconv.ParseUint: parsing " +:+ Quote s +:+ ": " +:+
  match e with
  | Go.ErrSyntax => "invalid syntax"
  | Go.ErrRange => "value out of range"
  end.

(** IncrementalSync *)
Definition IncrementalSync (cp : Checkpoint) (st : St)
    : St * result (option Checkpoint) :=
  if bool_decide (Cursor cp = "") then InitialBackfill cp st
  else
    match Go.ParseUint (Cursor cp) with
    | inl e => (st, Err ("invalid history ID in cursor: " +:+ parse_error (Cursor cp) e))
    | inr startHistoryID =>
        let '(w, err) := historyWalk startHistoryID st in
        match err with
        | Some e =>
            if Go.Contains e "404" || Go.Contains e "historyId"
            then InitialBackfill cp (sink_state w)
            else (sink_state w, Err ("failed to sync history: " +:+ e))
        | None =>
            (sink_state w, Ok (Some {| Cursor := Go.FormatUint (latestHistoryID w) |}))
        end
    end.

End WithSink.

(** The adapter as a MailProvider. *)
Definition Adapter : MailProvider :=
  {| Remote := Service;
     sync.InitialBackfill := λ St svc user cp fn st, InitialBackfill svc user fn cp st;
     sync.IncrementalSync := λ St svc user cp fn st, IncrementalSync svc user fn cp st |}.

End Adapter.

End gmail.

(* --------------------------------------------------------------------- *)
(* internal/providers/outlook/adapter.go                                 *)
(* --------------------------------------------------------------------- *)

Module outlook.
Import sync.

(** models.Recipientable: every getter may answer nil. *)
Record Recipient := {
  GetAddress : option (option string)   (* GetEmailAddress, then GetAddress *)
}.

(** models.Messageable *)
Record Message := {
  GetId : option string;
  GetConversationId : option string;
  GetSubject : option string;
  GetFrom : option Recipient;
  GetToRecipients : option (list Recipient);
  GetCcRecipients : option (list Recipient);
  GetBccRecipients : option (list Recipient);
  GetBodyPreview : option string;
  GetReceivedDateTime : option Time;
  GetInternetMessageHeaders : option (list (option string * option string))
}.

(** The Graph client as one adapter call sees it: the answer to
    Users().ByUserId(user).Messages().Get, a page of messages that may
    name a next page (@odata.nextLink). *)
Record Client := {
  Messages_Get : string → Listing Message
}.

(** extractAddresses *)
Definition extractAddresses (recipients : list Recipient) : list string :=
  omap (λ r, emailAddr ← GetAddress r; emailAddr) recipients.

(** normalizeOutlook *)
Definition normalizeOutlook (m : Message) (userID : string) : MessageMeta :=
  {| Provider := ProviderMicrosoft;
     UserID := userID;
     InboxID := "inbox";
     MessageID := default "" (GetId m);
     ThreadID := default "" (GetConversationId m);
     Subject := default "" (GetSubject m);
     Sender := default "" (from ← GetFrom m; emailAddr ← GetAddress from; emailAddr);
     To := default [] (extractAddresses <$> GetToRecipients m);
     Cc := default [] (extractAddresses <$> GetCcRecipients m);
     Bcc := default [] (extractAddresses <$> GetBccRecipients m);
     Snippet := default "" (GetBodyPreview m);
     ProviderLabels := [];
     Headers :=
       fold_left
         (λ h kv, match kv with
                  | (Some name, Some value) => <[name := value]> h
                  | _ => h
                  end)
         (default [] (GetInternetMessageHeaders m)) ∅;
     MessageDate := default zeroTime (GetReceivedDateTime m) |}.

Section WithSink.
Context {St : Type}.
Variable client : Client.
Variable user : string.
Variable fn : Sink St.

(** The for loop over result.GetValue(). *)
Fixpoint deliver (msgs : list Message) (st : St) : St * option string :=
  match msgs with
  | [] => (st, None)
  | msg :: rest =>
      let '(st1, err) := fn (normalizeOutlook msg user) st in
      match err with
      | Some e => (st1, Some e)
      | None => deliver rest st1
      end
  end.

(** result.GetValue() of the one request the adapter makes. *)
Definition first_page (l : Listing Message) : result (list Message) :=
  match l with
  | FetchError e => Err e
  | LastPage items => Ok items
  | MorePages items _ => Ok items
  end.

(** The id of the last message of the page, when it has one. *)
Definition last_id (messages : list Message) : option string :=
  lastMsg ← last messages; GetId lastMsg.

(** InitialBackfill *)
Definition InitialBackfill (cp : Checkpoint) (st : St)
    : St * result (option Checkpoint) :=
  match first_page (Messages_Get client user) with
  | Err e => (st, Err ("failed to list messages: " +:+ e))
  | Ok messages =>
      let '(st1, err) := deliver messages st in
      match err with
      | Some e => (st1, Err e)
      | None =>
          match last_id messages with
          | Some id => (st1, Ok (Some {| Cursor := id |}))
          | None => (st1, Ok (Some {| Cursor := "" |}))
          end
      end
  end.

(** IncrementalSync *)
Definition IncrementalSync (cp : Checkpoint) (st : St)
    : St * result (option Checkpoint) :=
  if bool_decide (Cursor cp = "") then InitialBackfill cp st
  else
    match first_page (Messages_Get client user) with
    | Err e => (st, Err ("failed to sync messages: " +:+ e))
    | Ok messages =>
        let '(st1, err) := deliver messages st in
        match err with
        | Some e => (st1, Err e)
        | None =>
            match last_id messages with
            | Some id => (st1, Ok (Some {| Cursor := id |}))
            | None => (st1, Ok (Some {| Cursor := Cursor cp |}))
            end
        end
    end.

End WithSink.

(** The adapter as a MailProvider. *)
Definition Adapter : MailProvider :=
  {| Remote := Client;
     sync.InitialBackfill := λ St client user cp fn st, InitialBackfill client user fn cp st;
     sync.IncrementalSync := λ St client user cp fn st, IncrementalSync client user fn cp st |}.

End outlook.

(* --------------------------------------------------------------------- *)
(* main.go: the mail endpoints over the worker manager.                  *)
(* --------------------------------------------------------------------- *)

Module main.
Import sync.

(** The switch on req.Provider of /mail/connect and /mail/disconnect. *)
Definition mapProvider (provider : string) : option ProviderName :=
  if bool_decide (provider = "google") || bool_decide (provider = "GOOGLE")
  then Some ProviderGoogle
  else if bool_decide (provider = "microsoft") || bool_decide (provider = "MICROSOFT")
  then Some ProviderMicrosoft
  else None.

(** What a handler answers: a status code with the message of the body,
    or a panic of the handler. *)
Inductive Response :=
  | Respond (status : Z) (message : string)
  | Panicked.

(** The handler of POST /mail/connect once the body is bound and the
    middleware has put the user into the context.  [authorization] is
    the Authorization header; jwt[7:] panics on a header of fewer than 7
    bytes. *)
Definition mailConnect (provider authorization userID : string)
    (token : result unit) (adapter : result MailProvider) (m : Manager)
    : Manager * Response :=
  match mapProvider provider with
  | None => (m, Respond 400 "unsupported provider")
  | Some syncProvider =>
      if bool_decide (authorization = "") then (m, Respond 401 "missing token")
      else if (String.length authorization <? 7)%nat then (m, Panicked)
      else
        let jwt := String.substring 7 (String.length authorization - 7) authorization in
        let config := {| cfg_UserID := userID; cfg_InboxID := "primary";
                         cfg_Provider := syncProvider; cfg_UserJWT := jwt |} in
        let '(m', err) := StartSync token adapter config m in
        match err with
        | Some e => (m', Respond 500 e)
        | None => (m', Respond 200 "sync started")
        end
  end.

(** The loop of GET /mail/status over GetRunningSyncs: the keys longer
    than the user's id that begin with it. *)
Definition userSyncs (userID : string) (running : list string) : list string :=
  filter (λ key, (String.length userID < String.length key)%nat ∧
                 String.substring 0 (String.length userID) key = userID)
         running.

Definition mailStatus (userID : string) (m : Manager) : list string :=
  userSyncs userID (GetRunningSyncs m).


End main.

(* --------------------------------------------------------------------- *)
(* Observing a sink: the records an adapter call delivers, in order.     *)
(* --------------------------------------------------------------------- *)

(** [recording fn] behaves as [fn] and notes every record it is called
    with. *)
Definition recording {St : Type} (fn : sync.Sink St) : sync.Sink (St * list sync.MessageMeta) :=
  λ meta st,
    let '(st1, err) := fn meta st.1 in
    ((st1, st.2 ++ [meta]), err).

(** A sink that takes every record. *)
Definition accept : sync.Sink unit := λ _ st, (st, None).

(** A runtime for running the model on examples: no trimming, no
    quoting, fixed JSON texts. *)
Definition plain_runtime : GoRuntime :=
  {| TrimSpace := λ s, s;
     Quote := λ s, s;
     Marshal := λ _, "json";
     MarshalObject := λ _, "{}" |}.

(* --------------------------------------------------------------------- *)
(* Vocabulary of the properties.                                         *)
(* --------------------------------------------------------------------- *)

(** The largest of [start] and the ids of the history records [hs]. *)
Definition max_history_id (start : N) (hs : list gmail.History) : N :=
  fold_left N.max (gmail.HistoryId <$> hs) start.

(** A walk of the History API that observes its sink: no record was
    delivered twice, and every delivered record is in processedMessages. *)
Definition walk_inv {St : Type}
    (w : gmail.Walk (St := St * list sync.MessageMeta)) : Prop :=
  NoDup (sync.MessageID <$> (gmail.sink_state w).2) ∧
  ∀ m, m ∈ (gmail.sink_state w).2 → sync.MessageID m ∈ gmail.processedMessages w.

(** Messages.Get answers with the message that was asked for. *)
Definition faithful_get (svc : gmail.Service) (user : string) : Prop :=
  ∀ id m, gmail.Messages_Get svc user id = Ok m → gmail.Id m = id.

(** The UNIQUE(provider, provider_message_id) constraint as a property of
    the event log. *)
Definition unique_events (db : sqlite.DB) : Prop :=
  ∀ p mid, (length (sqlite.events_of p mid db) ≤ 1)%nat.

(** An adapter touches the sink's state through the sink alone: whatever
    the sink preserves, both calls preserve. *)
Definition sink_only (p : sync.MailProvider) : Prop :=
  ∀ (St : Type) (P : St → Prop) (fn : sync.Sink St)
    (remote : sync.Remote p) (user : string) (cp : sync.Checkpoint) (st : St),
    (∀ m s, P s → P (fn m s).1) → P st →
    P (sync.InitialBackfill p remote user cp fn st).1 ∧
    P (sync.IncrementalSync p remote user cp fn st).1.

(** The store the first adapter call of a run starts from: the store as
    opened, after the SYNCING write with the cursor that was loaded. *)
Definition syncing_db {R : Type} (r : sync.Runner) (inboxID : string)
    (e : sync.PassEnv R) (cursor : string) (db : sqlite.DB) : sqlite.DB :=
  (sqlite.SaveCheckpoint (sync.presave_err e) (sync.now_start e) (sync.now_start e)
     (sync.r_ProviderName r) inboxID cursor "SYNCING" db).1.

(** The adapter call of the first pass: a backfill when the cursor loaded
    is empty, an incremental call otherwise. *)
Definition first_call `{GoRuntime} (r : sync.Runner) (userID inboxID : string)
    (e : sync.PassEnv (sync.Remote (sync.r_Provider r))) (cursor : string)
    (db0 : sqlite.DB) : (sqlite.DB * nat) * result (option sync.Checkpoint) :=
  if bool_decide (cursor = "") then
    sync.InitialBackfill (sync.r_Provider r) (sync.remote e) "me"
      {| sync.Cursor := cursor |}
      (sync.createProcessor userID inboxID (sync.tx_env e)) (db0, O)
  else
    sync.IncrementalSync (sync.r_Provider r) (sync.remote e) "me"
      {| sync.Cursor := cursor |}
      (sync.createProcessor userID inboxID (sync.tx_env e)) (db0, O).

Definition first_call_name (cursor : string) : sync.Call :=
  if bool_decide (cursor = "") then sync.CallBackfill {| sync.Cursor := cursor |}
  else sync.CallIncremental {| sync.Cursor := cursor |}.

(** The entries of the runners map under the key of a triple. *)
Definition registered (userID inboxID : string) (provider : sync.ProviderName)
    (m : sync.Manager) : list (string * nat) :=
  filter (λ kv, kv.1 = sync.key_of userID inboxID provider)
         (map_to_list (sync.runners m)).

(** What holds of the manager between operations: every registered cancel
    function belongs to a runner that was launched and has not been
    cancelled, no runner is registered under two keys, and only launched
    runners have been cancelled. *)
Definition manager_inv (m : sync.Manager) : Prop :=
  (∀ key h, sync.runners m !! key = Some h →
            (h < sync.launched m)%nat ∧ h ∉ sync.cancelled m) ∧
  (∀ k1 k2 h, sync.runners m !! k1 = Some h → sync.runners m !! k2 = Some h →
              k1 = k2) ∧
  (∀ h, h ∈ sync.cancelled m → (h < sync.launched m)%nat).

(** The two providers of the core. *)
Definition known_provider (p : sync.ProviderName) : Prop :=
  p = sync.ProviderGoogle ∨ p = sync.ProviderMicrosoft.

(** The records of a stream that are the provider message (p, mid). *)
Definition duplicates_of (p mid : string) (ms : list sync.MessageMeta)
    : list sync.MessageMeta :=
  filter (λ m, sync.Provider m = p ∧ sync.MessageID m = mid) ms.

(** The outbox rows that carry a given msg_id. *)
Definition outbox_of (msgID : string) (rows : list sqlite.OutboxRow)
    : list sqlite.OutboxRow :=
  filter (λ r, sqlite.ob_msg_id r = msgID) rows.

(** Outbox ids grow with the rows, below the AUTOINCREMENT counter. *)
Definition id_lt (a b : sqlite.OutboxRow) : Prop := sqlite.ob_id a < sqlite.ob_id b.

Definition outbox_wf (db : sqlite.DB) : Prop :=
  StronglySorted id_lt (sqlite.outbox db) ∧
  Forall (λ r, sqlite.ob_id r ≤ sqlite.outbox_seq db) (sqlite.outbox db).

(** The outbox row with this id has been shipped. *)
Definition published (id : Z) (db : sqlite.DB) : Prop :=
  ∃ r, r ∈ sqlite.outbox db ∧ sqlite.ob_id r = id ∧
       is_Some (sqlite.ob_published_at r).

(** The columns of an outbox row that are written once. *)
Definition ob_core (r : sqlite.OutboxRow) : Z * Z * string * string * string * string :=
  (sqlite.ob_id r, sqlite.ob_ts r, sqlite.ob_subject r, sqlite.ob_event_type r,
   sqlite.ob_payload r, sqlite.ob_msg_id r).

(** The writes the runner makes to a tenant's store. *)
Inductive StoreWrite :=
  | WProcess (userID inboxID : string) (e : sync.TxEnv) (meta : sync.MessageMeta)
  | WMarkPublished (exec : option string) (now id : Z)
  | WMarkRetry (exec : option string) (now backoff id : Z)
  | WSaveCheckpoint (exec : option string) (now1 now2 : Z)
      (provider inboxID cursor status : string)
  | WUpdateStatus (exec : option string) (now : Z) (provider status errorMsg : string).

Definition store_write `{GoRuntime} (db : sqlite.DB) (w : StoreWrite) : sqlite.DB :=
  match w with
  | WProcess userID inboxID e meta => (sync.process userID inboxID e meta db).1
  | WMarkPublished exec now id => (sqlite.MarkPublished exec now id db).1
  | WMarkRetry exec now backoff id => (sqlite.MarkOutboxRetry exec now backoff id db).1
  | WSaveCheckpoint exec now1 now2 provider inboxID cursor status =>
      (sqlite.SaveCheckpoint exec now1 now2 provider inboxID cursor status db).1
  | WUpdateStatus exec now provider status errorMsg =>
      (sqlite.UpdateSyncStatus exec now provider status errorMsg db).1
  end.

Definition store_writes `{GoRuntime} (ws : list StoreWrite) (db : sqlite.DB) : sqlite.DB :=
  fold_left store_write ws db.

(** What the dispatcher does to the store for one message: the body of
    the for loop of dispatchLoop. *)
Definition ship_one (env : nat → sync.ShipEnv) (k : nat)
    (msg : sqlite.OutboxMessage) (db : sqlite.DB) : sqlite.DB :=
  match sync.publish_err (env k) with
  | Some _ =>
      (sqlite.MarkOutboxRetry (sync.mark_err (env k)) (sync.mark_clock (env k))
         (10 * sqlite.Second) (sqlite.ID msg) db).1
  | None =>
      (sqlite.MarkPublished (sync.mark_err (env k))
         (sync.mark_clock (env k) / sqlite.Second) (sqlite.ID msg) db).1
  end.

(** The publication of a row, acknowledged or not. *)
Definition publication (acked : bool) (r : sqlite.OutboxRow) : sync.Publication :=
  {| sync.pub_message := sqlite.to_message r; sync.pub_acked := acked |}.

(** The rows of the outbox that are unpublished and due at [now]. *)
Definition ready_rows (now : Z) (db : sqlite.DB) : list sqlite.OutboxRow :=
  filter (λ r, sqlite.ready now r = true) (sqlite.outbox db).

(** The string holds no colon. *)
Fixpoint colon_free (s : string) : Prop :=
  match s with
  | EmptyString => True
  | String c s' => c ≠ ":"%char ∧ colon_free s'
  end.

(* --------------------------------------------------------------------- *)
(* Concrete mailboxes for running the model.                             *)
(* --------------------------------------------------------------------- *)

(** A Gmail message with the given id and nothing else. *)
Definition bare_message (id : string) : gmail.Message :=
  {| gmail.Id := id; gmail.ThreadId := "t1"; gmail.MsgSnippet := "";
     gmail.LabelIds := []; gmail.InternalDate := 0;
     gmail.PayloadHeaders := [] |}.

(** A mailbox with messages m1, m2, m3 on two pages, history records 7
    and 9 on two pages (m2 is added twice), and profile history id 9. *)
Definition demo_gmail : gmail.Service :=
  {| gmail.Messages_List := λ _, MorePages ["m1"; "m2"] (LastPage ["m3"]);
     gmail.Messages_Get := λ _ id, Ok (bare_message id);
     gmail.GetProfile := λ _, Ok 9%N;
     gmail.History_List := λ _ _,
       MorePages [{| gmail.HistoryId := 7; gmail.MessagesAdded := ["m1"; "m2"] |}]
         (LastPage [{| gmail.HistoryId := 9; gmail.MessagesAdded := ["m2"; "m3"] |}]) |}.

(** The same mailbox after the history has expired: the History API
    refuses every start id. *)
Definition stale_gmail : gmail.Service :=
  {| gmail.Messages_List := λ _, MorePages ["m1"; "m2"] (LastPage ["m3"]);
     gmail.Messages_Get := λ _ id, Ok (bare_message id);
     gmail.GetProfile := λ _, Ok 99%N;
     gmail.History_List := λ _ _,
       FetchError "googleapi: Error 404: stale historyId" |}.

(** A normalized Gmail record with the given message id. *)
Definition demo_meta (id : string) : sync.MessageMeta :=
  gmail.normalize (H := plain_runtime) (bare_message id) "me".

(** A store and clock under which every transaction goes through; the
    n-th call draws the uuid "uuid-n". *)
Definition healthy_tx (n : nat) : sync.TxEnv :=
  {| sync.uuid := "uuid-" +:+ Go.FormatUint (N.of_nat n);
     sync.now_ts := 1700000000;
     sync.begin_err := None;
     sync.insert_event_err := None;
     sync.insert_outbox_err := None;
     sync.now_outbox_ts := 1700000000;
     sync.now_next_attempt := 1700000000;
     sync.commit_err := None |}.

(** The same, except that the outbox INSERT of every transaction fails. *)
Definition broken_outbox_tx (n : nat) : sync.TxEnv :=
  {| sync.uuid := "uuid-" +:+ Go.FormatUint (N.of_nat n);
     sync.now_ts := 1700000000;
     sync.begin_err := None;
     sync.insert_event_err := None;
     sync.insert_outbox_err := Some "database or disk is full";
     sync.now_outbox_ts := 1700000000;
     sync.now_next_attempt := 1700000000;
     sync.commit_err := None |}.

(** A mailbox without news: the History API has nothing after the
    cursor. *)
Definition quiet_gmail : gmail.Service :=
  {| gmail.Messages_List := λ _, LastPage ["m1"];
     gmail.Messages_Get := λ _ id, Ok (bare_message id);
     gmail.GetProfile := λ _, Ok 9%N;
     gmail.History_List := λ _ _, LastPage [] |}.

(** A mailbox whose history has expired and whose profile cannot be read:
    the fall-back backfill finds no message and no history id. *)
Definition lost_gmail : gmail.Service :=
  {| gmail.Messages_List := λ _, LastPage [];
     gmail.Messages_Get := λ _ id, Ok (bare_message id);
     gmail.GetProfile := λ _, Err "googleapi: Error 429: quota exceeded";
     gmail.History_List := λ _ _,
       FetchError "googleapi: Error 404: stale historyId" |}.

(** A mailbox whose History API is down. *)
Definition down_gmail : gmail.Service :=
  {| gmail.Messages_List := λ _, FetchError "dial tcp: i/o timeout";
     gmail.Messages_Get := λ _ id, Err "dial tcp: i/o timeout";
     gmail.GetProfile := λ _, Err "dial tcp: i/o timeout";
     gmail.History_List := λ _ _, FetchError "dial tcp: i/o timeout" |}.

(** The runner of a Gmail inbox. *)
Definition demo_runner : sync.Runner :=
  {| sync.r_Provider := gmail.Adapter (H := plain_runtime);
     sync.r_ProviderName := sync.ProviderGoogle |}.

(** A pass during which the store answers every statement. *)
Definition calm_env (svc : gmail.Service) : sync.PassEnv gmail.Service :=
  {| sync.remote := svc;
     sync.load_err := None;
     sync.presave_err := None;
     sync.save_err := None;
     sync.status_err := None;
     sync.now_start := 1700000000;
     sync.now_end := 1700000030;
     sync.tx_env := healthy_tx |}.

(** The same, except that the SELECT of LoadCheckpoint fails. *)
Definition unreadable_env (svc : gmail.Service) : sync.PassEnv gmail.Service :=
  {| sync.remote := svc;
     sync.load_err := Some "database is locked";
     sync.presave_err := None;
     sync.save_err := None;
     sync.status_err := None;
     sync.now_start := 1700000000;
     sync.now_end := 1700000030;
     sync.tx_env := healthy_tx |}.

(** A store whose GOOGLE row holds the given cursor and status. *)
Definition db_with (cursor status : string) (last_error : option string)
    : sqlite.DB :=
  {| sqlite.provider_sync_state :=
       {[ "GOOGLE" :=
            {| sqlite.ss_inbox_id := "primary";
               sqlite.ss_cursor := Some cursor;
               sqlite.ss_last_synced_at := Some 1699999000;
               sqlite.ss_status := Some status;
               sqlite.ss_last_error := last_error;
               sqlite.ss_retry_count := 0;
               sqlite.ss_updated_at := Some 1699999000 |} ]};
     sqlite.email_received_events := [];
     sqlite.outbox := [];
     sqlite.outbox_seq := 0 |}.

(** An Outlook message with the given id and nothing else. *)
Definition bare_outlook (id : string) : outlook.Message :=
  {| outlook.GetId := Some id;
     outlook.GetConversationId := None;
     outlook.GetSubject := None;
     outlook.GetFrom := None;
     outlook.GetToRecipients := None;
     outlook.GetCcRecipients := None;
     outlook.GetBccRecipients := None;
     outlook.GetBodyPreview := None;
     outlook.GetReceivedDateTime := None;
     outlook.GetInternetMessageHeaders := None |}.

(** An Outlook inbox of two messages that Graph serves one per page. *)
Definition two_page_outlook : outlook.Client :=
  {| outlook.Messages_Get := λ _,
       MorePages [bare_outlook "a"] (LastPage [bare_outlook "b"]) |}.

(** The start request of scenario S6. *)
Definition demo_config : sync.InboxConfig :=
  {| sync.cfg_UserID := "u1"; sync.cfg_InboxID := "primary";
     sync.cfg_Provider := sync.ProviderGoogle; sync.cfg_UserJWT := "bearer" |}.

(** A store after three records went through the processor. *)
Definition three_rows_db : sqlite.DB :=
  store_writes (H := plain_runtime)
    [WProcess "u1" "primary" (healthy_tx 0) (demo_meta "m1");
     WProcess "u1" "primary" (healthy_tx 1) (demo_meta "m2");
     WProcess "u1" "primary" (healthy_tx 2) (demo_meta "m3")]
    sqlite.empty_db.

(** A turn of the dispatcher during which bus and store answer. *)
Definition healthy_cycle : sync.CycleEnv :=
  {| sync.dq_query := None; sync.dq_scan := None; sync.dq_stop := None;
     sync.dq_clock := 1700000005000000000;
     sync.ship := λ _, {| sync.publish_err := None;
                          sync.mark_clock := 1700000005200000000;
                          sync.mark_err := None |} |}.

(** A turn of the dispatcher during which the bus refuses every publish. *)
Definition offline_cycle : sync.CycleEnv :=
  {| sync.dq_query := None; sync.dq_scan := None; sync.dq_stop := None;
     sync.dq_clock := 1700000005000000000;
     sync.ship := λ _, {| sync.publish_err := Some "nats: no servers available";
                          sync.mark_clock := 1700000005200000000;
                          sync.mark_err := None |} |}.

(** An Outlook runner, and a pass of it over the two-page inbox during
    which the store answers every statement. *)
Definition outlook_runner : sync.Runner :=
  {| sync.r_Provider := outlook.Adapter;
     sync.r_ProviderName := sync.ProviderMicrosoft |}.

Definition outlook_env : sync.PassEnv outlook.Client :=
  {| sync.remote := two_page_outlook;
     sync.load_err := None;
     sync.presave_err := None;
     sync.save_err := None;
     sync.status_err := None;
     sync.now_start := 1700000000;
     sync.now_end := 1700000030;
     sync.tx_env := healthy_tx |}.

(** The store of that inbox after the first pass of a run. *)
Definition outlook_synced_db : sqlite.DB :=
  (sync.firstPass (H := plain_runtime) outlook_runner "u1" "primary"
     outlook_env sqlite.empty_db).1.1.

(** The mailbox of [stale_gmail] while the profile cannot be read: the
    history has expired, the messages can be listed and fetched, and
    Users.GetProfile is refused. *)
Definition profileless_gmail : gmail.Service :=
  {| gmail.Messages_List := λ _, MorePages ["m1"; "m2"] (LastPage ["m3"]);
     gmail.Messages_Get := λ _ id, Ok (bare_message id);
     gmail.GetProfile := λ _, Err "googleapi: Error 429: quota exceeded";
     gmail.History_List := λ _ _,
       FetchError "googleapi: Error 404: stale historyId" |}.

(* ===================================================================== *)
(* Properties                                                            *)
(* ===================================================================== *)

(* --------------------------------------------------------------------- *)
(* Decimal cursors: ParseUint reads back what Sprintf("%d") writes.      *)
(* --------------------------------------------------------------------- *)

Lemma digit_of_digit_char (d : N) :
  (d < 10)%N → Go.digit_of (Go.digit_char d) = Some d.
Proof.
  intros Hd. unfold Go.digit_of, Go.digit_char.
  rewrite N_ascii_embedding by lia.
  replace ((48 <=? 48 + d)%N && (48 + d <=? 57)%N) with true.
  - f_equal. lia.
  - symmetry. apply andb_true_intro. split; apply N.leb_le; lia.
Qed.

Lemma digits_value_ge (s : string) : ∀ n v,
  Go.digits_value s n = Some v → (n ≤ v)%N.
Proof.
  induction s as [|c s IH]; simpl; intros n v Hv.
  - injection Hv as <-. lia.
  - destruct (Go.digit_of c) as [d|]; [|discriminate].
    apply IH in Hv. lia.
Qed.

Lemma parse_loop_value (s : string) : ∀ n v,
  Go.digits_value s n = Some v → (v ≤ Go.maxUint64)%N →
  Go.parse_loop s n = inr v.
Proof.
  induction s as [|c s IH]; simpl; intros n v Hv Hmax.
  - congruence.
  - destruct (Go.digit_of c) as [d|]; [|discriminate].
    pose proof (digits_value_ge _ _ _ Hv) as Hge.
    assert (Hn : (n * 10 + d ≤ Go.maxUint64)%N) by lia.
    assert (Hcut : (n < Go.maxUint64 / 10 + 1)%N).
    { unfold Go.maxUint64 in *.
      change (18446744073709551615 / 10)%N with 1844674407370955161%N. lia. }
    destruct (N.leb_spec (Go.maxUint64 / 10 + 1) n); [lia|].
    destruct (N.ltb_spec Go.maxUint64 (n * 10 + d)); [lia|].
    by apply IH.
Qed.

Lemma digits_value_format (fuel : nat) : ∀ u acc,
  (u < 10 ^ N.of_nat fuel)%N →
  Go.digits_value (Go.format_loop fuel u acc) 0 = Go.digits_value acc u.
Proof.
  induction fuel as [|fuel IH]; intros u acc Hu.
  - simpl in *. f_equal. lia.
  - cbn [Go.format_loop].
    destruct (N.ltb_spec u 10) as [Hlt|Hge].
    + cbn [Go.digits_value]. rewrite digit_of_digit_char by done. f_equal.
    + rewrite IH.
      * cbn [Go.digits_value].
        rewrite digit_of_digit_char by (apply N.mod_lt; lia).
        f_equal. pose proof (N.div_mod u 10). lia.
      * rewrite Nat2N.inj_succ, N.pow_succ_r' in Hu.
        apply N.Div0.div_lt_upper_bound. lia.
Qed.

Lemma format_loop_nonempty (fuel : nat) : ∀ u acc,
  acc ≠ "" ∨ fuel ≠ O → Go.format_loop fuel u acc ≠ "".
Proof.
  induction fuel as [|fuel IH]; intros u acc Hne; cbn [Go.format_loop].
  - by destruct Hne.
  - destruct (u <? 10)%N; [done|]. apply IH. by left.
Qed.

Lemma FormatUint_nonempty (u : N) : Go.FormatUint u ≠ "".
Proof. apply format_loop_nonempty. by right. Qed.

Lemma ParseUint_FormatUint (u : N) :
  (u ≤ Go.maxUint64)%N → Go.ParseUint (Go.FormatUint u) = inr u.
Proof.
  intros Hu. unfold Go.ParseUint.
  pose proof (FormatUint_nonempty u) as Hne.
  destruct (Go.FormatUint u) as [|c s] eqn:E; [done|].
  rewrite <- E. apply parse_loop_value; [|done].
  unfold Go.FormatUint. rewrite digits_value_format; [done|].
  unfold Go.maxUint64 in Hu. simpl. lia.
Qed.

(* --------------------------------------------------------------------- *)
(* Gmail: the incremental walk over the History API.                     *)
(* --------------------------------------------------------------------- *)

Lemma parse_loop_bound (s : string) : ∀ n v,
  Go.parse_loop s n = inr v → (n ≤ Go.maxUint64)%N → (v ≤ Go.maxUint64)%N.
Proof.
  induction s as [|c s IH]; simpl; intros n v Hv Hn.
  - congruence.
  - destruct (Go.digit_of c) as [d|]; [|discriminate].
    destruct (Go.maxUint64 / 10 + 1 <=? n)%N; [discriminate|].
    destruct (N.ltb_spec Go.maxUint64 (n * 10 + d)); [discriminate|].
    eapply IH; eauto.
Qed.

Lemma ParseUint_bound (s : string) (v : N) :
  Go.ParseUint s = inr v → (v ≤ Go.maxUint64)%N.
Proof.
  unfold Go.ParseUint. destruct s; [discriminate|].
  intros Hv. eapply parse_loop_bound; eauto. unfold Go.maxUint64. lia.
Qed.

Lemma max_history_id_ge (hs : list gmail.History) : ∀ start,
  (start ≤ max_history_id start hs)%N.
Proof.
  unfold max_history_id.
  induction hs as [|h hs IH]; intros start; simpl; [lia|].
  etrans; [|apply IH]. lia.
Qed.

Lemma max_history_id_upper (hs : list gmail.History) : ∀ start b,
  (start ≤ b)%N → Forall (λ h, (gmail.HistoryId h ≤ b)%N) hs →
  (max_history_id start hs ≤ b)%N.
Proof.
  unfold max_history_id.
  induction hs as [|h hs IH]; intros start b Hs Hall; simpl; [done|].
  inversion Hall; subst. apply IH; [lia|done].
Qed.

Lemma max_history_id_bounds (hs : list gmail.History) : ∀ start,
  Forall (λ h, (gmail.HistoryId h ≤ max_history_id start hs)%N) hs.
Proof.
  induction hs as [|h hs IH]; intros start; [constructor|].
  constructor.
  - change (max_history_id start (h :: hs))
      with (max_history_id (N.max start (gmail.HistoryId h)) hs).
    etrans; [|apply max_history_id_ge]. lia.
  - apply IH.
Qed.

Lemma max_history_id_app (hs1 hs2 : list gmail.History) (start : N) :
  max_history_id start (hs1 ++ hs2) = max_history_id (max_history_id start hs1) hs2.
Proof. unfold max_history_id. by rewrite fmap_app, fold_left_app. Qed.

Section GmailWalk.
Context `{GoRuntime} {St : Type}.
Variable svc : gmail.Service.
Variable user : string.
Variable fn : sync.Sink St.
Hypothesis Hget : faithful_get svc user.

Local Abbreviation W := (gmail.Walk (St := St * list sync.MessageMeta)).

Lemma addedLoop_latest (recs : list string) : ∀ (w w' : W) err,
  gmail.addedLoop svc user (recording fn) recs w = (w', err) →
  gmail.latestHistoryID w' = gmail.latestHistoryID w.
Proof.
  induction recs as [|msgID recs IH]; intros w w' err; simpl.
  - by intros [= <- <-].
  - case_bool_decide; [apply IH|].
    destruct (gmail.Messages_Get svc user msgID) as [meta|e].
    + unfold recording at 1. simpl.
      destruct (fn _ _) as [st1 [e|]].
      * by intros [= <- <-].
      * intros Hrec. by apply IH in Hrec.
    + by intros [= <- <-].
Qed.

Lemma addedLoop_inv (recs : list string) : ∀ (w w' : W) err,
  gmail.addedLoop svc user (recording fn) recs w = (w', err) →
  walk_inv w → walk_inv w'.
Proof.
  induction recs as [|msgID recs IH]; intros w w' err; simpl.
  - by intros [= <- <-].
  - case_bool_decide as Hseen; [apply IH|].
    destruct (gmail.Messages_Get svc user msgID) as [meta|e] eqn:Eget.
    + unfold recording at 1. simpl.
      destruct (fn _ _) as [st1 err1].
      assert (Hstep : walk_inv w → walk_inv
        {| gmail.sink_state :=
             (st1, (gmail.sink_state w).2 ++ [gmail.normalize meta user]);
           gmail.latestHistoryID := gmail.latestHistoryID w;
           gmail.processedMessages := {[msgID]} ∪ gmail.processedMessages w |}).
      { intros [Hnd Hsub]. split; simpl.
        - rewrite fmap_app. simpl. rewrite (Hget _ _ Eget).
          apply NoDup_app. split; [done|]. split; [|apply NoDup_singleton].
          intros x Hx Hx'. apply list_elem_of_singleton in Hx' as ->.
          apply list_elem_of_fmap in Hx as (m & -> & Hm).
          apply Hseen. by apply Hsub.
        - intros m Hm. apply elem_of_app in Hm as [Hm|Hm].
          + apply elem_of_union_r. by apply Hsub.
          + apply list_elem_of_singleton in Hm as ->. simpl.
            rewrite (Hget _ _ Eget). set_solver. }
      destruct err1 as [e|].
      * intros [= <- <-]. done.
      * intros Hrec Hinv. eapply IH; eauto.
    + intros [= <- <-] [Hnd Hsub]. split; simpl; [done|].
      intros m Hm. apply elem_of_union_r. by apply Hsub.
Qed.

Lemma historyPage_inv (hs : list gmail.History) : ∀ (w w' : W) err,
  gmail.historyPage svc user (recording fn) hs w = (w', err) →
  walk_inv w → walk_inv w'.
Proof.
  induction hs as [|h hs IH]; intros w w' err; simpl.
  - by intros [= <- <-].
  - destruct (gmail.addedLoop _ _ _ _ _) as [w2 err2] eqn:Eadd.
    intros Hpage Hinv.
    assert (walk_inv w2) as Hinv2 by (eapply addedLoop_inv; eauto).
    destruct err2 as [e|].
    + by injection Hpage as <- <-.
    + eapply IH; eauto.
Qed.

Lemma historyPage_latest (hs : list gmail.History) : ∀ (w w' : W),
  gmail.historyPage svc user (recording fn) hs w = (w', None) →
  gmail.latestHistoryID w' = max_history_id (gmail.latestHistoryID w) hs.
Proof.
  induction hs as [|h hs IH]; intros w w'; simpl.
  - by intros [= <-].
  - destruct (gmail.addedLoop _ _ _ _ _) as [w2 err2] eqn:Eadd.
    apply addedLoop_latest in Eadd. simpl in Eadd.
    destruct err2 as [e|]; [discriminate|].
    intros Hpage. apply IH in Hpage. rewrite Hpage, Eadd.
    unfold max_history_id. simpl. f_equal.
    destruct (N.ltb_spec (gmail.latestHistoryID w) (gmail.HistoryId h)); lia.
Qed.

Lemma Pages_history_inv (l : Listing gmail.History) : ∀ (w w' : W) err,
  gmail.Pages l (gmail.historyPage svc user (recording fn)) w = (w', err) →
  walk_inv w → walk_inv w'.
Proof.
  induction l as [e|items|items next IH]; intros w w' err; simpl.
  - by intros [= <- <-].
  - apply historyPage_inv.
  - destruct (gmail.historyPage _ _ _ _ _) as [w1 err1] eqn:Epage.
    intros Hpages Hinv.
    assert (walk_inv w1) as Hinv1 by (eapply historyPage_inv; eauto).
    destruct err1 as [e|].
    + by injection Hpages as <- <-.
    + eapply IH; eauto.
Qed.

Lemma Pages_history_latest (l : Listing gmail.History) : ∀ (w w' : W),
  gmail.Pages l (gmail.historyPage svc user (recording fn)) w = (w', None) →
  healthy l = true ∧
  gmail.latestHistoryID w' = max_history_id (gmail.latestHistoryID w) (enumerable l).
Proof.
  induction l as [e|items|items next IH]; intros w w'; simpl.
  - discriminate.
  - intros Hpage. split; [done|]. by apply historyPage_latest.
  - destruct (gmail.historyPage _ _ _ _ _) as [w1 err1] eqn:Epage.
    destruct err1 as [e|]; [discriminate|].
    intros Hpages. apply IH in Hpages as [Hh Hl]. split; [done|].
    apply historyPage_latest in Epage.
    by rewrite max_history_id_app, <- Epage.
Qed.

End GmailWalk.

(** C10. A Gmail IncrementalSync with a non-empty numeric cursor whose walk
    over the History API ends without error (so without the fall-back to a
    backfill) hands each provider message id to the sink at most once, and
    returns as cursor the decimal rendering of the largest history id seen,
    the start id included; read back as a number it is not below the cursor
    that came in. *)
Theorem C10_incremental_dedup_and_cursor `{GoRuntime} {St : Type}
    (svc : gmail.Service) (user : string) (fn : sync.Sink St)
    (cp : sync.Checkpoint) (st : St) (start : N)
    (w : gmail.Walk (St := St * list sync.MessageMeta)) :
  sync.Cursor cp ≠ "" →
  Go.ParseUint (sync.Cursor cp) = inr start →
  faithful_get svc user →
  Forall (λ h, (gmail.HistoryId h ≤ Go.maxUint64)%N)
         (enumerable (gmail.History_List svc user start)) →
  gmail.historyWalk svc user (recording fn) start (st, []) = (w, None) →
  let latest := max_history_id start (enumerable (gmail.History_List svc user start)) in
  gmail.IncrementalSync svc user (recording fn) cp (st, [])
    = (gmail.sink_state w, Ok (Some {| sync.Cursor := Go.FormatUint latest |})) ∧
  NoDup (sync.MessageID <$> (gmail.sink_state w).2) ∧
  Go.ParseUint (Go.FormatUint latest) = inr latest ∧
  (start ≤ latest)%N ∧
  Forall (λ h, (gmail.HistoryId h ≤ latest)%N)
         (enumerable (gmail.History_List svc user start)).
Proof.
  intros Hne Hparse Hget Hids Hwalk latest.
  pose proof Hwalk as Hwalk'.
  unfold gmail.historyWalk in Hwalk'.
  pose proof (Pages_history_latest svc user fn _ _ _ Hwalk') as [_ Hlatest].
  simpl in Hlatest. fold latest in Hlatest.
  split; [|split; [|split; [|split]]].
  - unfold gmail.IncrementalSync.
    rewrite bool_decide_false by done.
    rewrite Hparse, Hwalk. by rewrite Hlatest.
  - eapply (Pages_history_inv svc user fn Hget) in Hwalk' as [Hnd _]; [done|].
    split; simpl; [constructor|]. intros m Hm. by apply elem_of_nil in Hm.
  - apply ParseUint_FormatUint.
    apply max_history_id_upper; [by eapply ParseUint_bound|done].
  - apply max_history_id_ge.
  - apply max_history_id_bounds.
Qed.

Lemma C10_witness :
  ∃ w, gmail.historyWalk (H := plain_runtime) demo_gmail "me"
         (recording accept) 5 (tt, []) = (w, None) ∧
       gmail.IncrementalSync (H := plain_runtime) demo_gmail "me"
         (recording accept) {| sync.Cursor := "5" |} (tt, [])
       = (gmail.sink_state w, Ok (Some {| sync.Cursor := "9" |})) ∧
       NoDup (sync.MessageID <$> (gmail.sink_state w).2).
Proof.
  destruct (gmail.historyWalk (H := plain_runtime) demo_gmail "me"
              (recording accept) 5 (tt, [])) as [w err] eqn:E.
  assert (err = None) as -> by (vm_compute in E; congruence).
  exists w. split; [done|].
  assert (Forall (λ h, (gmail.HistoryId h ≤ Go.maxUint64)%N)
            (enumerable (gmail.History_List demo_gmail "me" 5))) as Hids.
  { repeat constructor; vm_compute; discriminate. }
  destruct (C10_incremental_dedup_and_cursor (H := plain_runtime)
              demo_gmail "me" accept {| sync.Cursor := "5" |} tt 5 w
              ltac:(done) ltac:(reflexivity) ltac:(by intros id m [= <-])
              Hids E) as (Hres & Hnd & _).
  split; [exact Hres | exact Hnd].
Defined.

(* --------------------------------------------------------------------- *)
(* Gmail: the backfill, and the fall-back of the incremental call.       *)
(* --------------------------------------------------------------------- *)

Section GmailBackfill.
Context `{GoRuntime} {St : Type}.
Variable svc : gmail.Service.
Variable user : string.
Variable fn : sync.Sink St.
Variable msg : string → gmail.Message.
Hypothesis Hsink : ∀ m s, (fn m s).2 = None.

Lemma backfillPage_all (ms : list string) : ∀ st log,
  (∀ id, id ∈ ms → gmail.Messages_Get svc user id = Ok (msg id)) →
  ∃ st', gmail.backfillPage svc user (recording fn) ms (st, log)
         = ((st', log ++ ((λ id, gmail.normalize (msg id) user) <$> ms)), None).
Proof.
  induction ms as [|m ms IH]; intros st log Hgets; simpl.
  - exists st. by rewrite app_nil_r.
  - rewrite Hgets by left.
    unfold recording at 1. simpl.
    pose proof (Hsink (gmail.normalize (msg m) user) st) as Hacc.
    destruct (fn _ st) as [st1 err]. simpl in Hacc. subst err.
    destruct (IH st1 (log ++ [gmail.normalize (msg m) user])) as [st' ->].
    { intros id Hid. apply Hgets. by right. }
    exists st'. by rewrite <- app_assoc.
Qed.

Lemma Pages_backfill_all (l : Listing string) : ∀ st log,
  healthy l = true →
  (∀ id, id ∈ enumerable l → gmail.Messages_Get svc user id = Ok (msg id)) →
  ∃ st', gmail.Pages l (gmail.backfillPage svc user (recording fn)) (st, log)
         = ((st', log ++ ((λ id, gmail.normalize (msg id) user) <$> enumerable l)), None).
Proof.
  induction l as [e|items|items next IH]; intros st log Hh Hgets; simpl in *.
  - discriminate.
  - by apply backfillPage_all.
  - destruct (backfillPage_all items st log) as [st1 ->].
    { intros id Hid. apply Hgets. apply elem_of_app. by left. }
    destruct (IH st1 (log ++ ((λ id, gmail.normalize (msg id) user) <$> items)))
      as [st' ->]; [done| |].
    { intros id Hid. apply Hgets. apply elem_of_app. by right. }
    exists st'. by rewrite fmap_app, app_assoc.
Qed.

(** A Gmail backfill whose listing and fetches succeed hands every
    message of every page to the sink, in the provider's order, and
    returns the profile's history id as cursor. *)
Lemma gmail_backfill_complete (cp : sync.Checkpoint) (st : St)
    (log : list sync.MessageMeta) (h : N) :
  healthy (gmail.Messages_List svc user) = true →
  (∀ id, id ∈ enumerable (gmail.Messages_List svc user) →
         gmail.Messages_Get svc user id = Ok (msg id)) →
  gmail.GetProfile svc user = Ok h → h ≠ 0%N →
  ∃ st', gmail.InitialBackfill svc user (recording fn) cp (st, log)
         = ((st', log ++ ((λ id, gmail.normalize (msg id) user)
                            <$> enumerable (gmail.Messages_List svc user))),
            Ok (Some {| sync.Cursor := Go.FormatUint h |})).
Proof.
  intros Hh Hgets Hprof Hnz. unfold gmail.InitialBackfill.
  destruct (Pages_backfill_all _ st log Hh Hgets) as [st' ->].
  exists st'. rewrite Hprof. by rewrite bool_decide_true.
Qed.

End GmailBackfill.

(** C7, as the code has it.  When the walk of a Gmail incremental call
    ends in an error whose text mentions 404 or historyId, the call is the
    backfill, run on the same sink, and returns what the backfill returns.
    An error of the backfill's walk is the error of the call.  When the
    listing, the fetches and the sink meet no error, the call succeeds
    after handing every message of the inbox to the sink; the cursor it
    returns is the profile's history id, a fresh cursor, when the profile
    can be read and its history id is not zero, and the empty cursor when
    the profile cannot be read or its history id is zero. *)
Theorem C7_stale_cursor_falls_back `{GoRuntime} {St : Type}
    (svc : gmail.Service) (user : string) (fn : sync.Sink St)
    (cp : sync.Checkpoint) (st : St) (start : N)
    (w : gmail.Walk (St := St * list sync.MessageMeta)) (e : string) :
  sync.Cursor cp ≠ "" →
  Go.ParseUint (sync.Cursor cp) = inr start →
  gmail.historyWalk svc user (recording fn) start (st, []) = (w, Some e) →
  Go.Contains e "404" = true ∨ Go.Contains e "historyId" = true →
  let call := gmail.IncrementalSync svc user (recording fn) cp (st, []) in
  let pages := gmail.Pages (gmail.Messages_List svc user)
                 (gmail.backfillPage svc user (recording fn))
                 (gmail.sink_state w) in
  call = gmail.InitialBackfill svc user (recording fn) cp (gmail.sink_state w) ∧
  (∀ e', pages.2 = Some e' →
         call = (pages.1, Err ("failed to backfill messages: " +:+ e'))) ∧
  ∀ (msg : string → gmail.Message),
    (∀ m s, (fn m s).2 = None) →
    healthy (gmail.Messages_List svc user) = true →
    (∀ id, id ∈ enumerable (gmail.Messages_List svc user) →
           gmail.Messages_Get svc user id = Ok (msg id)) →
    ∃ st',
      let delivered := (gmail.sink_state w).2 ++
                       ((λ id, gmail.normalize (msg id) user)
                          <$> enumerable (gmail.Messages_List svc user)) in
      (∀ h, gmail.GetProfile svc user = Ok h → h ≠ 0%N →
            call = ((st', delivered), Ok (Some {| sync.Cursor := Go.FormatUint h |})) ∧
            Go.FormatUint h ≠ "") ∧
      (gmail.GetProfile svc user = Ok 0%N ∨
       (∃ x, gmail.GetProfile svc user = Err x) →
       call = ((st', delivered), Ok (Some {| sync.Cursor := "" |}))).
Proof.
  intros Hne Hparse Hwalk Hold call pages.
  assert (call = gmail.InitialBackfill svc user (recording fn) cp (gmail.sink_state w))
    as Heq.
  { unfold call, gmail.IncrementalSync.
    rewrite bool_decide_false by done. rewrite Hparse, Hwalk.
    by destruct Hold as [-> | ->]; [|rewrite orb_true_r]. }
  split; [done|]. split.
  - intros e' He'. rewrite Heq. unfold gmail.InitialBackfill. fold pages.
    destruct pages as [st1 err]. simpl in He'. by subst err.
  - intros msg Hsink Hh Hgets. rewrite Heq.
    destruct (gmail.sink_state w) as [st1 log1] eqn:Hw. simpl.
    destruct (Pages_backfill_all svc user fn msg Hsink
                (gmail.Messages_List svc user) st1 log1 Hh Hgets) as [st' Hpages].
    exists st'. unfold gmail.InitialBackfill. rewrite Hpages. split.
    + intros h Hprof Hnz. rewrite Hprof, bool_decide_true by done.
      split; [done|]. apply FormatUint_nonempty.
    + intros [Hprof|[x Hprof]]; rewrite Hprof; [|done].
      by rewrite bool_decide_false by (by intros []).
Qed.

Lemma C7_witness :
  gmail.IncrementalSync (H := plain_runtime) stale_gmail "me"
    (recording accept) {| sync.Cursor := "1" |} (tt, [])
  = ((tt, (λ id, gmail.normalize (H := plain_runtime) (bare_message id) "me")
            <$> ["m1"; "m2"; "m3"]),
     Ok (Some {| sync.Cursor := "99" |})).
Proof.
  destruct (C7_stale_cursor_falls_back (H := plain_runtime)
              stale_gmail "me" accept {| sync.Cursor := "1" |} tt 1
              {| gmail.sink_state := (tt, []); gmail.latestHistoryID := 1;
                 gmail.processedMessages := ∅ |}
              "googleapi: Error 404: stale historyId"
              ltac:(done) ltac:(reflexivity) ltac:(reflexivity)
              ltac:(left; reflexivity)) as (_ & _ & Hfresh).
  destruct (Hfresh bare_message ltac:(done) ltac:(reflexivity) ltac:(done))
    as ([] & Hread & _).
  destruct (Hread 99%N ltac:(reflexivity) ltac:(done)) as [Hres _].
  exact Hres.
Defined.

(** C7 fails as stated: the history has expired and the profile cannot be
    read.  The call falls back to the backfill, hands the three messages
    to the sink and returns nil with the empty cursor, which is no fresh
    cursor: a runner that stores it makes no further adapter call. *)
Lemma C7_counterexample :
  let call := gmail.IncrementalSync (H := plain_runtime) profileless_gmail "me"
                (recording accept) {| sync.Cursor := "1" |} (tt, []) in
  (gmail.historyWalk (H := plain_runtime) profileless_gmail "me"
     (recording accept) 1 (tt, [])).2
  = Some "googleapi: Error 404: stale historyId" ∧
  call = ((tt, [demo_meta "m1"; demo_meta "m2"; demo_meta "m3"]),
          Ok (Some {| sync.Cursor := "" |})) ∧
  ¬ ∃ c, c ≠ "" ∧ call.2 = Ok (Some {| sync.Cursor := c |}).
Proof.
  intros call. split; [reflexivity|]. split; [reflexivity|].
  intros (c & Hc & Hcall). vm_compute in Hcall. congruence.
Qed.

(* --------------------------------------------------------------------- *)
(* The event processor and the store: one event row per provider         *)
(* message, one outbox row per committed transaction.                    *)
(* --------------------------------------------------------------------- *)

Lemma conflicts_key (e r : sqlite.EmailEvent) :
  sqlite.ev_provider r = sqlite.ev_provider e →
  sqlite.ev_provider_message_id r = sqlite.ev_provider_message_id e →
  sqlite.conflicts e r = true.
Proof.
  intros Hp Hm. unfold sqlite.conflicts.
  rewrite (bool_decide_true _ Hp), (bool_decide_true _ Hm).
  apply orb_true_r.
Qed.

Lemma existsb_conflicts_present (e : sqlite.EmailEvent) (db : sqlite.DB) :
  sqlite.events_of (sqlite.ev_provider e) (sqlite.ev_provider_message_id e) db ≠ [] →
  existsb (sqlite.conflicts e) (sqlite.email_received_events db) = true.
Proof.
  unfold sqlite.events_of. intros Hne.
  destruct (filter _ _) as [|r rs] eqn:E; [done|].
  assert (r ∈ filter (λ r, sqlite.ev_provider r = sqlite.ev_provider e ∧
                           sqlite.ev_provider_message_id r
                           = sqlite.ev_provider_message_id e)
                     (sqlite.email_received_events db)) as Hr
    by (rewrite E; left).
  apply list_elem_of_filter in Hr as [[Hp Hm] Hin].
  apply existsb_exists. exists r. split; [by apply list_elem_of_In|].
  by apply conflicts_key.
Qed.

Lemma existsb_conflicts_absent (e : sqlite.EmailEvent) (db : sqlite.DB) :
  existsb (sqlite.conflicts e) (sqlite.email_received_events db) = false →
  sqlite.events_of (sqlite.ev_provider e) (sqlite.ev_provider_message_id e) db = [].
Proof.
  intros Hex.
  destruct (sqlite.events_of _ _ db) eqn:E; [done|].
  rewrite existsb_conflicts_present in Hex; [done|]. by rewrite E.
Qed.

Lemma insert_or_ignore_outbox (e : sqlite.EmailEvent) (db : sqlite.DB) :
  sqlite.outbox (sqlite.insert_or_ignore_event e db) = sqlite.outbox db.
Proof. unfold sqlite.insert_or_ignore_event. by destruct (existsb _ _). Qed.

(** The second INSERT OR IGNORE of a provider message changes nothing. *)
Lemma insert_or_ignore_present (e : sqlite.EmailEvent) (db : sqlite.DB) :
  sqlite.events_of (sqlite.ev_provider e) (sqlite.ev_provider_message_id e) db ≠ [] →
  sqlite.insert_or_ignore_event e db = db.
Proof.
  intros Hne. unfold sqlite.insert_or_ignore_event.
  by rewrite existsb_conflicts_present.
Qed.

Lemma insert_or_ignore_unique (e : sqlite.EmailEvent) (db : sqlite.DB) :
  unique_events db → unique_events (sqlite.insert_or_ignore_event e db).
Proof.
  intros Hu. unfold sqlite.insert_or_ignore_event.
  destruct (existsb _ _) eqn:Hex; [done|].
  intros p mid. unfold sqlite.events_of. simpl.
  rewrite filter_app, length_app.
  destruct (decide (sqlite.ev_provider e = p ∧
                    sqlite.ev_provider_message_id e = mid)) as [[<- <-]|Hother].
  - apply existsb_conflicts_absent in Hex. unfold sqlite.events_of in Hex.
    rewrite Hex. simpl. rewrite filter_cons. case_decide; simpl; lia.
  - rewrite filter_cons, decide_False by done. simpl.
    specialize (Hu p mid). unfold sqlite.events_of in Hu. lia.
Qed.

(** A first insert, with an event id the log has not seen, adds the row. *)
Lemma insert_or_ignore_fresh (e : sqlite.EmailEvent) (db : sqlite.DB) :
  sqlite.events_of (sqlite.ev_provider e) (sqlite.ev_provider_message_id e) db = [] →
  sqlite.ev_event_id e ∉ sqlite.ev_event_id <$> sqlite.email_received_events db →
  sqlite.events_of (sqlite.ev_provider e) (sqlite.ev_provider_message_id e)
    (sqlite.insert_or_ignore_event e db) = [e].
Proof.
  intros Hkey Hid. unfold sqlite.insert_or_ignore_event.
  destruct (existsb _ _) eqn:Hex.
  - exfalso. apply existsb_exists in Hex as (r & Hin & Hc).
    apply list_elem_of_In in Hin. unfold sqlite.conflicts in Hc.
    apply orb_prop in Hc as [Hc|Hc].
    + apply bool_decide_eq_true in Hc. apply Hid.
      apply list_elem_of_fmap. by exists r.
    + apply andb_prop in Hc as [Hp Hm].
      apply bool_decide_eq_true in Hp, Hm.
      assert (r ∈ sqlite.events_of (sqlite.ev_provider e)
                    (sqlite.ev_provider_message_id e) db) as Hr
        by (apply list_elem_of_filter; done).
      rewrite Hkey in Hr. by apply elem_of_nil in Hr.
  - unfold sqlite.events_of in *. simpl. rewrite filter_app, Hkey. simpl.
    rewrite filter_cons, decide_True by done. done.
Qed.

Section ProcessorFacts.
Context `{GoRuntime}.
Variables userID inboxID : string.

(** A transaction that meets no failure commits the event insert and the
    outbox insert together. *)
Lemma process_committed (e : sync.TxEnv) (meta : sync.MessageMeta) (db : sqlite.DB) :
  sync.tx_okb e = true →
  sync.process userID inboxID e meta db
  = (sqlite.insert_outbox (sync.now_outbox_ts e) (sync.subject_of userID)
       "email.received"
       (sync.event_payload (sync.uuid e) (sync.now_ts e) userID inboxID meta)
       (sync.msgID_of (sync.Provider meta) (sync.MessageID meta))
       (sync.now_next_attempt e)
       (sqlite.insert_or_ignore_event
          (sync.event_row (sync.uuid e) (sync.now_ts e) userID inboxID meta) db),
     None).
Proof.
  unfold sync.tx_okb. rewrite !andb_true_iff, !bool_decide_eq_true.
  intros [[[Hb He] Ho] Hc].
  unfold sync.process, sqlite.AppendEmailReceivedTx.
  by rewrite Hb, He, Ho, Hc.
Qed.

(** Any failure leaves the store as it was. *)
Lemma process_failed (e : sync.TxEnv) (meta : sync.MessageMeta) (db : sqlite.DB) :
  sync.tx_okb e = false →
  (sync.process userID inboxID e meta db).1 = db.
Proof.
  unfold sync.tx_okb, sync.process, sqlite.AppendEmailReceivedTx.
  destruct (sync.begin_err e), (sync.insert_event_err e),
    (sync.insert_outbox_err e), (sync.commit_err e); simpl; done.
Qed.

End ProcessorFacts.

Lemma committed_le (env : nat → sync.TxEnv) (k : nat) : ∀ n,
  (sync.committed env n k ≤ k)%nat.
Proof.
  induction k as [|k IH]; intros n; simpl; [lia|].
  specialize (IH (S n)). destruct (sync.tx_okb (env n)); lia.
Qed.

Lemma committed_all (env : nat → sync.TxEnv) (k : nat) : ∀ n,
  (∀ i, sync.tx_okb (env i) = true) → sync.committed env n k = k.
Proof.
  induction k as [|k IH]; intros n Hok; simpl; [done|].
  rewrite Hok, IH by done. done.
Qed.

Lemma msgID_of_inj (p1 p2 m1 m2 : string) :
  known_provider p1 → known_provider p2 →
  sync.msgID_of p1 m1 = sync.msgID_of p2 m2 → p1 = p2 ∧ m1 = m2.
Proof.
  unfold known_provider, sync.ProviderGoogle, sync.ProviderMicrosoft.
  intros [-> | ->] [-> | ->]; cbn; intros Heq; simplify_eq; done.
Qed.

Lemma events_of_insert_other (e : sqlite.EmailEvent) (db : sqlite.DB) (p mid : string) :
  ¬ (sqlite.ev_provider e = p ∧ sqlite.ev_provider_message_id e = mid) →
  sqlite.events_of p mid (sqlite.insert_or_ignore_event e db)
  = sqlite.events_of p mid db.
Proof.
  intros Hother. unfold sqlite.insert_or_ignore_event, sqlite.events_of.
  destruct (existsb _ _); [done|]. simpl.
  rewrite filter_app, filter_cons, decide_False by done.
  by rewrite filter_nil, app_nil_r.
Qed.

Lemma insert_or_ignore_ids (e : sqlite.EmailEvent) (db : sqlite.DB) (x : string) :
  x ∈ sqlite.ev_event_id <$> sqlite.email_received_events
        (sqlite.insert_or_ignore_event e db) →
  x ∈ sqlite.ev_event_id <$> sqlite.email_received_events db ∨
  x = sqlite.ev_event_id e.
Proof.
  unfold sqlite.insert_or_ignore_event.
  destruct (existsb _ _); [by left|]. simpl. rewrite fmap_app.
  intros Hin. apply elem_of_app in Hin as [Hin|Hin]; [by left|].
  right. simpl in Hin. by apply list_elem_of_singleton in Hin.
Qed.

Section Duplicates.
Context `{GoRuntime}.
Variables userID inboxID : string.
Variable env : nat → sync.TxEnv.
Variables p mid : string.
Hypothesis Hp : known_provider p.

(** The store after the n-th call of the processor, when it commits. *)
Local Abbreviation committed_db m db n :=
  (sqlite.insert_outbox (sync.now_outbox_ts (env n)) (sync.subject_of userID)
     "email.received"
     (sync.event_payload (sync.uuid (env n)) (sync.now_ts (env n)) userID inboxID m)
     (sync.msgID_of (sync.Provider m) (sync.MessageID m))
     (sync.now_next_attempt (env n))
     (sqlite.insert_or_ignore_event
        (sync.event_row (sync.uuid (env n)) (sync.now_ts (env n)) userID inboxID m)
        db)).

Lemma feed_cons_committed (m : sync.MessageMeta) (ms : list sync.MessageMeta)
    (db : sqlite.DB) (n : nat) :
  sync.tx_okb (env n) = true →
  sync.feed userID inboxID env (m :: ms) (db, n)
  = sync.feed userID inboxID env ms (committed_db m db n, S n).
Proof.
  intros Hok. cbn [sync.feed]. unfold sync.createProcessor.
  by rewrite process_committed.
Qed.

Lemma feed_cons_failed (m : sync.MessageMeta) (ms : list sync.MessageMeta)
    (db : sqlite.DB) (n : nat) :
  sync.tx_okb (env n) = false →
  sync.feed userID inboxID env (m :: ms) (db, n)
  = sync.feed userID inboxID env ms (db, S n).
Proof.
  intros Hok. cbn [sync.feed]. unfold sync.createProcessor.
  pose proof (process_failed userID inboxID (env n) m db Hok) as Hsame.
  destruct (sync.process userID inboxID (env n) m db) as [db1 err].
  simpl in Hsame. by subst db1.
Qed.

Lemma committed_db_unique (m : sync.MessageMeta) (db : sqlite.DB) (n : nat) :
  unique_events db → unique_events (committed_db m db n).
Proof.
  intros Hu p' mid'.
  apply (insert_or_ignore_unique
           (sync.event_row (sync.uuid (env n)) (sync.now_ts (env n)) userID inboxID m)
           db Hu p' mid').
Qed.

(** A committed call leaves the rows of (p, mid) alone once there is one. *)
Lemma committed_db_present (m : sync.MessageMeta) (db : sqlite.DB) (n : nat) :
  sqlite.events_of p mid db ≠ [] →
  sqlite.events_of p mid (committed_db m db n) = sqlite.events_of p mid db.
Proof.
  intros Hpresent.
  change (sqlite.events_of p mid (committed_db m db n))
    with (sqlite.events_of p mid
            (sqlite.insert_or_ignore_event
               (sync.event_row (sync.uuid (env n)) (sync.now_ts (env n))
                  userID inboxID m) db)).
  destruct (decide (sync.Provider m = p ∧ sync.MessageID m = mid)) as [[Hm1 Hm2]|Hother].
  - rewrite insert_or_ignore_present; [done|]. simpl. by rewrite Hm1, Hm2.
  - by apply events_of_insert_other.
Qed.

Lemma feed_duplicates (ms : list sync.MessageMeta) : ∀ db n,
  Forall (λ m, known_provider (sync.Provider m)) ms →
  unique_events db →
  let db' := (sync.feed userID inboxID env ms (db, n)).1 in
  unique_events db' ∧
  (sqlite.events_of p mid db ≠ [] →
   sqlite.events_of p mid db' = sqlite.events_of p mid db) ∧
  ∃ new, sqlite.outbox db' = sqlite.outbox db ++ new ∧
         length new = sync.committed env n (length ms) ∧
         (length (outbox_of (sync.msgID_of p mid) new)
          ≤ length (duplicates_of p mid ms))%nat.
Proof.
  induction ms as [|m ms IH]; intros db n Hknown Hu db'; subst db'.
  - simpl. split; [done|]. split; [done|]. exists []. by rewrite app_nil_r.
  - apply Forall_cons in Hknown as [Hm Hknown].
    destruct (sync.tx_okb (env n)) eqn:Hok.
    + rewrite feed_cons_committed by done.
      destruct (IH (committed_db m db n) (S n) Hknown (committed_db_unique m db n Hu))
        as (Hu' & Hkeep & new & Hout & Hlen & Hcount).
      split; [done|]. split.
      * intros Hpresent. rewrite Hkeep; rewrite committed_db_present; done.
      * eexists (_ :: new). split; [|split].
        -- rewrite Hout. simpl. rewrite insert_or_ignore_outbox, <- app_assoc. done.
        -- simpl. by rewrite Hok, Hlen.
        -- unfold outbox_of, duplicates_of in *. rewrite !filter_cons. simpl.
           destruct (decide (sync.msgID_of (sync.Provider m) (sync.MessageID m)
                             = sync.msgID_of p mid)) as [Heq|Hneq].
           ++ apply msgID_of_inj in Heq as [Hm1 Hm2]; [|done|done].
              rewrite decide_True by done. simpl. lia.
           ++ case_decide; simpl; lia.
    + rewrite feed_cons_failed by done.
      destruct (IH db (S n) Hknown Hu) as (Hu' & Hkeep & new & Hout & Hlen & Hcount).
      split; [done|]. split; [done|]. exists new.
      split; [done|]. split; [simpl; by rewrite Hok|].
      unfold duplicates_of in *. rewrite filter_cons. case_decide; simpl; lia.
Qed.

Variable bound : nat.
Hypothesis Hok : ∀ j, (j < bound)%nat → sync.tx_okb (env j) = true.
Hypothesis Hinj : ∀ i j, (i < bound)%nat → (j < bound)%nat →
  sync.uuid (env i) = sync.uuid (env j) → i = j.

Lemma feed_duplicates_exact (ms : list sync.MessageMeta) : ∀ db n,
  (n + length ms ≤ bound)%nat →
  Forall (λ m, known_provider (sync.Provider m)) ms →
  unique_events db →
  (∀ j, (n ≤ j < bound)%nat →
        sync.uuid (env j) ∉ sqlite.ev_event_id <$> sqlite.email_received_events db) →
  let db' := (sync.feed userID inboxID env ms (db, n)).1 in
  ∃ new, sqlite.outbox db' = sqlite.outbox db ++ new ∧
         length (outbox_of (sync.msgID_of p mid) new)
         = length (duplicates_of p mid ms) ∧
         (sqlite.events_of p mid db ≠ [] ∨ (1 ≤ length (duplicates_of p mid ms))%nat →
          length (sqlite.events_of p mid db') = 1%nat).
Proof.
  induction ms as [|m ms IH]; intros db n Hbound Hknown Hu Hfresh db'; subst db'.
  - simpl. exists []. rewrite app_nil_r. split; [done|]. split; [done|].
    intros [Hpresent|Hk]; [|simpl in Hk; lia].
    pose proof (Hu p mid) as Hle.
    destruct (sqlite.events_of p mid db); simpl in *; [done|lia].
  - apply Forall_cons in Hknown as [Hm Hknown]. simpl in Hbound.
    rewrite feed_cons_committed by (apply Hok; lia).
    pose (ev := sync.event_row (sync.uuid (env n)) (sync.now_ts (env n))
                  userID inboxID m).
    destruct (IH (committed_db m db n) (S n) ltac:(lia) Hknown
                (committed_db_unique m db n Hu))
      as (new & Hout & Hcount & Hone).
    { intros j Hj Hin.
      apply (insert_or_ignore_ids ev db) in Hin as [Hin|Heq].
      - apply (Hfresh j); [lia|done].
      - simpl in Heq. apply Hinj in Heq; lia. }
    eexists (_ :: new). split; [|split].
    + rewrite Hout. simpl. rewrite insert_or_ignore_outbox, <- app_assoc. done.
    + unfold outbox_of, duplicates_of in *. rewrite !filter_cons. simpl.
      destruct (decide (sync.msgID_of (sync.Provider m) (sync.MessageID m)
                        = sync.msgID_of p mid)) as [Heq|Hneq].
      * apply msgID_of_inj in Heq as [Hm1 Hm2]; [|done|done].
        rewrite decide_True by done. simpl. by rewrite Hcount.
      * rewrite decide_False; [done|]. intros [Hm1 Hm2]. apply Hneq.
        by rewrite Hm1, Hm2.
    + intros Hcase. apply Hone.
      destruct (decide (sync.Provider m = p ∧ sync.MessageID m = mid))
        as [[Hm1 Hm2]|Hother].
      * left.
        change (sqlite.events_of p mid (committed_db m db n))
          with (sqlite.events_of p mid (sqlite.insert_or_ignore_event ev db)).
        destruct (sqlite.events_of p mid db) as [|r rs] eqn:E.
        -- rewrite <- Hm1, <- Hm2.
           change (sync.Provider m) with (sqlite.ev_provider ev).
           change (sync.MessageID m) with (sqlite.ev_provider_message_id ev).
           rewrite insert_or_ignore_fresh; [done| |].
           ++ simpl. by rewrite Hm1, Hm2.
           ++ apply (Hfresh n). lia.
        -- rewrite insert_or_ignore_present; [by rewrite E|].
           simpl. rewrite Hm1, Hm2. by rewrite E.
      * unfold duplicates_of in Hcase. rewrite filter_cons, decide_False in Hcase by done.
        destruct Hcase as [Hpresent|Hk]; [|by right].
        left. by rewrite committed_db_present.
Qed.

End Duplicates.

(** C1. Feed the processor any stream of records of the two providers,
    k of them being the provider message (p, mid).  The event log never
    holds more than one row for the message, and once it holds one,
    further attempts leave that row as it is; every transaction that
    commits adds one outbox row, collision or not, so the outbox gains at
    most k rows with the message's msg_id.  When no transaction fails and
    the uuids are fresh, the log holds exactly one row for the message
    (given k ≥ 1) and the outbox gains exactly k rows with its msg_id. *)
Theorem C1_duplicates_one_event_row `{GoRuntime} (userID inboxID : string)
    (env : nat → sync.TxEnv) (p mid : string) (ms : list sync.MessageMeta)
    (db : sqlite.DB) (n : nat) :
  known_provider p →
  Forall (λ m, known_provider (sync.Provider m)) ms →
  unique_events db →
  let db' := (sync.feed userID inboxID env ms (db, n)).1 in
  let k := length (duplicates_of p mid ms) in
  (length (sqlite.events_of p mid db') ≤ 1)%nat ∧
  (sqlite.events_of p mid db ≠ [] →
   sqlite.events_of p mid db' = sqlite.events_of p mid db) ∧
  (∃ new, sqlite.outbox db' = sqlite.outbox db ++ new ∧
          length new = sync.committed env n (length ms) ∧
          (length (outbox_of (sync.msgID_of p mid) new) ≤ k)%nat) ∧
  ((∀ j, (j < n + length ms)%nat → sync.tx_okb (env j) = true) →
   (∀ i j, (i < n + length ms)%nat → (j < n + length ms)%nat →
           sync.uuid (env i) = sync.uuid (env j) → i = j) →
   (∀ j, (n ≤ j < n + length ms)%nat →
         sync.uuid (env j) ∉ sqlite.ev_event_id <$> sqlite.email_received_events db) →
   ∃ new, sqlite.outbox db' = sqlite.outbox db ++ new ∧
          length (outbox_of (sync.msgID_of p mid) new) = k ∧
          ((1 ≤ k)%nat → length (sqlite.events_of p mid db') = 1%nat)).
Proof.
  intros Hp Hknown Hu db' k.
  destruct (feed_duplicates userID inboxID env p mid Hp ms db n Hknown Hu)
    as (Hu' & Hkeep & new & Hout & Hlen & Hcount).
  split; [apply Hu'|]. split; [done|]. split; [by exists new|].
  intros Hok Hinj Hfresh.
  destruct (feed_duplicates_exact userID inboxID env p mid Hp (n + length ms)
              Hok Hinj ms db n ltac:(lia) Hknown Hu Hfresh)
    as (new' & Hout' & Hcount' & Hone).
  exists new'. split; [done|]. split; [done|].
  intros Hk. apply Hone. by right.
Qed.

Lemma unique_events_empty : unique_events sqlite.empty_db.
Proof. intros p mid. simpl. lia. Qed.

Lemma healthy_tx_uuid_inj (i j : nat) :
  (N.of_nat i ≤ Go.maxUint64)%N → (N.of_nat j ≤ Go.maxUint64)%N →
  sync.uuid (healthy_tx i) = sync.uuid (healthy_tx j) → i = j.
Proof.
  intros Hi Hj Heq. unfold healthy_tx in Heq. simpl in Heq.
  assert (Go.FormatUint (N.of_nat i) = Go.FormatUint (N.of_nat j)) as Hfmt
    by (by simplify_eq).
  apply (f_equal Go.ParseUint) in Hfmt.
  rewrite !ParseUint_FormatUint in Hfmt by done.
  injection Hfmt as Hfmt. lia.
Qed.

Lemma C1_witness :
  let ms := [demo_meta "m1"; demo_meta "m2"; demo_meta "m1"; demo_meta "m1"] in
  let db' := (sync.feed (H := plain_runtime) "u1" "primary" healthy_tx ms
                (sqlite.empty_db, O)).1 in
  length (sqlite.events_of "GOOGLE" "m1" db') = 1%nat ∧
  length (outbox_of "email.received|GOOGLE|m1" (sqlite.outbox db')) = 3%nat.
Proof.
  intros ms db'.
  destruct (C1_duplicates_one_event_row (H := plain_runtime) "u1" "primary"
              healthy_tx "GOOGLE" "m1" ms sqlite.empty_db O
              ltac:(by left) ltac:(repeat constructor; by left)
              unique_events_empty) as (_ & _ & _ & Hexact).
  destruct Hexact as (new & Hout & Hcount & Hone).
  - by intros j _.
  - intros i j Hi Hj. apply healthy_tx_uuid_inj; unfold Go.maxUint64; simpl in *; lia.
  - intros j _. simpl. apply not_elem_of_nil.
  - fold db' in Hout, Hone. split; [by apply Hone; simpl; lia|].
    rewrite Hout. exact Hcount.
Defined.

(* --------------------------------------------------------------------- *)
(* The event processor: which failures reach the adapter.                *)
(* --------------------------------------------------------------------- *)

Section ProcessorErrors.
Context `{GoRuntime}.
Variables userID inboxID : string.

Lemma process_begin_failure (e : sync.TxEnv) (meta : sync.MessageMeta)
    (db : sqlite.DB) (x : string) :
  sync.begin_err e = Some x →
  sync.process userID inboxID e meta db
  = (db, Some ("failed to begin transaction: " +:+ x)).
Proof. intros Hb. unfold sync.process. by rewrite Hb. Qed.

Lemma process_commit_failure (e : sync.TxEnv) (meta : sync.MessageMeta)
    (db : sqlite.DB) (x : string) :
  sync.begin_err e = None → sync.insert_event_err e = None →
  sync.insert_outbox_err e = None → sync.commit_err e = Some x →
  sync.process userID inboxID e meta db
  = (db, Some ("failed to commit transaction: " +:+ x)).
Proof.
  intros Hb He Ho Hc. unfold sync.process, sqlite.AppendEmailReceivedTx.
  by rewrite Hb, He, Ho, Hc.
Qed.

End ProcessorErrors.

(** C4. When BeginTx succeeds and one of the two INSERTs of
    AppendEmailReceivedTx fails, the processor rolls back and returns nil:
    the store is unchanged and the adapter's callback sees no error. *)
Theorem C4_insert_failure_returns_nil `{GoRuntime} (userID inboxID : string)
    (e : sync.TxEnv) (meta : sync.MessageMeta) (db : sqlite.DB) (x : string) :
  sync.begin_err e = None →
  sync.insert_event_err e = Some x ∨
    (sync.insert_event_err e = None ∧ sync.insert_outbox_err e = Some x) →
  sync.process userID inboxID e meta db = (db, None).
Proof.
  intros Hb Hins. unfold sync.process, sqlite.AppendEmailReceivedTx.
  rewrite Hb. by destruct Hins as [-> | [-> ->]].
Qed.

Lemma C4_witness :
  sync.process (H := plain_runtime) "u1" "primary" (broken_outbox_tx 0)
    (demo_meta "m1") sqlite.empty_db = (sqlite.empty_db, None).
Proof.
  apply (C4_insert_failure_returns_nil (H := plain_runtime) "u1" "primary"
           (broken_outbox_tx 0) (demo_meta "m1") sqlite.empty_db
           "database or disk is full").
  - reflexivity.
  - right. split; reflexivity.
Defined.

(* --------------------------------------------------------------------- *)
(* The adapters reach the store through the sink only, and the sink      *)
(* leaves the sync-state table alone.                                    *)
(* --------------------------------------------------------------------- *)

Lemma Pages_preserves {A St : Type} (P : St → Prop)
    (f : list A → St → St * option string) (l : Listing A) :
  (∀ items st, P st → P (f items st).1) →
  ∀ st, P st → P (gmail.Pages l f st).1.
Proof.
  intros Hf. induction l as [e|items|items next IH]; intros st Hst; simpl.
  - done.
  - by apply Hf.
  - pose proof (Hf items st Hst) as H1.
    destruct (f items st) as [st1 [e|]]; simpl in *; [done|]. by apply IH.
Qed.

Section GmailSinkOnly.
Context `{GoRuntime} {St : Type}.
Variable P : St → Prop.
Variable svc : gmail.Service.
Variable user : string.
Variable fn : sync.Sink St.
Hypothesis Hfn : ∀ m s, P s → P (fn m s).1.

Lemma backfillPage_preserves (ms : list string) : ∀ st,
  P st → P (gmail.backfillPage svc user fn ms st).1.
Proof.
  induction ms as [|m ms IH]; intros st Hst; simpl; [done|].
  destruct (gmail.Messages_Get svc user m) as [meta|e]; [|done].
  pose proof (Hfn (gmail.normalize meta user) st Hst) as H1.
  destruct (fn _ st) as [st1 [e|]]; simpl in *; [done|]. by apply IH.
Qed.

Lemma gmail_backfill_preserves (cp : sync.Checkpoint) (st : St) :
  P st → P (gmail.InitialBackfill svc user fn cp st).1.
Proof.
  intros Hst. unfold gmail.InitialBackfill.
  pose proof (Pages_preserves P (gmail.backfillPage svc user fn)
                (gmail.Messages_List svc user) backfillPage_preserves st Hst) as H1.
  destruct (gmail.Pages _ _ st) as [st1 [e|]]; simpl in *; [done|].
  destruct (gmail.GetProfile svc user) as [h|e]; [|done].
  by case_bool_decide.
Qed.

Lemma addedLoop_preserves (recs : list string) : ∀ w,
  P (gmail.sink_state w) →
  P (gmail.sink_state (gmail.addedLoop svc user fn recs w).1).
Proof.
  induction recs as [|msgID recs IH]; intros w Hw; simpl; [done|].
  case_bool_decide; [by apply IH|].
  destruct (gmail.Messages_Get svc user msgID) as [meta|e]; [|done].
  simpl. pose proof (Hfn (gmail.normalize meta user) _ Hw) as H1.
  destruct (fn _ _) as [st1 [e|]]; simpl in *; [done|]. by apply IH.
Qed.

Lemma historyPage_preserves (hs : list gmail.History) : ∀ w,
  P (gmail.sink_state w) →
  P (gmail.sink_state (gmail.historyPage svc user fn hs w).1).
Proof.
  induction hs as [|h hs IH]; intros w Hw; simpl; [done|].
  match goal with |- context [gmail.addedLoop ?a ?b ?c ?d ?e] =>
    pose proof (addedLoop_preserves d e Hw) as H1;
    destruct (gmail.addedLoop a b c d e) as [w2 [x|]] end;
    simpl in *; [done|]. by apply IH.
Qed.

Lemma gmail_incremental_preserves (cp : sync.Checkpoint) (st : St) :
  P st → P (gmail.IncrementalSync svc user fn cp st).1.
Proof.
  intros Hst. unfold gmail.IncrementalSync.
  case_bool_decide; [by apply gmail_backfill_preserves|].
  destruct (Go.ParseUint _) as [e|start]; [done|].
  unfold gmail.historyWalk.
  match goal with |- context [gmail.Pages ?l ?f ?w0] =>
    pose proof (Pages_preserves (λ w, P (gmail.sink_state w)) f l
                  historyPage_preserves w0 Hst) as H1;
    destruct (gmail.Pages l f w0) as [w [x|]] end; simpl in *; [|done].
  destruct (_ || _); [|done]. by apply gmail_backfill_preserves.
Qed.

End GmailSinkOnly.

Lemma gmail_sink_only `{GoRuntime} : sink_only gmail.Adapter.
Proof.
  intros St P fn remote user cp st Hfn Hst. split; simpl.
  - by apply gmail_backfill_preserves.
  - by apply gmail_incremental_preserves.
Qed.

Section OutlookSinkOnly.
Context {St : Type}.
Variable P : St → Prop.
Variable client : outlook.Client.
Variable user : string.
Variable fn : sync.Sink St.
Hypothesis Hfn : ∀ m s, P s → P (fn m s).1.

Lemma deliver_preserves (msgs : list outlook.Message) : ∀ st,
  P st → P (outlook.deliver user fn msgs st).1.
Proof.
  induction msgs as [|m msgs IH]; intros st Hst; simpl; [done|].
  pose proof (Hfn (outlook.normalizeOutlook m user) st Hst) as H1.
  destruct (fn _ st) as [st1 [e|]]; simpl in *; [done|]. by apply IH.
Qed.

Lemma outlook_backfill_preserves (cp : sync.Checkpoint) (st : St) :
  P st → P (outlook.InitialBackfill client user fn cp st).1.
Proof.
  intros Hst. unfold outlook.InitialBackfill.
  destruct (outlook.first_page _) as [messages|e]; [|done].
  pose proof (deliver_preserves messages st Hst) as H1.
  destruct (outlook.deliver user fn messages st) as [st1 [e|]]; simpl in *; [done|].
  by destruct (outlook.last_id messages).
Qed.

Lemma outlook_incremental_preserves (cp : sync.Checkpoint) (st : St) :
  P st → P (outlook.IncrementalSync client user fn cp st).1.
Proof.
  intros Hst. unfold outlook.IncrementalSync.
  case_bool_decide; [by apply outlook_backfill_preserves|].
  destruct (outlook.first_page _) as [messages|e]; [|done].
  pose proof (deliver_preserves messages st Hst) as H1.
  destruct (outlook.deliver user fn messages st) as [st1 [e|]]; simpl in *; [done|].
  by destruct (outlook.last_id messages).
Qed.

End OutlookSinkOnly.

Lemma outlook_sink_only : sink_only outlook.Adapter.
Proof.
  intros St P fn remote user cp st Hfn Hst. split; simpl.
  - by apply outlook_backfill_preserves.
  - by apply outlook_incremental_preserves.
Qed.

Lemma process_sync_state `{GoRuntime} (userID inboxID : string) (e : sync.TxEnv)
    (meta : sync.MessageMeta) (db : sqlite.DB) :
  sqlite.provider_sync_state (sync.process userID inboxID e meta db).1
  = sqlite.provider_sync_state db.
Proof.
  unfold sync.process, sqlite.AppendEmailReceivedTx, sqlite.insert_outbox,
    sqlite.insert_or_ignore_event.
  destruct (sync.begin_err e), (sync.insert_event_err e),
    (sync.insert_outbox_err e), (sync.commit_err e); simpl; try done;
    by destruct (existsb _ _).
Qed.

(* --------------------------------------------------------------------- *)
(* The sync-state row under the store's statements.                      *)
(* --------------------------------------------------------------------- *)

Lemma upsert_stored (name inboxID cursor status : string) (t1 t2 : Z) (db : sqlite.DB) :
  sqlite.stored_cursor name (sqlite.upsert_sync_state name inboxID cursor t1 status t2 db)
    = Some cursor ∧
  sqlite.stored_status name (sqlite.upsert_sync_state name inboxID cursor t1 status t2 db)
    = Some status.
Proof.
  unfold sqlite.stored_cursor, sqlite.stored_status, sqlite.upsert_sync_state.
  simpl. rewrite lookup_insert_eq. simpl.
  by destruct (sqlite.provider_sync_state db !! name).
Qed.

Lemma load_nonempty_stored (name cursor : string) (q : option string) (db : sqlite.DB) :
  sqlite.LoadCheckpoint q name db = (cursor, None) → cursor ≠ "" →
  sqlite.stored_cursor name db = Some cursor.
Proof.
  unfold sqlite.LoadCheckpoint, sqlite.stored_cursor.
  destruct q; [discriminate|].
  destruct (sqlite.provider_sync_state db !! name) as [row|]; simpl.
  - destruct (sqlite.ss_cursor row); simpl; congruence.
  - congruence.
Qed.

Lemma load_of_sync_state (name : string) (q : option string) (db db' : sqlite.DB) :
  sqlite.provider_sync_state db' = sqlite.provider_sync_state db →
  sqlite.LoadCheckpoint q name db' = sqlite.LoadCheckpoint q name db.
Proof. unfold sqlite.LoadCheckpoint. by intros ->. Qed.

Lemma update_status_stored (name msg : string) (t : Z) (db : sqlite.DB) (c : string) :
  sqlite.stored_cursor name db = Some c →
  let db' := (sqlite.UpdateSyncStatus None t name "ERROR" msg db).1 in
  sqlite.stored_cursor name db' = Some c ∧
  sqlite.stored_status name db' = Some "ERROR" ∧
  sqlite.stored_error name db' = Some msg ∧
  ∀ q, sqlite.LoadCheckpoint q name db' = sqlite.LoadCheckpoint q name db.
Proof.
  unfold sqlite.stored_cursor, sqlite.stored_status, sqlite.stored_error,
    sqlite.LoadCheckpoint. simpl.
  rewrite lookup_alter_eq.
  destruct (sqlite.provider_sync_state db !! name) as [row|]; simpl; [|done].
  intros ->. repeat split; try done.
Qed.

Lemma update_status_cursor (x : option string) (name status msg : string) (t : Z)
    (db : sqlite.DB) :
  sqlite.stored_cursor name (sqlite.UpdateSyncStatus x t name status msg db).1
  = sqlite.stored_cursor name db.
Proof.
  unfold sqlite.stored_cursor, sqlite.UpdateSyncStatus.
  destruct x; simpl; [done|]. rewrite lookup_alter_eq.
  by destruct (sqlite.provider_sync_state db !! name).
Qed.

(* --------------------------------------------------------------------- *)
(* The sync loop.                                                        *)
(* --------------------------------------------------------------------- *)

Section RunnerFacts.
Context `{GoRuntime}.
Variable r : sync.Runner.
Variables userID inboxID : string.

Local Abbreviation R := (sync.Remote (sync.r_Provider r)).
Local Abbreviation name := (sync.r_ProviderName r).
Local Abbreviation proc := (sync.createProcessor userID inboxID).

Lemma incremental_keeps_sync_state (e : sync.PassEnv R) (cp : sync.Checkpoint)
    (db : sqlite.DB) (n : nat) :
  sink_only (sync.r_Provider r) →
  sqlite.provider_sync_state
    (sync.IncrementalSync (sync.r_Provider r) (sync.remote e) "me" cp
       (proc (sync.tx_env e)) (db, n)).1.1
  = sqlite.provider_sync_state db.
Proof.
  intros Hr.
  apply (Hr _ (λ s, sqlite.provider_sync_state s.1 = sqlite.provider_sync_state db)
           (proc (sync.tx_env e)) (sync.remote e) "me" cp (db, n)); [|done].
  intros m [db1 k] Hs. simpl in Hs. unfold sync.createProcessor.
  pose proof (process_sync_state userID inboxID (sync.tx_env e k) m db1) as Hp.
  destruct (sync.process _ _ _ _ _) as [db2 err]. simpl in *. congruence.
Qed.

Lemma backfill_keeps_sync_state (e : sync.PassEnv R) (cp : sync.Checkpoint)
    (db : sqlite.DB) (n : nat) :
  sink_only (sync.r_Provider r) →
  sqlite.provider_sync_state
    (sync.InitialBackfill (sync.r_Provider r) (sync.remote e) "me" cp
       (proc (sync.tx_env e)) (db, n)).1.1
  = sqlite.provider_sync_state db.
Proof.
  intros Hr.
  apply (Hr _ (λ s, sqlite.provider_sync_state s.1 = sqlite.provider_sync_state db)
           (proc (sync.tx_env e)) (sync.remote e) "me" cp (db, n)); [|done].
  intros m [db1 k] Hs. simpl in Hs. unfold sync.createProcessor.
  pose proof (process_sync_state userID inboxID (sync.tx_env e k) m db1) as Hp.
  destruct (sync.process _ _ _ _ _) as [db2 err]. simpl in *. congruence.
Qed.

(** A steady-state tick whose incremental call succeeds. *)
Lemma tick_success (e : sync.PassEnv R) (db : sqlite.DB) (cursor : string)
    (st : sqlite.DB * nat) (ncp : sync.Checkpoint) :
  sqlite.LoadCheckpoint (sync.load_err e) name db = (cursor, None) →
  cursor ≠ "" →
  sync.IncrementalSync (sync.r_Provider r) (sync.remote e) "me"
    {| sync.Cursor := cursor |} (proc (sync.tx_env e)) (db, O)
    = (st, Ok (Some ncp)) →
  sync.tick r userID inboxID e db
  = (if bool_decide (sync.Cursor ncp ≠ cursor)
     then (sqlite.SaveCheckpoint (sync.save_err e) (sync.now_end e) (sync.now_end e)
             name inboxID (sync.Cursor ncp) "HOOKED" st.1).1
     else st.1,
     [sync.CallIncremental {| sync.Cursor := cursor |}]).
Proof.
  intros Hload Hne Hinc. unfold sync.tick. rewrite Hload. simpl.
  rewrite bool_decide_false by done. rewrite Hinc. simpl.
  by case_bool_decide.
Qed.

(** A steady-state tick whose incremental call fails. *)
Lemma tick_error (e : sync.PassEnv R) (db : sqlite.DB) (cursor : string)
    (st : sqlite.DB * nat) (msg : string) :
  sqlite.LoadCheckpoint (sync.load_err e) name db = (cursor, None) →
  cursor ≠ "" →
  sync.IncrementalSync (sync.r_Provider r) (sync.remote e) "me"
    {| sync.Cursor := cursor |} (proc (sync.tx_env e)) (db, O)
    = (st, Err msg) →
  sync.tick r userID inboxID e db
  = ((sqlite.UpdateSyncStatus (sync.status_err e) (sync.now_end e) name
        "ERROR" msg st.1).1,
     [sync.CallIncremental {| sync.Cursor := cursor |}]).
Proof.
  intros Hload Hne Hinc. unfold sync.tick. rewrite Hload. simpl.
  rewrite bool_decide_false by done. by rewrite Hinc.
Qed.

(** A first pass that finds a cursor and whose incremental call succeeds. *)
Lemma firstPass_incremental_success (e : sync.PassEnv R) (db : sqlite.DB)
    (cursor : string) (err : option string) (st : sqlite.DB * nat)
    (ncp : sync.Checkpoint) :
  sqlite.LoadCheckpoint (sync.load_err e) name db = (cursor, err) →
  cursor ≠ "" →
  sync.IncrementalSync (sync.r_Provider r) (sync.remote e) "me"
    {| sync.Cursor := cursor |} (proc (sync.tx_env e))
    (syncing_db r inboxID e cursor db, O) = (st, Ok (Some ncp)) →
  sync.firstPass r userID inboxID e db
  = ((sqlite.SaveCheckpoint (sync.save_err e) (sync.now_end e) (sync.now_end e)
        name inboxID (sync.Cursor ncp) "HOOKED" st.1).1,
     [sync.CallIncremental {| sync.Cursor := cursor |}], None).
Proof.
  intros Hload Hne Hinc. unfold sync.firstPass. rewrite Hload. simpl.
  rewrite bool_decide_false by done. unfold syncing_db in Hinc.
  by rewrite Hinc.
Qed.

End RunnerFacts.

(** C2, as the code has it. A steady-state tick whose incremental call
    succeeds upserts (cursor = returned, status = HOOKED) when the
    returned cursor differs from the one loaded (and the store takes the
    write); when the two are equal the tick executes no statement on the
    sync-state table, which stays as it was, status included. *)
Theorem C2_tick_persists_changed_cursor `{GoRuntime} (r : sync.Runner)
    (userID inboxID : string) (e : sync.PassEnv (sync.Remote (sync.r_Provider r)))
    (db : sqlite.DB) (cursor : string) (st : sqlite.DB * nat)
    (ncp : sync.Checkpoint) :
  sink_only (sync.r_Provider r) →
  sqlite.LoadCheckpoint (sync.load_err e) (sync.r_ProviderName r) db = (cursor, None) →
  cursor ≠ "" →
  sync.IncrementalSync (sync.r_Provider r) (sync.remote e) "me"
    {| sync.Cursor := cursor |}
    (sync.createProcessor userID inboxID (sync.tx_env e)) (db, O)
    = (st, Ok (Some ncp)) →
  let db' := (sync.tick r userID inboxID e db).1 in
  (sync.Cursor ncp ≠ cursor → sync.save_err e = None →
   sqlite.stored_cursor (sync.r_ProviderName r) db' = Some (sync.Cursor ncp) ∧
   sqlite.stored_status (sync.r_ProviderName r) db' = Some "HOOKED") ∧
  (sync.Cursor ncp = cursor →
   db' = st.1 ∧
   sqlite.provider_sync_state db' = sqlite.provider_sync_state db).
Proof.
  intros Hr Hload Hne Hinc db'. subst db'.
  rewrite (tick_success r userID inboxID e db cursor st ncp Hload Hne Hinc).
  simpl. split.
  - intros Hchg Hsave. rewrite bool_decide_true by done.
    unfold sqlite.SaveCheckpoint. rewrite Hsave. simpl. apply upsert_stored.
  - intros Hsame. rewrite bool_decide_false by (intros ?; done).
    split; [done|].
    pose proof (incremental_keeps_sync_state r userID inboxID e
                  {| sync.Cursor := cursor |} db O Hr) as Hkeep.
    by rewrite Hinc in Hkeep.
Qed.

Lemma C2_witness :
  let db' := (sync.tick (H := plain_runtime) demo_runner "u1" "primary"
                (calm_env demo_gmail) (db_with "5" "HOOKED" None)).1 in
  sqlite.stored_cursor "GOOGLE" db' = Some "9" ∧
  sqlite.stored_status "GOOGLE" db' = Some "HOOKED".
Proof.
  intros db'.
  destruct (sync.IncrementalSync (sync.r_Provider demo_runner)
              (sync.remote (calm_env demo_gmail)) "me" {| sync.Cursor := "5" |}
              (sync.createProcessor (H := plain_runtime) "u1" "primary"
                 (sync.tx_env (calm_env demo_gmail)))
              (db_with "5" "HOOKED" None, O)) as [st res] eqn:E.
  assert (res = Ok (Some {| sync.Cursor := "9" |})) as ->
    by (vm_compute in E; congruence).
  destruct (C2_tick_persists_changed_cursor (H := plain_runtime) demo_runner
              "u1" "primary" (calm_env demo_gmail) (db_with "5" "HOOKED" None)
              "5" st {| sync.Cursor := "9" |}
              (gmail_sink_only (H := plain_runtime)) ltac:(reflexivity)
              ltac:(done) E) as [Hchanged _].
  exact (Hchanged ltac:(done) ltac:(reflexivity)).
Defined.

(** C2 fails as stated: the incremental call of this tick succeeds and
    returns the cursor that was loaded; the tick writes nothing, and the
    row keeps the ERROR status of an earlier tick instead of HOOKED. *)
Lemma C2_counterexample :
  let db := db_with "9" "ERROR" (Some "boom") in
  (sync.IncrementalSync (sync.r_Provider demo_runner) quiet_gmail "me"
     {| sync.Cursor := "9" |}
     (sync.createProcessor (H := plain_runtime) "u1" "primary" healthy_tx)
     (db, O)).2 = Ok (Some {| sync.Cursor := "9" |}) ∧
  (sync.tick (H := plain_runtime) demo_runner "u1" "primary"
     (calm_env quiet_gmail) db).1 = db ∧
  sqlite.stored_status "GOOGLE"
    (sync.tick (H := plain_runtime) demo_runner "u1" "primary"
       (calm_env quiet_gmail) db).1 ≠ Some "HOOKED".
Proof.
  intros db. split; [|split].
  - vm_compute. reflexivity.
  - vm_compute. reflexivity.
  - vm_compute. discriminate.
Qed.

(** C3, as the code has it. When the incremental call succeeds with an
    empty cursor while the cursor loaded was not empty, the pass is a
    success like any other: the runner upserts (cursor = "", status =
    HOOKED) over the previous cursor, in a steady-state tick and in the
    first pass alike (provided the store takes the write). *)
Theorem C3_empty_cursor_overwrites `{GoRuntime} (r : sync.Runner)
    (userID inboxID : string) (e : sync.PassEnv (sync.Remote (sync.r_Provider r)))
    (db : sqlite.DB) (cursor : string) (st : sqlite.DB * nat) :
  cursor ≠ "" →
  sync.save_err e = None →
  (sqlite.LoadCheckpoint (sync.load_err e) (sync.r_ProviderName r) db = (cursor, None) →
   sync.IncrementalSync (sync.r_Provider r) (sync.remote e) "me"
     {| sync.Cursor := cursor |}
     (sync.createProcessor userID inboxID (sync.tx_env e)) (db, O)
     = (st, Ok (Some {| sync.Cursor := "" |})) →
   let db' := (sync.tick r userID inboxID e db).1 in
   sqlite.stored_cursor (sync.r_ProviderName r) db' = Some "" ∧
   sqlite.stored_status (sync.r_ProviderName r) db' = Some "HOOKED") ∧
  (∀ err,
   sqlite.LoadCheckpoint (sync.load_err e) (sync.r_ProviderName r) db = (cursor, err) →
   sync.IncrementalSync (sync.r_Provider r) (sync.remote e) "me"
     {| sync.Cursor := cursor |}
     (sync.createProcessor userID inboxID (sync.tx_env e))
     (syncing_db r inboxID e cursor db, O)
     = (st, Ok (Some {| sync.Cursor := "" |})) →
   let '(db', _, failure) := sync.firstPass r userID inboxID e db in
   failure = None ∧
   sqlite.stored_cursor (sync.r_ProviderName r) db' = Some "" ∧
   sqlite.stored_status (sync.r_ProviderName r) db' = Some "HOOKED").
Proof.
  intros Hne Hsave. split.
  - intros Hload Hinc db'. subst db'.
    rewrite (tick_success r userID inboxID e db cursor st _ Hload Hne Hinc).
    simpl. rewrite bool_decide_true by (intros ?; done).
    unfold sqlite.SaveCheckpoint. rewrite Hsave. simpl. apply upsert_stored.
  - intros err Hload Hinc.
    rewrite (firstPass_incremental_success r userID inboxID e db cursor err st _
               Hload Hne Hinc).
    split; [done|].
    unfold sqlite.SaveCheckpoint. rewrite Hsave. simpl. apply upsert_stored.
Qed.

Lemma C3_witness :
  let db' := (sync.tick (H := plain_runtime) demo_runner "u1" "primary"
                (calm_env lost_gmail) (db_with "9" "HOOKED" None)).1 in
  sqlite.stored_cursor "GOOGLE" db' = Some "" ∧
  sqlite.stored_status "GOOGLE" db' = Some "HOOKED".
Proof.
  intros db'.
  destruct (sync.IncrementalSync (sync.r_Provider demo_runner)
              (sync.remote (calm_env lost_gmail)) "me" {| sync.Cursor := "9" |}
              (sync.createProcessor (H := plain_runtime) "u1" "primary"
                 (sync.tx_env (calm_env lost_gmail)))
              (db_with "9" "HOOKED" None, O)) as [st res] eqn:E.
  assert (res = Ok (Some {| sync.Cursor := "" |})) as ->
    by (vm_compute in E; congruence).
  destruct (C3_empty_cursor_overwrites (H := plain_runtime) demo_runner
              "u1" "primary" (calm_env lost_gmail) (db_with "9" "HOOKED" None)
              "9" st ltac:(done) ltac:(reflexivity)) as [Htick _].
  exact (Htick ltac:(reflexivity) E).
Defined.

(** C3 fails as stated: the history has expired, the fall-back backfill
    cannot read the profile, and the adapter returns the empty cursor; the
    tick stores it with status HOOKED, and the cursor 9 is gone. *)
Lemma C3_counterexample :
  let db := db_with "9" "HOOKED" None in
  let db' := (sync.tick (H := plain_runtime) demo_runner "u1" "primary"
                (calm_env lost_gmail) db).1 in
  (sync.IncrementalSync (sync.r_Provider demo_runner) lost_gmail "me"
     {| sync.Cursor := "9" |}
     (sync.createProcessor (H := plain_runtime) "u1" "primary" healthy_tx)
     (db, O)).2 = Ok (Some {| sync.Cursor := "" |}) ∧
  sqlite.stored_cursor "GOOGLE" db = Some "9" ∧
  sqlite.stored_cursor "GOOGLE" db' = Some "" ∧
  sqlite.stored_status "GOOGLE" db' = Some "HOOKED" ∧
  sqlite.stored_error "GOOGLE" db' = None.
Proof.
  intros db db'. repeat split; vm_compute; reflexivity.
Qed.

Lemma load_after_update_status (q x : option string) (t : Z)
    (name status msg : string) (db : sqlite.DB) :
  sqlite.LoadCheckpoint q name (sqlite.UpdateSyncStatus x t name status msg db).1
  = sqlite.LoadCheckpoint q name db.
Proof.
  unfold sqlite.LoadCheckpoint, sqlite.UpdateSyncStatus.
  destruct q; [done|]. destruct x; simpl; [done|].
  rewrite lookup_alter_eq.
  by destruct (sqlite.provider_sync_state db !! name).
Qed.

Lemma load_after_save (q x : option string) (t1 t2 : Z)
    (name inboxID c status : string) (db : sqlite.DB) :
  sqlite.LoadCheckpoint None name db = (c, None) →
  sqlite.LoadCheckpoint q name
    (sqlite.SaveCheckpoint x t1 t2 name inboxID c status db).1
  = sqlite.LoadCheckpoint q name db.
Proof.
  unfold sqlite.LoadCheckpoint, sqlite.SaveCheckpoint, sqlite.upsert_sync_state.
  intros Hload. destruct q; [done|]. destruct x; simpl; [done|].
  rewrite lookup_insert_eq.
  destruct (sqlite.provider_sync_state db !! name) as [row|]; simpl in *;
    congruence.
Qed.

Lemma syncLoop_calls_prefix `{GoRuntime} (r : sync.Runner) (userID inboxID : string)
    (events : list (sync.LoopEvent (sync.Remote (sync.r_Provider r)))) :
  ∀ db log, ∃ more,
    sync.calls (sync.syncLoop r userID inboxID events db log) = log ++ more.
Proof.
  induction events as [|ev events IH]; intros db log; simpl.
  - exists []. by rewrite app_nil_r.
  - destruct ev as [|e].
    + exists []. by rewrite app_nil_r.
    + destruct (sync.tick r userID inboxID e db) as [db' cs].
      destruct (IH db' (log ++ cs)) as [more ->].
      exists (cs ++ more). by rewrite app_assoc.
Qed.

(** The first pass, by the cursor LoadCheckpoint hands over. *)
Lemma firstPass_unfold `{GoRuntime} (r : sync.Runner) (userID inboxID : string)
    (e : sync.PassEnv (sync.Remote (sync.r_Provider r))) (db : sqlite.DB)
    (cursor : string) (err : option string) :
  sqlite.LoadCheckpoint (sync.load_err e) (sync.r_ProviderName r) db = (cursor, err) →
  sync.firstPass r userID inboxID e db
  = let '(st, res) := first_call r userID inboxID e cursor
                        (syncing_db r inboxID e cursor db) in
    match res with
    | Err msg =>
        ((sqlite.UpdateSyncStatus (sync.status_err e) (sync.now_end e)
            (sync.r_ProviderName r) "ERROR" msg st.1).1,
         [first_call_name cursor], Some ("sync failed: " +:+ msg))
    | Ok newCP =>
        (match newCP with
         | Some ncp =>
             (sqlite.SaveCheckpoint (sync.save_err e) (sync.now_end e) (sync.now_end e)
                (sync.r_ProviderName r) inboxID (sync.Cursor ncp) "HOOKED" st.1).1
         | None => st.1
         end, [first_call_name cursor], None)
    end.
Proof.
  intros Hload. unfold sync.firstPass, first_call, first_call_name, syncing_db.
  rewrite Hload. simpl.
  destruct (decide (cursor = "")) as [->|Hne].
  - rewrite !bool_decide_true by done.
    destruct (sync.InitialBackfill _ _ _ _ _ _) as [st [[ncp|]|msg]]; done.
  - rewrite !bool_decide_false by done.
    destruct (sync.IncrementalSync _ _ _ _ _ _) as [st [[ncp|]|msg]]; done.
Qed.

Lemma first_call_keeps_sync_state `{GoRuntime} (r : sync.Runner)
    (userID inboxID : string) (e : sync.PassEnv (sync.Remote (sync.r_Provider r)))
    (cursor : string) (db0 : sqlite.DB) :
  sink_only (sync.r_Provider r) →
  sqlite.provider_sync_state (first_call r userID inboxID e cursor db0).1.1
  = sqlite.provider_sync_state db0.
Proof.
  intros Hr. unfold first_call. case_bool_decide.
  - by apply backfill_keeps_sync_state.
  - by apply incremental_keeps_sync_state.
Qed.

Lemma stored_of_sync_state (name : string) (db db' : sqlite.DB) :
  sqlite.provider_sync_state db' = sqlite.provider_sync_state db →
  sqlite.stored_cursor name db' = sqlite.stored_cursor name db.
Proof. unfold sqlite.stored_cursor. by intros ->. Qed.

(** C5, as the code has it. A steady-state tick whose incremental call
    fails records status ERROR with the message (when the UPDATE goes
    through), leaves the cursor as it was, and the loop goes on to the next
    tick, which loads the same cursor.  A first pass whose adapter call
    fails records ERROR the same way and leaves the cursor as it was, and
    RunInbox returns the error: no tick follows. *)
Theorem C5_error_keeps_cursor `{GoRuntime} (r : sync.Runner)
    (userID inboxID : string) (e : sync.PassEnv (sync.Remote (sync.r_Provider r)))
    (db : sqlite.DB) (cursor : string) (st : sqlite.DB * nat) (msg : string) :
  sink_only (sync.r_Provider r) →
  sqlite.LoadCheckpoint (sync.load_err e) (sync.r_ProviderName r) db = (cursor, None) →
  (cursor ≠ "" →
   sync.IncrementalSync (sync.r_Provider r) (sync.remote e) "me"
     {| sync.Cursor := cursor |}
     (sync.createProcessor userID inboxID (sync.tx_env e)) (db, O)
     = (st, Err msg) →
   let db' := (sync.tick r userID inboxID e db).1 in
   sqlite.stored_cursor (sync.r_ProviderName r) db' = Some cursor ∧
   (sync.status_err e = None →
    sqlite.stored_status (sync.r_ProviderName r) db' = Some "ERROR" ∧
    sqlite.stored_error (sync.r_ProviderName r) db' = Some msg) ∧
   (∀ q, sqlite.LoadCheckpoint q (sync.r_ProviderName r) db'
         = sqlite.LoadCheckpoint q (sync.r_ProviderName r) db) ∧
   ∀ rest log,
     sync.syncLoop r userID inboxID (sync.TickFire e :: rest) db log
     = sync.syncLoop r userID inboxID rest db'
         (log ++ [sync.CallIncremental {| sync.Cursor := cursor |}])) ∧
  (first_call r userID inboxID e cursor (syncing_db r inboxID e cursor db)
     = (st, Err msg) →
   ∀ events,
     let run := sync.RunInbox r userID inboxID None None e events db in
     sync.outcome run = sync.Returned (Some ("sync failed: " +:+ msg)) ∧
     sync.calls run = [first_call_name cursor] ∧
     (∀ q, sqlite.LoadCheckpoint q (sync.r_ProviderName r) (sync.final_db run)
           = sqlite.LoadCheckpoint q (sync.r_ProviderName r) db) ∧
     (sync.presave_err e = None → sync.status_err e = None →
      sqlite.stored_status (sync.r_ProviderName r) (sync.final_db run) = Some "ERROR" ∧
      sqlite.stored_error (sync.r_ProviderName r) (sync.final_db run) = Some msg)).
Proof.
  intros Hr Hload. split.
  - intros Hne Hinc db'.
    pose proof (tick_error r userID inboxID e db cursor st msg Hload Hne Hinc) as Htick.
    pose proof (incremental_keeps_sync_state r userID inboxID e
                  {| sync.Cursor := cursor |} db O Hr) as Hkeep.
    rewrite Hinc in Hkeep. simpl in Hkeep.
    pose proof (load_nonempty_stored _ _ _ _ Hload Hne) as Hstored.
    rewrite <- (stored_of_sync_state _ _ _ Hkeep) in Hstored.
    subst db'. rewrite Htick. simpl.
    split; [by rewrite update_status_cursor|]. split; [|split].
    + intros ->.
      by destruct (update_status_stored (sync.r_ProviderName r) msg
                     (sync.now_end e) st.1 cursor Hstored) as (_ & ? & ? & _).
    + intros q. rewrite load_after_update_status. by apply load_of_sync_state.
    + intros rest log. simpl. by rewrite Htick.
  - intros Hcall events run.
    assert (sync.load_err e = None) as Hq.
    { unfold sqlite.LoadCheckpoint in Hload.
      by destruct (sync.load_err e). }
    pose proof (first_call_keeps_sync_state r userID inboxID e cursor
                  (syncing_db r inboxID e cursor db) Hr) as Hkeep.
    rewrite Hcall in Hkeep. simpl in Hkeep.
    subst run. unfold sync.RunInbox.
    rewrite (firstPass_unfold r userID inboxID e db cursor None Hload), Hcall.
    simpl. split; [done|]. split; [done|]. split.
    + intros q. rewrite load_after_update_status.
      rewrite (load_of_sync_state _ _ _ _ Hkeep). unfold syncing_db.
      apply load_after_save. by rewrite Hq in Hload.
    + intros Hpre ->.
      assert (sqlite.stored_cursor (sync.r_ProviderName r) st.1 = Some cursor)
        as Hstored.
      { rewrite (stored_of_sync_state _ _ _ Hkeep). unfold syncing_db.
        unfold sqlite.SaveCheckpoint. rewrite Hpre. simpl. apply upsert_stored. }
      by destruct (update_status_stored (sync.r_ProviderName r) msg
                     (sync.now_end e) st.1 cursor Hstored) as (_ & ? & ? & _).
Qed.

Lemma C5_witness :
  let db := db_with "9" "HOOKED" None in
  let db' := (sync.tick (H := plain_runtime) demo_runner "u1" "primary"
                (calm_env down_gmail) db).1 in
  let run := sync.RunInbox (H := plain_runtime) demo_runner "u1" "primary"
               None None (calm_env down_gmail) [sync.CtxDone] db in
  (sqlite.stored_cursor "GOOGLE" db' = Some "9" ∧
   sqlite.stored_status "GOOGLE" db' = Some "ERROR" ∧
   sqlite.stored_error "GOOGLE" db'
     = Some "failed to sync history: dial tcp: i/o timeout") ∧
  (sync.outcome run
     = sync.Returned (Some "sync failed: failed to sync history: dial tcp: i/o timeout") ∧
   sqlite.stored_status "GOOGLE" (sync.final_db run) = Some "ERROR").
Proof.
  intros db db' run.
  destruct (C5_error_keeps_cursor (H := plain_runtime) demo_runner "u1" "primary"
              (calm_env down_gmail) db "9" (db, O)
              "failed to sync history: dial tcp: i/o timeout"
              (gmail_sink_only (H := plain_runtime)) ltac:(reflexivity))
    as [Htick _].
  destruct (C5_error_keeps_cursor (H := plain_runtime) demo_runner "u1" "primary"
              (calm_env down_gmail) db "9"
              (syncing_db demo_runner "primary" (calm_env down_gmail) "9" db, O)
              "failed to sync history: dial tcp: i/o timeout"
              (gmail_sink_only (H := plain_runtime)) ltac:(reflexivity))
    as [_ Hfirst].
  split.
  - destruct (Htick ltac:(done) ltac:(reflexivity)) as (Hc & Hs & _).
    destruct (Hs ltac:(reflexivity)) as [Hstatus Herror].
    split; [exact Hc|]. split; [exact Hstatus | exact Herror].
  - destruct (Hfirst ltac:(reflexivity) [sync.CtxDone]) as (Ho & _ & _ & Hs).
    destruct (Hs ltac:(reflexivity) ltac:(reflexivity)) as [Hstatus _].
    split; [exact Ho | exact Hstatus].
Defined.

(** C5 fails as stated for the first pass: its incremental call fails,
    RunInbox returns the error, and the two ticks that were due never run:
    the only adapter call of the run is the failed one. *)
Lemma C5_counterexample :
  let run := sync.RunInbox (H := plain_runtime) demo_runner "u1" "primary"
               None None (calm_env down_gmail)
               [sync.TickFire (calm_env demo_gmail);
                sync.TickFire (calm_env demo_gmail)]
               (db_with "9" "HOOKED" None) in
  sync.outcome run
    = sync.Returned (Some "sync failed: failed to sync history: dial tcp: i/o timeout") ∧
  sync.outcome run ≠ sync.Ticking ∧
  sync.calls run = [sync.CallIncremental {| sync.Cursor := "9" |}].
Proof.
  intros run. split; [|split].
  - vm_compute. reflexivity.
  - vm_compute. discriminate.
  - vm_compute. reflexivity.
Qed.

(** C9. When LoadCheckpoint fails at the start of RunInbox, the run does
    not stop there: the runner writes (cursor = "", status = SYNCING),
    over whatever cursor the store holds, calls the adapter's backfill
    with the empty cursor, and goes on from the backfill's result as a
    first pass does. *)
Theorem C9_load_failure_triggers_backfill `{GoRuntime} (r : sync.Runner)
    (userID inboxID : string)
    (first : sync.PassEnv (sync.Remote (sync.r_Provider r)))
    (events : list (sync.LoopEvent (sync.Remote (sync.r_Provider r))))
    (db : sqlite.DB) (x : string) :
  sync.load_err first = Some x →
  let db0 := syncing_db r inboxID first "" db in
  let '(st, res) :=
    sync.InitialBackfill (sync.r_Provider r) (sync.remote first) "me"
      {| sync.Cursor := "" |}
      (sync.createProcessor userID inboxID (sync.tx_env first)) (db0, O) in
  let run := sync.RunInbox r userID inboxID None None first events db in
  (sync.presave_err first = None →
   sqlite.stored_cursor (sync.r_ProviderName r) db0 = Some "" ∧
   sqlite.stored_status (sync.r_ProviderName r) db0 = Some "SYNCING") ∧
  (∃ more, sync.calls run = sync.CallBackfill {| sync.Cursor := "" |} :: more) ∧
  run = match res with
        | Err msg =>
            {| sync.final_db :=
                 (sqlite.UpdateSyncStatus (sync.status_err first) (sync.now_end first)
                    (sync.r_ProviderName r) "ERROR" msg st.1).1;
               sync.calls := [sync.CallBackfill {| sync.Cursor := "" |}];
               sync.outcome := sync.Returned (Some ("sync failed: " +:+ msg)) |}
        | Ok newCP =>
            sync.syncLoop r userID inboxID events
              match newCP with
              | Some ncp =>
                  (sqlite.SaveCheckpoint (sync.save_err first) (sync.now_end first)
                     (sync.now_end first) (sync.r_ProviderName r) inboxID
                     (sync.Cursor ncp) "HOOKED" st.1).1
              | None => st.1
              end
              [sync.CallBackfill {| sync.Cursor := "" |}]
        end.
Proof.
  intros Hload db0.
  destruct (sync.InitialBackfill _ _ _ _ _ _) as [st res] eqn:Eback.
  intros run.
  assert (sqlite.LoadCheckpoint (sync.load_err first) (sync.r_ProviderName r) db
          = ("", Some ("failed to load checkpoint: " +:+ x))) as Hl
    by (unfold sqlite.LoadCheckpoint; by rewrite Hload).
  assert (run = match res with
        | Err msg =>
            {| sync.final_db :=
                 (sqlite.UpdateSyncStatus (sync.status_err first) (sync.now_end first)
                    (sync.r_ProviderName r) "ERROR" msg st.1).1;
               sync.calls := [sync.CallBackfill {| sync.Cursor := "" |}];
               sync.outcome := sync.Returned (Some ("sync failed: " +:+ msg)) |}
        | Ok newCP =>
            sync.syncLoop r userID inboxID events
              match newCP with
              | Some ncp =>
                  (sqlite.SaveCheckpoint (sync.save_err first) (sync.now_end first)
                     (sync.now_end first) (sync.r_ProviderName r) inboxID
                     (sync.Cursor ncp) "HOOKED" st.1).1
              | None => st.1
              end
              [sync.CallBackfill {| sync.Cursor := "" |}]
        end) as Hrun.
  { subst run. unfold sync.RunInbox.
    rewrite (firstPass_unfold r userID inboxID first db "" _ Hl).
    unfold first_call. rewrite bool_decide_true by done.
    fold db0. rewrite Eback.
    destruct res as [[ncp|]|msg]; done. }
  split; [|split; [|exact Hrun]].
  - intros Hpre. subst db0. unfold syncing_db, sqlite.SaveCheckpoint.
    rewrite Hpre. simpl. apply upsert_stored.
  - rewrite Hrun. destruct res as [newCP|msg].
    + destruct (syncLoop_calls_prefix r userID inboxID events
                  match newCP with
                  | Some ncp =>
                      (sqlite.SaveCheckpoint (sync.save_err first) (sync.now_end first)
                         (sync.now_end first) (sync.r_ProviderName r) inboxID
                         (sync.Cursor ncp) "HOOKED" st.1).1
                  | None => st.1
                  end
                  [sync.CallBackfill {| sync.Cursor := "" |}]) as [more ->].
      by exists more.
    + by exists [].
Qed.

Lemma C9_witness :
  let run := sync.RunInbox (H := plain_runtime) demo_runner "u1" "primary"
               None None (unreadable_env demo_gmail) [sync.CtxDone]
               (db_with "5" "HOOKED" None) in
  ∃ more, sync.calls run = sync.CallBackfill {| sync.Cursor := "" |} :: more.
Proof.
  intros run.
  pose proof (C9_load_failure_triggers_backfill (H := plain_runtime) demo_runner
                "u1" "primary" (unreadable_env demo_gmail) [sync.CtxDone]
                (db_with "5" "HOOKED" None) "database is locked"
                ltac:(reflexivity)) as Hw.
  cbv zeta in Hw.
  destruct (sync.InitialBackfill _ _ _ _ _ _) as [st res].
  destruct Hw as (_ & Hcalls & _). exact Hcalls.
Defined.

(** A run whose first LoadCheckpoint fails while the store holds cursor 5:
    the backfill ingests the three messages again and the run ends with
    the profile's history id as cursor. *)
Example load_failure_rebackfills :
  let run := sync.RunInbox (H := plain_runtime) demo_runner "u1" "primary"
               None None (unreadable_env demo_gmail) [sync.CtxDone]
               (db_with "5" "HOOKED" None) in
  sync.calls run = [sync.CallBackfill {| sync.Cursor := "" |}] ∧
  sync.outcome run = sync.Returned None ∧
  length (sqlite.email_received_events (sync.final_db run)) = 3%nat ∧
  sqlite.stored_cursor "GOOGLE" (sync.final_db run) = Some "9".
Proof. repeat split; vm_compute; reflexivity. Qed.

(* --------------------------------------------------------------------- *)
(* Outlook: one request, one page.                                       *)
(* --------------------------------------------------------------------- *)

Lemma outlook_deliver_all {St : Type} (user : string) (fn : sync.Sink St)
    (msgs : list outlook.Message) :
  (∀ m s, (fn m s).2 = None) →
  ∀ st log, ∃ st',
    outlook.deliver user (recording fn) msgs (st, log)
    = ((st', log ++ ((λ m, outlook.normalizeOutlook m user) <$> msgs)), None).
Proof.
  intros Hsink. induction msgs as [|m msgs IH]; intros st log; simpl.
  - exists st. by rewrite app_nil_r.
  - unfold recording at 1. simpl.
    pose proof (Hsink (outlook.normalizeOutlook m user) st) as Hacc.
    destruct (fn _ st) as [st1 err]. simpl in Hacc. subst err.
    destruct (IH st1 (log ++ [outlook.normalizeOutlook m user])) as [st' ->].
    exists st'. by rewrite <- app_assoc.
Qed.

(** Whatever follows the first page, the Outlook backfill delivers the
    records of the first page and no other. *)
Lemma outlook_backfill_first_page {St : Type} (client : outlook.Client)
    (user : string) (fn : sync.Sink St) (cp : sync.Checkpoint) (st : St)
    (items : list outlook.Message) (next : Listing outlook.Message) :
  (∀ m s, (fn m s).2 = None) →
  outlook.Messages_Get client user = MorePages items next →
  (outlook.InitialBackfill client user (recording fn) cp (st, [])).1.2
  = (λ m, outlook.normalizeOutlook m user) <$> items.
Proof.
  intros Hsink Hget. unfold outlook.InitialBackfill. rewrite Hget. simpl.
  destruct (outlook_deliver_all user fn items Hsink st []) as [st' ->].
  by destruct (outlook.last_id items).
Qed.

(** C6. An Outlook inbox whose two messages come on two pages: backfill
    and incremental call both hand the first message to the sink, return
    its id as cursor, and never ask for the second page. *)
Theorem C6_outlook_stops_after_first_page :
  enumerable (outlook.Messages_Get two_page_outlook "me")
    = [bare_outlook "a"; bare_outlook "b"] ∧
  outlook.InitialBackfill two_page_outlook "me" (recording accept)
    {| sync.Cursor := "" |} (tt, [])
    = ((tt, [outlook.normalizeOutlook (bare_outlook "a") "me"]),
       Ok (Some {| sync.Cursor := "a" |})) ∧
  outlook.IncrementalSync two_page_outlook "me" (recording accept)
    {| sync.Cursor := "a" |} (tt, [])
    = ((tt, [outlook.normalizeOutlook (bare_outlook "a") "me"]),
       Ok (Some {| sync.Cursor := "a" |})).
Proof. repeat split. Qed.

(** The Gmail backfill on a mailbox of two pages reaches the second page. *)
Example gmail_backfill_two_pages :
  (gmail.InitialBackfill (H := plain_runtime) demo_gmail "me" (recording accept)
     {| sync.Cursor := "" |} (tt, [])).1.2
  = [demo_meta "m1"; demo_meta "m2"; demo_meta "m3"].
Proof. reflexivity. Qed.

(* --------------------------------------------------------------------- *)
(* The worker manager.                                                   *)
(* --------------------------------------------------------------------- *)

Lemma filter_key_length (l : list (string * nat)) (k : string) :
  NoDup l.*1 → (length (filter (λ kv, kv.1 = k) l) ≤ 1)%nat.
Proof.
  induction l as [|[k' h] l IH]; simpl; intros Hnd; [lia|].
  apply NoDup_cons in Hnd as [Hnotin Hnd].
  rewrite filter_cons. case_decide as Hk; simpl in *; [|by apply IH].
  subst k'.
  replace (filter (λ kv : string * nat, kv.1 = k) l) with (@nil (string * nat));
    [simpl; lia|].
  symmetry. destruct (filter _ l) as [|[k2 h2] rest] eqn:E; [done|].
  exfalso. apply Hnotin.
  assert ((k2, h2) ∈ filter (λ kv : string * nat, kv.1 = k) l) as Hin
    by (rewrite E; left).
  apply list_elem_of_filter in Hin as [Hk2 Hin]. simpl in Hk2. subst k2.
  apply list_elem_of_fmap. by exists (k, h2).
Qed.

Lemma registered_at_most_one (userID inboxID : string) (provider : sync.ProviderName)
    (m : sync.Manager) :
  (length (registered userID inboxID provider m) ≤ 1)%nat.
Proof. apply filter_key_length, NoDup_fst_map_to_list. Qed.

Lemma registered_absent (userID inboxID : string) (provider : sync.ProviderName)
    (m : sync.Manager) :
  sync.runners m !! sync.key_of userID inboxID provider = None →
  registered userID inboxID provider m = [].
Proof.
  intros Hnone. unfold registered.
  destruct (filter _ _) as [|[k h] rest] eqn:E; [done|].
  assert ((k, h) ∈ filter (λ kv : string * nat,
                             kv.1 = sync.key_of userID inboxID provider)
                          (map_to_list (sync.runners m))) as Hin
    by (rewrite E; left).
  apply list_elem_of_filter in Hin as [Hk Hin]. simpl in Hk. subst k.
  apply elem_of_map_to_list in Hin. congruence.
Qed.

Lemma manager_inv_new : manager_inv sync.NewManager.
Proof.
  split; [|split]; simpl.
  - intros key h Hl. by rewrite lookup_empty in Hl.
  - intros k1 k2 h Hl. by rewrite lookup_empty in Hl.
  - intros h Hh. by apply not_elem_of_empty in Hh.
Qed.

Lemma manager_inv_start (token : result unit) (adapter : result sync.MailProvider)
    (config : sync.InboxConfig) (m : sync.Manager) :
  manager_inv m → manager_inv (sync.StartSync token adapter config m).1.
Proof.
  intros (Hlive & Hinj & Hcan). unfold sync.StartSync.
  destruct (sync.runners m !! _) as [h0|] eqn:Hkey; [done|].
  destruct (negb _); [done|].
  destruct token as [?|?]; [|done]. destruct adapter as [?|?]; [|done].
  simpl. split; [|split]; simpl.
  - intros key h Hl. apply lookup_insert_Some in Hl as [[_ <-]|[_ Hl]].
    + split; [lia|]. intros Hin. apply Hcan in Hin. lia.
    + destruct (Hlive _ _ Hl). split; [lia|done].
  - intros k1 k2 h Hl1 Hl2.
    apply lookup_insert_Some in Hl1 as [[<- <-]|[Hne1 Hl1]];
      apply lookup_insert_Some in Hl2 as [[<- Heq]|[Hne2 Hl2]]; try done.
    + destruct (Hlive _ _ Hl2). lia.
    + destruct (Hlive _ _ Hl1). lia.
    + by eapply Hinj.
  - intros h Hin. apply Hcan in Hin. lia.
Qed.

Lemma manager_inv_stop (userID inboxID : string) (provider : sync.ProviderName)
    (m : sync.Manager) :
  manager_inv m → manager_inv (sync.StopSync userID inboxID provider m).1.
Proof.
  intros (Hlive & Hinj & Hcan). unfold sync.StopSync.
  destruct (sync.runners m !! _) as [h0|] eqn:Hkey; [|done].
  simpl. split; [|split]; simpl.
  - intros key h Hl. apply lookup_delete_Some in Hl as [Hne Hl].
    destruct (Hlive _ _ Hl) as [Hlt Hnc]. split; [done|].
    intros Hin. apply elem_of_union in Hin as [Hin|Hin]; [|done].
    apply elem_of_singleton in Hin. subst h0.
    apply Hne. by eapply Hinj.
  - intros k1 k2 h Hl1 Hl2.
    apply lookup_delete_Some in Hl1 as [_ Hl1].
    apply lookup_delete_Some in Hl2 as [_ Hl2]. by eapply Hinj.
  - intros h Hin. apply elem_of_union in Hin as [Hin|Hin]; [|by apply Hcan].
    apply elem_of_singleton in Hin. subst h. by destruct (Hlive _ _ Hkey).
Qed.

Lemma manager_inv_stop_all (m : sync.Manager) :
  manager_inv m → manager_inv (sync.StopAll m).
Proof.
  intros (Hlive & Hinj & Hcan). unfold sync.StopAll.
  split; [|split]; simpl.
  - intros key h Hl. by rewrite lookup_empty in Hl.
  - intros k1 k2 h Hl. by rewrite lookup_empty in Hl.
  - intros h Hin. apply elem_of_union in Hin as [Hin|Hin]; [|by apply Hcan].
    apply elem_of_list_to_set, list_elem_of_fmap in Hin as ([k h'] & -> & Hin).
    apply elem_of_map_to_list in Hin. by destruct (Hlive _ _ Hin).
Qed.

Lemma manager_inv_exit (key : string) (m : sync.Manager) :
  manager_inv m → manager_inv (sync.runnerExit key m).
Proof.
  intros (Hlive & Hinj & Hcan). unfold sync.runnerExit.
  split; [|split]; simpl.
  - intros k h Hl. apply lookup_delete_Some in Hl as [_ Hl]. by eapply Hlive.
  - intros k1 k2 h Hl1 Hl2.
    apply lookup_delete_Some in Hl1 as [_ Hl1].
    apply lookup_delete_Some in Hl2 as [_ Hl2]. by eapply Hinj.
  - done.
Qed.

Lemma manager_inv_ops (ops : list sync.Op) : ∀ m,
  manager_inv m → manager_inv (fold_left sync.apply_op ops m).
Proof.
  induction ops as [|o ops IH]; intros m Hinv; simpl; [done|].
  apply IH. destruct o; simpl.
  - by apply manager_inv_start.
  - by apply manager_inv_stop.
  - by apply manager_inv_stop_all.
  - by apply manager_inv_exit.
Qed.

(** C8. In every state the manager reaches from NewManager by starts,
    stops, stop-alls and runner exits, the runners map holds at most one
    entry per triple, and the entries are live runners, no runner under
    two keys.  A start for a triple that is in the map fails with "sync
    already running" and leaves the manager as it is; a stop cancels the
    triple's handle and takes it out of the map; stop-all cancels every
    handle and empties the map. *)
Theorem C8_one_runner_per_triple (ops : list sync.Op) (userID inboxID : string)
    (provider : sync.ProviderName) :
  let m := sync.run_ops ops in
  let key := sync.key_of userID inboxID provider in
  (length (registered userID inboxID provider m) ≤ 1)%nat ∧
  manager_inv m ∧
  (is_Some (sync.runners m !! key) →
   ∀ token adapter jwt,
     sync.StartSync token adapter
       {| sync.cfg_UserID := userID; sync.cfg_InboxID := inboxID;
          sync.cfg_Provider := provider; sync.cfg_UserJWT := jwt |} m
     = (m, Some "sync already running")) ∧
  (∀ h, sync.runners m !! key = Some h →
     let m' := (sync.StopSync userID inboxID provider m).1 in
     (sync.StopSync userID inboxID provider m).2 = None ∧
     registered userID inboxID provider m' = [] ∧
     sync.IsRunning userID inboxID provider m' = false ∧
     h ∈ sync.cancelled m') ∧
  (sync.runners (sync.StopAll m) = ∅ ∧
   registered userID inboxID provider (sync.StopAll m) = [] ∧
   ∀ k h, sync.runners m !! k = Some h → h ∈ sync.cancelled (sync.StopAll m)).
Proof.
  intros m key. split; [apply registered_at_most_one|].
  split; [apply manager_inv_ops, manager_inv_new|].
  split; [|split].
  - intros [h Hh] token adapter jwt. unfold sync.StartSync. simpl.
    fold key. by rewrite Hh.
  - intros h Hh m'. subst m'. unfold sync.StopSync. fold key. rewrite Hh. simpl.
    split; [done|]. split; [|split].
    + apply registered_absent. simpl. fold key. apply lookup_delete_eq.
    + unfold sync.IsRunning. simpl. fold key. rewrite lookup_delete_eq.
      apply bool_decide_eq_false. by intros [? ?].
    + set_solver.
  - split; [done|]. split.
    + apply registered_absent. simpl. apply lookup_empty.
    + intros k h Hl. simpl. apply elem_of_union_l, elem_of_list_to_set.
      apply list_elem_of_fmap. exists (k, h). split; [done|].
      by apply elem_of_map_to_list.
Qed.

Lemma C8_witness :
  let m := sync.run_ops
             [sync.OpStart (Ok ()) (Ok (gmail.Adapter (H := plain_runtime)))
                demo_config] in
  sync.IsRunning "u1" "primary" "GOOGLE" m = true ∧
  sync.StartSync (Ok ()) (Ok (gmail.Adapter (H := plain_runtime))) demo_config m
    = (m, Some "sync already running") ∧
  registered "u1" "primary" "GOOGLE" (sync.StopSync "u1" "primary" "GOOGLE" m).1 = [].
Proof.
  intros m.
  destruct (C8_one_runner_per_triple
              [sync.OpStart (Ok ()) (Ok (gmail.Adapter (H := plain_runtime)))
                 demo_config]
              "u1" "primary" "GOOGLE") as (_ & _ & Hstart & Hstop & _).
  split; [reflexivity|]. split.
  - apply (Hstart ltac:(by exists O)).
  - by destruct (Hstop O ltac:(reflexivity)) as (_ & Hgone & _).
Defined.

(* --------------------------------------------------------------------- *)
(* The scenarios of the specification, run on the model.                 *)
(* --------------------------------------------------------------------- *)

(** S1: cold start.  The backfill delivers the messages, the store gets
    one event and one outbox row per message, and the sync state ends as
    (cursor, HOOKED). *)
Example S1_cold_start :
  let run := sync.RunInbox (H := plain_runtime) demo_runner "u1" "primary"
               None None (calm_env demo_gmail) [sync.CtxDone] sqlite.empty_db in
  sync.calls run = [sync.CallBackfill {| sync.Cursor := "" |}] ∧
  sqlite.ev_provider_message_id <$> sqlite.email_received_events (sync.final_db run)
    = ["m1"; "m2"; "m3"] ∧
  sqlite.ob_msg_id <$> sqlite.outbox (sync.final_db run)
    = ["email.received|GOOGLE|m1"; "email.received|GOOGLE|m2";
       "email.received|GOOGLE|m3"] ∧
  sqlite.ob_subject <$> sqlite.outbox (sync.final_db run)
    = ["user.u1.email.received"; "user.u1.email.received";
       "user.u1.email.received"] ∧
  sqlite.stored_cursor "GOOGLE" (sync.final_db run) = Some "9" ∧
  sqlite.stored_status "GOOGLE" (sync.final_db run) = Some "HOOKED".
Proof. repeat split; vm_compute; reflexivity. Qed.

(** S3: stale Gmail cursor.  The tick sees a success and stores the
    cursor of the fall-back backfill. *)
Example S3_stale_cursor :
  let db' := (sync.tick (H := plain_runtime) demo_runner "u1" "primary"
                (calm_env stale_gmail) (db_with "1" "HOOKED" None)).1 in
  sqlite.stored_cursor "GOOGLE" db' = Some "99" ∧
  sqlite.stored_status "GOOGLE" db' = Some "HOOKED".
Proof. split; vm_compute; reflexivity. Qed.

(** A tick whose LoadCheckpoint fails is skipped: no adapter call, no
    statement on the store. *)
Lemma tick_load_failure `{GoRuntime} (r : sync.Runner) (userID inboxID : string)
    (e : sync.PassEnv (sync.Remote (sync.r_Provider r))) (db : sqlite.DB)
    (x : string) :
  sync.load_err e = Some x → sync.tick r userID inboxID e db = (db, []).
Proof. intros Hq. unfold sync.tick, sqlite.LoadCheckpoint. by rewrite Hq. Qed.

Example ParseUint_rejects :
  Go.ParseUint "" = inl Go.ErrSyntax ∧
  Go.ParseUint "12a" = inl Go.ErrSyntax ∧
  Go.ParseUint "18446744073709551616" = inl Go.ErrRange ∧
  Go.ParseUint "18446744073709551615" = inr Go.maxUint64.
Proof. repeat split. Qed.

Example Split_commas : Go.Split "a, b,,c" "," = ["a"; " b"; ""; "c"].
Proof. reflexivity. Qed.

(* ===================================================================== *)
(* Further properties of the store, the dispatcher, the manager and the  *)
(* adapters.                                                             *)
(* ===================================================================== *)

(* --------------------------------------------------------------------- *)
(* The outbox: ids, dequeueing, marking.                                 *)
(* --------------------------------------------------------------------- *)

Lemma sorted_fmap_same_id (g : sqlite.OutboxRow → sqlite.OutboxRow)
    (l : list sqlite.OutboxRow) :
  (∀ r, sqlite.ob_id (g r) = sqlite.ob_id r) →
  StronglySorted id_lt l → StronglySorted id_lt (g <$> l).
Proof.
  intros Hg. induction l as [|x l IH]; simpl; intros Hs; [constructor|].
  apply StronglySorted_cons in Hs as [Hall Hs].
  apply StronglySorted_cons. split; [|by apply IH].
  apply Forall_fmap. eapply Forall_impl; [exact Hall|].
  intros y Hy. unfold id_lt in *. simpl. by rewrite !Hg.
Qed.

Lemma update_outbox_wf (id : Z) (f : sqlite.OutboxRow → sqlite.OutboxRow)
    (db : sqlite.DB) :
  (∀ r, sqlite.ob_id (f r) = sqlite.ob_id r) →
  outbox_wf db → outbox_wf (sqlite.update_outbox id f db).
Proof.
  intros Hf [Hs Hle]. unfold sqlite.update_outbox. split; simpl.
  - apply sorted_fmap_same_id; [|done]. intros r. by case_bool_decide.
  - apply Forall_fmap. eapply Forall_impl; [exact Hle|].
    intros r Hr. simpl. by case_bool_decide; rewrite ?Hf.
Qed.

Lemma insert_outbox_wf (ts : Z) (subject eventType payload msgID : string)
    (next : Z) (db : sqlite.DB) :
  outbox_wf db →
  outbox_wf (sqlite.insert_outbox ts subject eventType payload msgID next db).
Proof.
  intros [Hs Hle]. unfold sqlite.insert_outbox. split; simpl.
  - apply StronglySorted_app_2; [|done|repeat constructor].
    intros x1 x2 Hx1 Hx2. apply list_elem_of_singleton in Hx2 as ->.
    unfold id_lt. simpl. rewrite Forall_forall in Hle.
    specialize (Hle x1 Hx1). lia.
  - apply Forall_app. split.
    + eapply Forall_impl; [exact Hle|]. intros r Hr. simpl in *. lia.
    + repeat constructor. simpl. lia.
Qed.

Lemma insert_or_ignore_wf (e : sqlite.EmailEvent) (db : sqlite.DB) :
  outbox_wf db → outbox_wf (sqlite.insert_or_ignore_event e db).
Proof. unfold sqlite.insert_or_ignore_event. by destruct (existsb _ _). Qed.

Lemma process_wf `{GoRuntime} (userID inboxID : string) (e : sync.TxEnv)
    (meta : sync.MessageMeta) (db : sqlite.DB) :
  outbox_wf db → outbox_wf (sync.process userID inboxID e meta db).1.
Proof.
  intros Hwf. destruct (sync.tx_okb e) eqn:Hok.
  - rewrite process_committed by done. simpl.
    by apply insert_outbox_wf, insert_or_ignore_wf.
  - by rewrite process_failed.
Qed.

Lemma set_published_id (now : Z) (r : sqlite.OutboxRow) :
  sqlite.ob_id (sqlite.set_published now r) = sqlite.ob_id r.
Proof. done. Qed.

Lemma set_retry_id (next : Z) (r : sqlite.OutboxRow) :
  sqlite.ob_id (sqlite.set_retry next r) = sqlite.ob_id r.
Proof. done. Qed.

Lemma store_write_wf `{GoRuntime} (w : StoreWrite) (db : sqlite.DB) :
  outbox_wf db → outbox_wf (store_write db w).
Proof.
  intros Hwf. destruct w as [u i e meta|exec now id|exec now backoff id|
                             exec n1 n2 p i c st|exec now p st msg]; simpl.
  - by apply process_wf.
  - unfold sqlite.MarkPublished. destruct exec; simpl; [done|].
    by apply update_outbox_wf.
  - unfold sqlite.MarkOutboxRetry. destruct exec; simpl; [done|].
    by apply update_outbox_wf.
  - unfold sqlite.SaveCheckpoint. by destruct exec.
  - unfold sqlite.UpdateSyncStatus. by destruct exec.
Qed.

Lemma sorted_ids_NoDup (l : list sqlite.OutboxRow) :
  StronglySorted id_lt l → NoDup (sqlite.ob_id <$> l).
Proof.
  induction l as [|x l IH]; simpl; intros Hs; [constructor|].
  apply StronglySorted_cons in Hs as [Hall Hs].
  apply NoDup_cons. split; [|by apply IH].
  intros Hin. apply list_elem_of_fmap in Hin as (y & Heq & Hy).
  rewrite Forall_forall in Hall. specialize (Hall y Hy).
  unfold id_lt in Hall. lia.
Qed.

Lemma store_writes_wf `{GoRuntime} (ws : list StoreWrite) : ∀ db,
  outbox_wf db → outbox_wf (store_writes ws db).
Proof.
  unfold store_writes.
  induction ws as [|w ws IH]; intros db Hwf; simpl; [done|].
  by apply IH, store_write_wf.
Qed.

(** X1. Whatever the runner writes to a store (processor transactions,
    MarkPublished, MarkOutboxRetry, checkpoint and status writes, each
    with any verdict of the driver), the outbox ids stay strictly
    increasing in insertion order and below the AUTOINCREMENT counter; no
    two rows share an id. *)
Theorem X1_outbox_ids_increasing `{GoRuntime} (ws : list StoreWrite) (db : sqlite.DB) :
  outbox_wf db →
  outbox_wf (store_writes ws db) ∧
  NoDup (sqlite.ob_id <$> sqlite.outbox (store_writes ws db)).
Proof.
  intros Hwf. pose proof (store_writes_wf ws db Hwf) as Hwf'.
  split; [done|]. apply sorted_ids_NoDup, Hwf'.
Qed.

Lemma outbox_wf_empty : outbox_wf sqlite.empty_db.
Proof. split; simpl; constructor. Qed.

Lemma X1_witness :
  NoDup (sqlite.ob_id <$> sqlite.outbox
           (store_writes (H := plain_runtime)
              [WProcess "u1" "primary" (healthy_tx 0) (demo_meta "m1");
               WProcess "u1" "primary" (healthy_tx 1) (demo_meta "m1");
               WMarkPublished None 1700000001 1;
               WProcess "u1" "primary" (healthy_tx 2) (demo_meta "m2")]
              sqlite.empty_db)).
Proof.
  apply (X1_outbox_ids_increasing (H := plain_runtime)), outbox_wf_empty.
Defined.

Lemma order_by_id_sorted (l : list sqlite.OutboxRow) :
  StronglySorted id_lt l → sqlite.order_by_id l = l.
Proof.
  induction l as [|x l IH]; simpl; intros Hs; [done|].
  apply StronglySorted_cons in Hs as [Hall Hs].
  unfold sqlite.order_by_id in *. simpl. rewrite IH by done.
  destruct l as [|y l]; simpl; [done|].
  apply Forall_cons in Hall as [Hxy _]. unfold id_lt in Hxy.
  destruct (Z.leb_spec (sqlite.ob_id x) (sqlite.ob_id y)); [done|lia].
Qed.

Lemma sorted_filter (P : sqlite.OutboxRow → Prop) `{∀ r, Decision (P r)}
    (l : list sqlite.OutboxRow) :
  StronglySorted id_lt l → StronglySorted id_lt (filter P l).
Proof.
  induction l as [|x l IH]; simpl; intros Hs; [constructor|].
  apply StronglySorted_cons in Hs as [Hall Hs].
  rewrite filter_cons. case_decide; [|by apply IH].
  apply StronglySorted_cons. split; [|by apply IH].
  rewrite Forall_forall in *. intros y Hy.
  apply list_elem_of_filter in Hy as [_ Hy]. by apply Hall.
Qed.

Lemma select_ready_sorted (now limit : Z) (db : sqlite.DB) :
  outbox_wf db → 0 ≤ limit →
  sqlite.select_ready now limit db
  = take (Z.to_nat limit) (filter (λ r, sqlite.ready now r = true) (sqlite.outbox db)).
Proof.
  intros [Hs _] Hlimit. unfold sqlite.select_ready, sqlite.limit_rows.
  rewrite order_by_id_sorted by done.
  destruct (Z.ltb_spec limit 0); [lia|done].
Qed.

Lemma ready_unpublished (now : Z) (r : sqlite.OutboxRow) :
  sqlite.ready now r = true →
  sqlite.ob_published_at r = None ∧
  ∃ t, sqlite.ob_next_attempt_at r = Some t ∧ t ≤ now.
Proof.
  unfold sqlite.ready.
  destruct (sqlite.ob_published_at r), (sqlite.ob_next_attempt_at r) as [t|];
    try discriminate.
  intros Hle. split; [done|]. exists t. split; [done|]. by apply Z.leb_le.
Qed.

Lemma dequeue_spec (query scan : option string)
    (stop : option nat) (now limit : Z) (db : sqlite.DB)
    (msgs : list sqlite.OutboxMessage) :
  outbox_wf db → 0 ≤ limit →
  sqlite.DequeueOutbox query scan stop now limit db = (msgs, None) →
  (∃ rows, msgs = sqlite.to_message <$> rows ∧
     rows `prefix_of` filter (λ r, sqlite.ready now r = true) (sqlite.outbox db) ∧
     (length rows ≤ Z.to_nat limit)%nat ∧
     Forall (λ r, sqlite.ob_published_at r = None ∧
                  ∃ t, sqlite.ob_next_attempt_at r = Some t ∧ t ≤ now) rows ∧
     StronglySorted id_lt rows) ∧
  (stop = None →
   msgs = sqlite.to_message <$>
            take (Z.to_nat limit)
              (filter (λ r, sqlite.ready now r = true) (sqlite.outbox db))).
Proof.
  intros Hwf Hlimit. unfold sqlite.DequeueOutbox.
  destruct query as [e|]; [discriminate|].
  rewrite select_ready_sorted by done.
  set (eligible := filter (λ r, sqlite.ready now r = true) (sqlite.outbox db)).
  set (seen := match stop with
               | Some n => take n (take (Z.to_nat limit) eligible)
               | None => take (Z.to_nat limit) eligible
               end).
  intros Hres.
  assert (msgs = sqlite.to_message <$> seen) as ->.
  { destruct seen as [|r rs]; [by injection Hres as <-|].
    destruct scan; [discriminate|]. by injection Hres as <-. }
  assert (seen `prefix_of` take (Z.to_nat limit) eligible) as Hpre.
  { subst seen. destruct stop; [apply prefix_take|done]. }
  assert (seen `prefix_of` eligible) as Hpre'.
  { etrans; [exact Hpre|apply prefix_take]. }
  split.
  - exists seen. split; [done|]. split; [done|]. split; [|split].
    + apply prefix_length in Hpre. rewrite length_take in Hpre. lia.
    + destruct Hpre' as [k Hk]. apply Forall_forall. intros r Hr.
      apply ready_unpublished.
      assert (r ∈ eligible) as Hin by (rewrite Hk; apply elem_of_app; by left).
      by apply list_elem_of_filter in Hin as [? _].
    + destruct Hpre' as [k Hk].
      assert (StronglySorted id_lt eligible) as Hs
        by (apply sorted_filter, Hwf).
      rewrite Hk in Hs. by apply StronglySorted_app_1_l in Hs.
  - intros ->. done.
Qed.

(** X2. On a store whose outbox ids are increasing, DequeueOutbox with a
    limit of at least 0 answers, when it answers without error, with the
    first rows (at most limit of them) among those that are unpublished
    and due at [now], in the order of their ids: ORDER BY id is the
    insertion order, and no row is skipped in favour of a later one.  When
    the driver meets no failure at all, these are exactly the first
    limit such rows. *)
Theorem X2_dequeue_lowest_ready_first (query scan : option string)
    (stop : option nat) (now limit : Z) (db : sqlite.DB)
    (msgs : list sqlite.OutboxMessage) :
  outbox_wf db → 0 ≤ limit →
  sqlite.DequeueOutbox query scan stop now limit db = (msgs, None) →
  (∃ rows, msgs = sqlite.to_message <$> rows ∧
     rows `prefix_of` filter (λ r, sqlite.ready now r = true) (sqlite.outbox db) ∧
     (length rows ≤ Z.to_nat limit)%nat ∧
     Forall (λ r, sqlite.ob_published_at r = None ∧
                  ∃ t, sqlite.ob_next_attempt_at r = Some t ∧ t ≤ now) rows ∧
     StronglySorted id_lt rows) ∧
  (stop = None →
   msgs = sqlite.to_message <$>
            take (Z.to_nat limit)
              (filter (λ r, sqlite.ready now r = true) (sqlite.outbox db))).
Proof. apply dequeue_spec. Qed.

Lemma three_rows_wf : outbox_wf three_rows_db.
Proof. apply (store_writes_wf (H := plain_runtime)), outbox_wf_empty. Qed.

Lemma X2_witness :
  sqlite.ID <$> (sqlite.DequeueOutbox None None None 1700000000 2 three_rows_db).1
  = [1; 2].
Proof.
  destruct (X2_dequeue_lowest_ready_first None None None 1700000000 2 three_rows_db
              (sqlite.DequeueOutbox None None None 1700000000 2 three_rows_db).1
              three_rows_wf ltac:(lia) ltac:(vm_compute; reflexivity))
    as [_ Hall].
  rewrite (Hall eq_refl). reflexivity.
Defined.

Lemma insert_by_id_elem (x r : sqlite.OutboxRow) (l : list sqlite.OutboxRow) :
  r ∈ sqlite.insert_by_id x l ↔ r = x ∨ r ∈ l.
Proof.
  induction l as [|y l IH]; simpl.
  - rewrite list_elem_of_singleton, elem_of_nil. tauto.
  - destruct (sqlite.ob_id x <=? sqlite.ob_id y).
    + by rewrite elem_of_cons.
    + rewrite !elem_of_cons, IH. tauto.
Qed.

Lemma order_by_id_elem (r : sqlite.OutboxRow) (l : list sqlite.OutboxRow) :
  r ∈ sqlite.order_by_id l ↔ r ∈ l.
Proof.
  unfold sqlite.order_by_id. induction l as [|x l IH]; simpl; [done|].
  by rewrite insert_by_id_elem, elem_of_cons, IH.
Qed.

(** Whatever the limit and the verdicts, a dequeued message is a row of
    the outbox that is unpublished and due. *)
Lemma select_ready_elem (now limit : Z) (db : sqlite.DB) (r : sqlite.OutboxRow) :
  r ∈ sqlite.select_ready now limit db →
  r ∈ sqlite.outbox db ∧ sqlite.ready now r = true.
Proof.
  unfold sqlite.select_ready, sqlite.limit_rows. intros Hrows.
  assert (r ∈ filter (λ r, sqlite.ready now r = true)
                (sqlite.order_by_id (sqlite.outbox db))) as Hf.
  { destruct (limit <? 0); [done|by eapply subseteq_take]. }
  apply list_elem_of_filter in Hf as [Hready Hin].
  split; [by apply order_by_id_elem|done].
Qed.

(** Whatever the limit and the verdicts, a dequeued message is a row of
    the outbox that is unpublished and due. *)
Lemma dequeue_elem (query scan : option string) (stop : option nat)
    (now limit : Z) (db : sqlite.DB) (m : sqlite.OutboxMessage) :
  m ∈ (sqlite.DequeueOutbox query scan stop now limit db).1 →
  ∃ r, r ∈ sqlite.outbox db ∧ sqlite.ready now r = true ∧ m = sqlite.to_message r.
Proof.
  unfold sqlite.DequeueOutbox. destruct query; simpl.
  { intros Hm. by apply elem_of_nil in Hm. }
  remember (match stop with
            | Some n => take n (sqlite.select_ready now limit db)
            | None => sqlite.select_ready now limit db
            end) as seen eqn:Eseen.
  assert (∀ r, r ∈ seen → r ∈ sqlite.select_ready now limit db) as Hseen.
  { intros r Hr. subst seen. destruct stop; [by eapply subseteq_take|done]. }
  clear Eseen. intros Hm.
  assert (m ∈ sqlite.to_message <$> seen) as Hm'.
  { destruct seen as [|r rs]; [done|]. destruct scan; simpl in Hm; [|done].
    by apply elem_of_nil in Hm. }
  apply list_elem_of_fmap in Hm' as (r & -> & Hr).
  exists r. destruct (select_ready_elem now limit db r (Hseen r Hr)). done.
Qed.

Lemma sorted_id_unique (l : list sqlite.OutboxRow) (r1 r2 : sqlite.OutboxRow) :
  StronglySorted id_lt l → r1 ∈ l → r2 ∈ l →
  sqlite.ob_id r1 = sqlite.ob_id r2 → r1 = r2.
Proof.
  induction l as [|x l IH]; intros Hs H1 H2 Heq; [by apply elem_of_nil in H1|].
  apply StronglySorted_cons in Hs as [Hall Hs]. rewrite Forall_forall in Hall.
  apply elem_of_cons in H1 as [->|H1]; apply elem_of_cons in H2 as [->|H2].
  - done.
  - specialize (Hall _ H2). unfold id_lt in Hall. lia.
  - specialize (Hall _ H1). unfold id_lt in Hall. lia.
  - by apply IH.
Qed.

Lemma published_not_dequeued (query scan : option string) (stop : option nat)
    (now limit id : Z) (db : sqlite.DB) :
  outbox_wf db → published id db →
  id ∉ sqlite.ID <$> (sqlite.DequeueOutbox query scan stop now limit db).1.
Proof.
  intros [Hs _] (r0 & Hr0 & Hid & Hpub) Hin.
  apply list_elem_of_fmap in Hin as (m & -> & Hm).
  apply dequeue_elem in Hm as (r & Hr & Hready & ->). simpl in Hid.
  assert (r0 = r) as -> by (by eapply sorted_id_unique).
  apply ready_unpublished in Hready as [Hnone _].
  rewrite Hnone in Hpub. by destruct Hpub.
Qed.

Lemma published_lookup (id : Z) (db : sqlite.DB) (i : nat) (r : sqlite.OutboxRow) :
  sqlite.outbox db !! i = Some r → sqlite.ob_id r = id →
  is_Some (sqlite.ob_published_at r) → published id db.
Proof.
  intros Hl Hid Hp. exists r. split; [|done]. by eapply list_elem_of_lookup_2.
Qed.

Lemma update_outbox_published (id' id : Z) (f : sqlite.OutboxRow → sqlite.OutboxRow)
    (db : sqlite.DB) :
  (∀ r, sqlite.ob_id (f r) = sqlite.ob_id r) →
  (∀ r, is_Some (sqlite.ob_published_at r) → is_Some (sqlite.ob_published_at (f r))) →
  published id db → published id (sqlite.update_outbox id' f db).
Proof.
  intros Hid Hpub (r & Hr & Heq & Hp). unfold published, sqlite.update_outbox. simpl.
  exists (if bool_decide (sqlite.ob_id r = id') then f r else r).
  split; [|case_bool_decide; rewrite ?Hid; auto].
  apply list_elem_of_fmap. by exists r.
Qed.

Lemma store_write_published `{GoRuntime} (w : StoreWrite) (db : sqlite.DB) (id : Z) :
  published id db → published id (store_write db w).
Proof.
  intros Hp. destruct w as [u i e meta|exec now id'|exec now backoff id'|
                            exec n1 n2 p i c st|exec now p st msg]; simpl.
  - destruct (sync.tx_okb e) eqn:Hok; [|by rewrite process_failed].
    rewrite process_committed by done. simpl.
    destruct Hp as (r & Hr & Heq & Hpub). exists r. split; [|done].
    simpl. rewrite insert_or_ignore_outbox. apply elem_of_app. by left.
  - unfold sqlite.MarkPublished. destruct exec; simpl; [done|].
    apply update_outbox_published; [done| |done]. intros r _. by eexists.
  - unfold sqlite.MarkOutboxRetry. destruct exec; simpl; [done|].
    by apply update_outbox_published.
  - unfold sqlite.SaveCheckpoint. by destruct exec.
  - unfold sqlite.UpdateSyncStatus. by destruct exec.
Qed.

(** X3. Once an outbox row is published it stays published whatever the
    runner writes afterwards (further transactions, MarkOutboxRetry on
    the same row, a second MarkPublished), and no DequeueOutbox returns
    it again. *)
Theorem X3_published_never_dequeued `{GoRuntime} (ws : list StoreWrite)
    (db : sqlite.DB) (id : Z) :
  outbox_wf db → published id db →
  published id (store_writes ws db) ∧
  ∀ query scan stop now limit,
    id ∉ sqlite.ID <$>
      (sqlite.DequeueOutbox query scan stop now limit (store_writes ws db)).1.
Proof.
  intros Hwf Hp.
  assert (published id (store_writes ws db)) as Hp'.
  { unfold store_writes. revert db Hwf Hp.
    induction ws as [|w ws IH]; intros db Hwf Hp; simpl; [done|].
    apply IH; [by apply store_write_wf|by apply store_write_published]. }
  split; [done|]. intros query scan stop now limit.
  apply published_not_dequeued; [by apply store_writes_wf|done].
Qed.

Lemma X3_witness :
  let db := (sqlite.MarkPublished None 1700000001 2 three_rows_db).1 in
  2 ∉ sqlite.ID <$>
    (sqlite.DequeueOutbox None None None 1800000000 100
       (store_writes (H := plain_runtime)
          [WMarkRetry None 1700000002000000000 (10 * sqlite.Second) 2;
           WProcess "u1" "primary" (healthy_tx 3) (demo_meta "m2")] db)).1.
Proof.
  intros db.
  assert (outbox_wf db) as Hwf.
  { apply (store_write_wf (H := plain_runtime) (WMarkPublished None 1700000001 2)),
      three_rows_wf. }
  assert (published 2 db) as Hp.
  { eapply (published_lookup _ _ 1%nat);
      [vm_compute; reflexivity|reflexivity|by eexists]. }
  destruct (X3_published_never_dequeued (H := plain_runtime)
              [WMarkRetry None 1700000002000000000 (10 * sqlite.Second) 2;
               WProcess "u1" "primary" (healthy_tx 3) (demo_meta "m2")]
              db 2 Hwf Hp) as [_ Hnever].
  apply Hnever.
Defined.

(** X4. MarkOutboxRetry on a row adds one to its retries and sets its
    next attempt to the second of now + backoff, touches no other row,
    and until that second no DequeueOutbox returns the row. *)
Theorem X4_retry_defers_row (now backoff id : Z) (db : sqlite.DB)
    (r : sqlite.OutboxRow) :
  outbox_wf db → r ∈ sqlite.outbox db → sqlite.ob_id r = id →
  let db' := (sqlite.MarkOutboxRetry None now backoff id db).1 in
  let next := (now + backoff) / sqlite.Second in
  sqlite.set_retry next r ∈ sqlite.outbox db' ∧
  sqlite.ob_retries (sqlite.set_retry next r) = sqlite.ob_retries r + 1 ∧
  (∀ r', r' ∈ sqlite.outbox db → sqlite.ob_id r' ≠ id → r' ∈ sqlite.outbox db') ∧
  length (sqlite.outbox db') = length (sqlite.outbox db) ∧
  ∀ query scan stop t limit, t < next →
    id ∉ sqlite.ID <$> (sqlite.DequeueOutbox query scan stop t limit db').1.
Proof.
  intros Hwf Hr Hid db' next.
  assert (outbox_wf db') as Hwf' by (by apply update_outbox_wf).
  assert (sqlite.set_retry next r ∈ sqlite.outbox db') as Hin.
  { subst db'. simpl. apply list_elem_of_fmap. exists r.
    by rewrite bool_decide_true. }
  split; [done|]. split; [done|]. split; [|split].
  - intros r' Hr' Hne. subst db'. simpl. apply list_elem_of_fmap. exists r'.
    by rewrite bool_decide_false.
  - subst db'. simpl. by rewrite length_fmap.
  - intros query scan stop t limit Ht Hdq.
    apply list_elem_of_fmap in Hdq as (m & Hm & Hdq).
    apply dequeue_elem in Hdq as (r'' & Hr'' & Hready & ->). simpl in Hm.
    assert (r'' = sqlite.set_retry next r) as ->.
    { eapply sorted_id_unique; [apply Hwf'|done|done|]. simpl. congruence. }
    apply ready_unpublished in Hready as (_ & t' & Ht' & Hle).
    simpl in Ht'. injection Ht' as <-. lia.
Qed.

Lemma X4_witness :
  1 ∉ sqlite.ID <$>
    (sqlite.DequeueOutbox None None None 1700000009 100
       (sqlite.MarkOutboxRetry None 1700000000500000000 (10 * sqlite.Second) 1
          three_rows_db).1).1.
Proof.
  destruct (sqlite.outbox three_rows_db) as [|r rs] eqn:E;
    [by vm_compute in E|].
  destruct (X4_retry_defers_row 1700000000500000000 (10 * sqlite.Second) 1
              three_rows_db r three_rows_wf
              ltac:(rewrite E; left)
              ltac:(vm_compute in E; by injection E as <- _))
    as (_ & _ & _ & _ & Hdefer).
  apply Hdefer. vm_compute. reflexivity.
Defined.

Lemma insert_or_ignore_update (e : sqlite.EmailEvent) (id : Z)
    (f : sqlite.OutboxRow → sqlite.OutboxRow) (db : sqlite.DB) :
  sqlite.insert_or_ignore_event e (sqlite.update_outbox id f db)
  = sqlite.update_outbox id f (sqlite.insert_or_ignore_event e db).
Proof.
  unfold sqlite.insert_or_ignore_event, sqlite.update_outbox. simpl.
  by destruct (existsb _ _).
Qed.

Lemma process_update_outbox `{GoRuntime} (userID inboxID : string) (e : sync.TxEnv)
    (meta : sync.MessageMeta) (id : Z) (f : sqlite.OutboxRow → sqlite.OutboxRow)
    (db : sqlite.DB) :
  id ≤ sqlite.outbox_seq db →
  (sync.process userID inboxID e meta (sqlite.update_outbox id f db)).1
  = sqlite.update_outbox id f (sync.process userID inboxID e meta db).1.
Proof.
  intros Hid. destruct (sync.tx_okb e) eqn:Hok.
  - rewrite !process_committed by done. simpl.
    rewrite insert_or_ignore_update.
    set (db1 := sqlite.insert_or_ignore_event _ db).
    assert (sqlite.outbox_seq db1 = sqlite.outbox_seq db) as Hseq.
    { subst db1. unfold sqlite.insert_or_ignore_event. by destruct (existsb _ _). }
    unfold sqlite.insert_outbox, sqlite.update_outbox. simpl.
    rewrite fmap_app. simpl. rewrite bool_decide_false by lia. done.
  - by rewrite !process_failed.
Qed.

(** X5. Marking an existing outbox row (published, or for a retry) and a
    transaction of the processor can be done in either order with the same
    result: the dispatcher's updates and the sync loop's inserts do not
    disturb each other. *)
Theorem X5_mark_commutes_with_transaction `{GoRuntime} (userID inboxID : string)
    (e : sync.TxEnv) (meta : sync.MessageMeta) (exec : option string)
    (now backoff id : Z) (db : sqlite.DB) :
  id ≤ sqlite.outbox_seq db →
  (sync.process userID inboxID e meta (sqlite.MarkPublished exec now id db).1).1
  = (sqlite.MarkPublished exec now id (sync.process userID inboxID e meta db).1).1 ∧
  (sync.process userID inboxID e meta
     (sqlite.MarkOutboxRetry exec now backoff id db).1).1
  = (sqlite.MarkOutboxRetry exec now backoff id
       (sync.process userID inboxID e meta db).1).1.
Proof.
  intros Hid. unfold sqlite.MarkPublished, sqlite.MarkOutboxRetry.
  destruct exec; simpl; [done|]. split; by apply process_update_outbox.
Qed.

Lemma X5_witness :
  (sync.process (H := plain_runtime) "u1" "primary" (healthy_tx 3) (demo_meta "m4")
     (sqlite.MarkPublished None 1700000001 2 three_rows_db).1).1
  = (sqlite.MarkPublished None 1700000001 2
       (sync.process (H := plain_runtime) "u1" "primary" (healthy_tx 3)
          (demo_meta "m4") three_rows_db).1).1.
Proof.
  apply (X5_mark_commutes_with_transaction (H := plain_runtime) "u1" "primary"
           (healthy_tx 3) (demo_meta "m4") None 1700000001 0 2 three_rows_db).
  vm_compute. discriminate.
Defined.

(* --------------------------------------------------------------------- *)
(* The outbox dispatcher.                                                *)
(* --------------------------------------------------------------------- *)

Lemma update_outbox_same (id : Z) (db : sqlite.DB) :
  sqlite.update_outbox id (λ r, r) db = db.
Proof.
  destruct db as [ss ev ob sq]. unfold sqlite.update_outbox. simpl. f_equal.
  induction ob as [|r ob IH]; [done|]. rewrite fmap_cons, IH. by case_bool_decide.
Qed.

(** The step for one message is an update of the rows with its id that
    keeps the write-once columns and never unpublishes. *)
Lemma ship_one_update (env : nat → sync.ShipEnv) (k : nat)
    (msg : sqlite.OutboxMessage) (db : sqlite.DB) :
  ∃ f, (∀ r, ob_core (f r) = ob_core r) ∧
       (∀ r, is_Some (sqlite.ob_published_at r) →
             is_Some (sqlite.ob_published_at (f r))) ∧
       ship_one env k msg db = sqlite.update_outbox (sqlite.ID msg) f db.
Proof.
  unfold ship_one, sqlite.MarkOutboxRetry, sqlite.MarkPublished.
  destruct (sync.publish_err (env k)), (sync.mark_err (env k)); simpl.
  - exists (λ r, r). by rewrite update_outbox_same.
  - by eexists (sqlite.set_retry _).
  - exists (λ r, r). by rewrite update_outbox_same.
  - eexists (sqlite.set_published _). split; [done|]. split; [|done].
    intros r _. by eexists.
Qed.

Lemma shipAll_cons (env : nat → sync.ShipEnv) (k : nat) (msg : sqlite.OutboxMessage)
    (rest : list sqlite.OutboxMessage) (db : sqlite.DB) :
  sync.shipAll env k (msg :: rest) db
  = ((sync.shipAll env (S k) rest (ship_one env k msg db)).1,
     {| sync.pub_message := msg;
        sync.pub_acked := bool_decide (sync.publish_err (env k) = None) |}
       :: (sync.shipAll env (S k) rest (ship_one env k msg db)).2).
Proof.
  cbn [sync.shipAll]. unfold ship_one.
  destruct (sync.publish_err (env k)); simpl;
    by destruct (sync.shipAll env (S k) rest _).
Qed.

Lemma shipAll_messages (env : nat → sync.ShipEnv) (msgs : list sqlite.OutboxMessage) :
  ∀ k db, sync.pub_message <$> (sync.shipAll env k msgs db).2 = msgs.
Proof.
  induction msgs as [|msg rest IH]; intros k db; [done|].
  rewrite shipAll_cons. simpl. by rewrite IH.
Qed.

Lemma core_id (f : sqlite.OutboxRow → sqlite.OutboxRow) :
  (∀ r, ob_core (f r) = ob_core r) → ∀ r, sqlite.ob_id (f r) = sqlite.ob_id r.
Proof. intros Hf r. specialize (Hf r). unfold ob_core in Hf. congruence. Qed.

Lemma shipAll_wf (env : nat → sync.ShipEnv) (msgs : list sqlite.OutboxMessage) :
  ∀ k db, outbox_wf db → outbox_wf (sync.shipAll env k msgs db).1.
Proof.
  induction msgs as [|msg rest IH]; intros k db Hwf; [done|].
  rewrite shipAll_cons. simpl. apply IH.
  destruct (ship_one_update env k msg db) as (f & Hcore & _ & ->).
  apply update_outbox_wf; [by apply core_id|done].
Qed.

Lemma shipAll_published (env : nat → sync.ShipEnv) (msgs : list sqlite.OutboxMessage)
    (id : Z) :
  ∀ k db, published id db → published id (sync.shipAll env k msgs db).1.
Proof.
  induction msgs as [|msg rest IH]; intros k db Hp; [done|].
  rewrite shipAll_cons. simpl. apply IH.
  destruct (ship_one_update env k msg db) as (f & Hcore & Hpub & ->).
  apply update_outbox_published; [by apply core_id|done|done].
Qed.

Lemma shipAll_untouched (env : nat → sync.ShipEnv) (msgs : list sqlite.OutboxMessage)
    (r : sqlite.OutboxRow) :
  ∀ k db, r ∈ sqlite.outbox db → sqlite.ob_id r ∉ sqlite.ID <$> msgs →
          r ∈ sqlite.outbox (sync.shipAll env k msgs db).1.
Proof.
  induction msgs as [|msg rest IH]; intros k db Hr Hid; [done|].
  rewrite shipAll_cons. simpl. simpl in Hid.
  apply not_elem_of_cons in Hid as [Hne Hid]. apply IH; [|done].
  destruct (ship_one_update env k msg db) as (f & _ & _ & ->).
  simpl. apply list_elem_of_fmap. exists r. by rewrite bool_decide_false.
Qed.

Lemma shipAll_frame (env : nat → sync.ShipEnv) (msgs : list sqlite.OutboxMessage) :
  ∀ k db,
    let db' := (sync.shipAll env k msgs db).1 in
    sqlite.provider_sync_state db' = sqlite.provider_sync_state db ∧
    sqlite.email_received_events db' = sqlite.email_received_events db ∧
    sqlite.outbox_seq db' = sqlite.outbox_seq db ∧
    ob_core <$> sqlite.outbox db' = ob_core <$> sqlite.outbox db.
Proof.
  induction msgs as [|msg rest IH]; intros k db; [done|].
  rewrite shipAll_cons. simpl.
  destruct (IH (S k) (ship_one env k msg db)) as (-> & -> & -> & ->).
  destruct (ship_one_update env k msg db) as (f & Hcore & _ & ->). simpl.
  repeat split; try done.
  rewrite <- list_fmap_compose. apply list_fmap_ext.
  intros i r _. simpl. by case_bool_decide.
Qed.

Lemma dispatchCycle_cases (e : sync.CycleEnv) (db : sqlite.DB) :
  let msgs := (sqlite.DequeueOutbox (sync.dq_query e) (sync.dq_scan e)
                 (sync.dq_stop e) (sync.dq_clock e / sqlite.Second) 100 db).1 in
  (sync.dispatchCycle e db).1
  = ((sync.shipAll (sync.ship e) O msgs db).1, (sync.shipAll (sync.ship e) O msgs db).2) ∨
  (sync.dispatchCycle e db).1 = (db, []).
Proof.
  unfold sync.dispatchCycle.
  destruct (sqlite.DequeueOutbox _ _ _ _ _ _) as [msgs [err|]]; simpl; [by right|].
  destruct msgs as [|m ms]; [by right|]. left.
  by destruct (sync.shipAll _ _ _ _).
Qed.

(** X6. The dispatcher never touches the sync state, the event log or
    the AUTOINCREMENT counter, never adds or removes an outbox row, never
    changes a row's id, timestamp, subject, event type, payload or
    msg_id, and never unpublishes a row: whatever the publisher and the
    store answer, over any number of turns of its loop. *)
Theorem X6_dispatcher_frame (cycles : list sync.CycleEnv) (db : sqlite.DB) :
  let db' := (sync.dispatchLoop cycles db).1 in
  sqlite.provider_sync_state db' = sqlite.provider_sync_state db ∧
  sqlite.email_received_events db' = sqlite.email_received_events db ∧
  sqlite.outbox_seq db' = sqlite.outbox_seq db ∧
  ob_core <$> sqlite.outbox db' = ob_core <$> sqlite.outbox db ∧
  ∀ id, published id db → published id db'.
Proof.
  revert db. induction cycles as [|e rest IH]; intros db; simpl; [done|].
  destruct (sync.dispatchCycle e db) as [[db1 log1] nap] eqn:Ecycle.
  assert (sqlite.provider_sync_state db1 = sqlite.provider_sync_state db ∧
          sqlite.email_received_events db1 = sqlite.email_received_events db ∧
          sqlite.outbox_seq db1 = sqlite.outbox_seq db ∧
          ob_core <$> sqlite.outbox db1 = ob_core <$> sqlite.outbox db ∧
          ∀ id, published id db → published id db1) as (H1 & H2 & H3 & H4 & H5).
  { pose proof (dispatchCycle_cases e db) as Hcases. rewrite Ecycle in Hcases.
    simpl in Hcases. destruct Hcases as [Hc|Hc]; injection Hc as -> _; [|done].
    destruct (shipAll_frame (sync.ship e)
                (sqlite.DequeueOutbox (sync.dq_query e) (sync.dq_scan e)
                   (sync.dq_stop e) (sync.dq_clock e / sqlite.Second) 100 db).1
                O db) as (? & ? & ? & ?).
    repeat split; try done. intros id Hp. by apply shipAll_published. }
  specialize (IH db1). destruct (sync.dispatchLoop rest db1) as [db2 log2].
  simpl in *. destruct IH as (I1 & I2 & I3 & I4 & I5).
  repeat split; try congruence. intros id Hp. by apply I5, H5.
Qed.

Lemma dequeue_healthy (e : sync.CycleEnv) (db : sqlite.DB) :
  outbox_wf db →
  sync.dq_query e = None → sync.dq_scan e = None → sync.dq_stop e = None →
  sqlite.DequeueOutbox (sync.dq_query e) (sync.dq_scan e) (sync.dq_stop e)
    (sync.dq_clock e / sqlite.Second) 100 db
  = (sqlite.to_message <$>
       take 100 (ready_rows (sync.dq_clock e / sqlite.Second) db), None).
Proof.
  intros Hwf -> -> ->. unfold sqlite.DequeueOutbox.
  rewrite select_ready_sorted by (done || lia).
  change (Z.to_nat 100) with 100%nat. unfold ready_rows.
  by destruct (take 100 _).
Qed.

Lemma dispatchCycle_batch (e : sync.CycleEnv) (db : sqlite.DB) :
  outbox_wf db →
  sync.dq_query e = None → sync.dq_scan e = None → sync.dq_stop e = None →
  (sync.dispatchCycle e db).1
  = sync.shipAll (sync.ship e) O
      (sqlite.to_message <$>
         take 100 (ready_rows (sync.dq_clock e / sqlite.Second) db)) db.
Proof.
  intros Hwf Hq Hs Hst. unfold sync.dispatchCycle.
  rewrite dequeue_healthy by done.
  destruct (take 100 _) as [|r rs]; [done|]. simpl fmap.
  by destruct (sync.shipAll _ _ _ _).
Qed.

Lemma ids_of_messages (rows : list sqlite.OutboxRow) :
  sqlite.ID <$> (sqlite.to_message <$> rows) = sqlite.ob_id <$> rows.
Proof. rewrite <- list_fmap_compose. by apply list_fmap_ext. Qed.

Lemma shipAll_log (env : nat → sync.ShipEnv) (b : bool)
    (rows : list sqlite.OutboxRow) :
  (∀ k, bool_decide (sync.publish_err (env k) = None) = b) →
  ∀ k db, (sync.shipAll env k (sqlite.to_message <$> rows) db).2
          = publication b <$> rows.
Proof.
  intros Hb. induction rows as [|r rows IH]; intros k db; [done|].
  rewrite fmap_cons, shipAll_cons. simpl. by rewrite IH, Hb.
Qed.

(** With a healthy publisher and store, a row of the batch ends up
    published and a row outside it is left as it is. *)
Lemma shipAll_healthy_rows (env : nat → sync.ShipEnv)
    (msgs : list sqlite.OutboxMessage) :
  (∀ k, sync.publish_err (env k) = None ∧ sync.mark_err (env k) = None) →
  ∀ k db,
    Forall2 (λ r r', if decide (sqlite.ob_id r ∈ sqlite.ID <$> msgs)
                     then is_Some (sqlite.ob_published_at r') else r' = r)
            (sqlite.outbox db) (sqlite.outbox (sync.shipAll env k msgs db).1).
Proof.
  intros Henv. induction msgs as [|msg rest IH]; intros k db.
  - apply Forall_Forall2_diag, Forall_forall. intros r _.
    destruct (decide _) as [Hin|]; [|done].
    rewrite fmap_nil in Hin. by apply elem_of_nil in Hin.
  - rewrite shipAll_cons. simpl fst.
    specialize (IH (S k) (ship_one env k msg db)).
    assert (ship_one env k msg db
            = sqlite.update_outbox (sqlite.ID msg)
                (sqlite.set_published (sync.mark_clock (env k) / sqlite.Second)) db)
      as Hone.
    { unfold ship_one, sqlite.MarkPublished. by destruct (Henv k) as [-> ->]. }
    rewrite Hone in IH |- *. simpl in IH.
    apply Forall2_fmap_l in IH. eapply Forall2_impl; [exact IH|].
    intros r r' Hrel. simpl in Hrel. rewrite fmap_cons.
    destruct (decide (sqlite.ob_id r = sqlite.ID msg)) as [Heq|Hne].
    + rewrite bool_decide_true in Hrel by done.
      rewrite decide_True by (rewrite Heq; left). simpl in Hrel.
      case_decide; [done|]. subst r'. by eexists.
    + rewrite bool_decide_false in Hrel by done.
      destruct (decide (sqlite.ob_id r ∈ sqlite.ID <$> rest)) as [Hin|Hnin].
      * rewrite decide_True by (by right). done.
      * rewrite decide_False; [done|]. by apply not_elem_of_cons.
Qed.

Lemma filter_ready_after (now : Z) (ids : list Z) (l l' : list sqlite.OutboxRow) :
  Forall2 (λ r r', if decide (sqlite.ob_id r ∈ ids)
                   then is_Some (sqlite.ob_published_at r') else r' = r) l l' →
  filter (λ r, sqlite.ready now r = true) l'
  = filter (λ r, sqlite.ob_id r ∉ ids)
      (filter (λ r, sqlite.ready now r = true) l).
Proof.
  induction 1 as [|r r' l l' Hrel _ IH]; [done|].
  rewrite !filter_cons. case_decide as Hin.
  - rewrite decide_False.
    + rewrite IH. case_decide; [|done]. by rewrite filter_cons, decide_False by auto.
    + intros Hready. apply ready_unpublished in Hready as [Hnone _].
      rewrite Hnone in Hrel. by destruct Hrel.
  - subst r'. case_decide; [|done].
    by rewrite filter_cons, decide_True, IH by done.
Qed.

Lemma filter_iff_in {A : Type} (P1 P2 : A → Prop)
    `{!∀ x, Decision (P1 x), !∀ x, Decision (P2 x)} (l : list A) :
  (∀ x, x ∈ l → P1 x ↔ P2 x) → filter P1 l = filter P2 l.
Proof.
  induction l as [|a l IH]; intros Hiff; [done|].
  rewrite !filter_cons, IH by (intros x Hx; apply Hiff; by right).
  apply decide_ext, Hiff. by left.
Qed.

Lemma filter_out_taken (n : nat) (l : list sqlite.OutboxRow) :
  StronglySorted id_lt l →
  filter (λ r, sqlite.ob_id r ∉ sqlite.ob_id <$> take n l) l = drop n l.
Proof.
  revert n. induction l as [|x l IH]; intros n Hs; [by destruct n|].
  apply StronglySorted_cons in Hs as [Hall Hs]. rewrite Forall_forall in Hall.
  destruct n as [|n]; simpl.
  - rewrite filter_cons, decide_True by apply not_elem_of_nil.
    f_equal. specialize (IH O Hs). simpl in IH. rewrite drop_0 in IH. done.
  - rewrite filter_cons, decide_False by (intros Hn; apply Hn; left).
    rewrite <- (IH n Hs). apply filter_iff_in.
    intros r Hr. rewrite not_elem_of_cons. split; [tauto|].
    intros Hn. split; [|done]. specialize (Hall r Hr). unfold id_lt in Hall. lia.
Qed.

Lemma ready_rows_sorted (now : Z) (db : sqlite.DB) :
  outbox_wf db → StronglySorted id_lt (ready_rows now db).
Proof. intros [Hs _]. by apply sorted_filter. Qed.

(** X7. A turn of the dispatcher with a healthy publisher and store
    publishes the first 100 ready rows in the order of their ids, marks
    each of them published, and leaves as ready rows exactly the ones
    after the first 100: n ready rows are shipped in ceil(n/100) turns. *)
Theorem X7_healthy_cycle_ships_batch (e : sync.CycleEnv) (db : sqlite.DB) :
  outbox_wf db →
  sync.dq_query e = None → sync.dq_scan e = None → sync.dq_stop e = None →
  (∀ k, sync.publish_err (sync.ship e k) = None ∧
        sync.mark_err (sync.ship e k) = None) →
  let now := sync.dq_clock e / sqlite.Second in
  let batch := take 100 (ready_rows now db) in
  let db' := (sync.dispatchCycle e db).1.1 in
  (sync.dispatchCycle e db).1.2 = publication true <$> batch ∧
  (∀ r, r ∈ batch → published (sqlite.ob_id r) db') ∧
  ready_rows now db' = drop 100 (ready_rows now db).
Proof.
  intros Hwf Hq Hs Hst Henv now batch db'. subst db'.
  rewrite (dispatchCycle_batch e db Hwf Hq Hs Hst). fold now. fold batch.
  pose proof (shipAll_healthy_rows (sync.ship e) (sqlite.to_message <$> batch)
                Henv O db) as Hrows.
  rewrite ids_of_messages in Hrows.
  split; [|split].
  - apply shipAll_log. intros k. destruct (Henv k) as [-> _]. done.
  - intros r Hr.
    assert (r ∈ sqlite.outbox db) as Hin.
    { apply (subseteq_take 100) in Hr. by apply list_elem_of_filter in Hr as [_ ?]. }
    apply list_elem_of_lookup in Hin as [i Hi].
    destruct (Forall2_lookup_l _ _ _ _ _ Hrows Hi) as (r' & Hi' & Hrel).
    rewrite decide_True in Hrel by (by apply list_elem_of_fmap_2).
    exists r'. split; [by eapply list_elem_of_lookup_2|]. split; [|done].
    pose proof (shipAll_frame (sync.ship e) (sqlite.to_message <$> batch) O db)
      as (_ & _ & _ & Hcore).
    apply (f_equal (λ l, l !! i)) in Hcore.
    rewrite !list_lookup_fmap, Hi, Hi' in Hcore. simpl in Hcore.
    unfold ob_core in Hcore. congruence.
  - unfold ready_rows at 1.
    rewrite (filter_ready_after now (sqlite.ob_id <$> batch) _ _ Hrows).
    apply filter_out_taken, ready_rows_sorted, Hwf.
Qed.

Lemma X7_witness :
  let db' := (sync.dispatchCycle healthy_cycle three_rows_db).1.1 in
  sqlite.MsgID ∘ sync.pub_message <$> (sync.dispatchCycle healthy_cycle three_rows_db).1.2
    = ["email.received|GOOGLE|m1"; "email.received|GOOGLE|m2";
       "email.received|GOOGLE|m3"] ∧
  ready_rows 1700000005 db' = [].
Proof.
  intros db'.
  destruct (X7_healthy_cycle_ships_batch healthy_cycle three_rows_db
              three_rows_wf eq_refl eq_refl eq_refl ltac:(by intros k))
    as (Hlog & _ & Hready).
  split.
  - rewrite Hlog. vm_compute. reflexivity.
  - change (sync.dq_clock healthy_cycle / sqlite.Second) with 1700000005 in Hready.
    fold db' in Hready. rewrite Hready. vm_compute. reflexivity.
Defined.

Lemma update_outbox_keeps_published (id : Z) (f : sqlite.OutboxRow → sqlite.OutboxRow)
    (db : sqlite.DB) (id' : Z) :
  (∀ r, sqlite.ob_id (f r) = sqlite.ob_id r) →
  (∀ r, sqlite.ob_published_at (f r) = sqlite.ob_published_at r) →
  published id' (sqlite.update_outbox id f db) → published id' db.
Proof.
  intros Hid Hpub (r' & Hr' & Heq & Hp). simpl in Hr'.
  apply list_elem_of_fmap in Hr' as (r & -> & Hr).
  exists r. split; [done|].
  case_bool_decide; rewrite ?Hid, ?Hpub in *; done.
Qed.

Section OfflineCycle.
Variable env : nat → sync.ShipEnv.
Hypothesis Hoff : ∀ k, is_Some (sync.publish_err (env k)) ∧ sync.mark_err (env k) = None.

Lemma ship_one_offline (k : nat) (msg : sqlite.OutboxMessage) (db : sqlite.DB) :
  ship_one env k msg db
  = sqlite.update_outbox (sqlite.ID msg)
      (sqlite.set_retry ((sync.mark_clock (env k) + 10 * sqlite.Second) / sqlite.Second))
      db.
Proof.
  unfold ship_one, sqlite.MarkOutboxRetry.
  destruct (Hoff k) as [[x ->] ->]. done.
Qed.

Lemma shipAll_offline_published (msgs : list sqlite.OutboxMessage) (id : Z) :
  ∀ k db, published id (sync.shipAll env k msgs db).1 → published id db.
Proof.
  induction msgs as [|msg rest IH]; intros k db; [done|].
  rewrite shipAll_cons. simpl. intros Hp. apply IH in Hp.
  rewrite ship_one_offline in Hp.
  by apply update_outbox_keeps_published in Hp.
Qed.

Lemma shipAll_offline_rows (rows : list sqlite.OutboxRow) :
  ∀ k db,
    StronglySorted id_lt rows →
    (∀ r, r ∈ rows → r ∈ sqlite.outbox db) →
    ∀ j r, rows !! j = Some r →
      sqlite.set_retry
        ((sync.mark_clock (env (k + j)) + 10 * sqlite.Second) / sqlite.Second) r
      ∈ sqlite.outbox (sync.shipAll env k (sqlite.to_message <$> rows) db).1.
Proof.
  induction rows as [|x rows IH]; intros k db Hs Hin j r Hj; [done|].
  apply StronglySorted_cons in Hs as [Hall Hs]. rewrite Forall_forall in Hall.
  rewrite fmap_cons, shipAll_cons. simpl fst. rewrite ship_one_offline.
  destruct j as [|j]; simpl in Hj.
  - injection Hj as ->. rewrite Nat.add_0_r.
    apply shipAll_untouched.
    + simpl. apply list_elem_of_fmap. exists r.
      rewrite bool_decide_true by done. split; [done|]. apply Hin. by left.
    + simpl. rewrite ids_of_messages. intros Hid.
      apply list_elem_of_fmap in Hid as (y & Heq & Hy).
      specialize (Hall y Hy). unfold id_lt in Hall. lia.
  - replace (k + S j)%nat with (S k + j)%nat by lia.
    apply IH; [done| |done].
    intros y Hy. simpl. apply list_elem_of_fmap. exists y.
    rewrite bool_decide_false.
    + split; [done|]. apply Hin. by right.
    + simpl. specialize (Hall y Hy). unfold id_lt in Hall. lia.
Qed.

End OfflineCycle.

(** X8. A turn of the dispatcher while the bus refuses every publish
    attempts the first 100 ready rows in the order of their ids, publishes
    none, and gives each of them one more retry and a next attempt 10 s
    after the moment it was marked; no row becomes published. *)
Theorem X8_offline_cycle_defers_batch (e : sync.CycleEnv) (db : sqlite.DB) :
  outbox_wf db →
  sync.dq_query e = None → sync.dq_scan e = None → sync.dq_stop e = None →
  (∀ k, is_Some (sync.publish_err (sync.ship e k)) ∧
        sync.mark_err (sync.ship e k) = None) →
  let now := sync.dq_clock e / sqlite.Second in
  let batch := take 100 (ready_rows now db) in
  let db' := (sync.dispatchCycle e db).1.1 in
  (sync.dispatchCycle e db).1.2 = publication false <$> batch ∧
  (∀ k r, batch !! k = Some r →
     sqlite.set_retry
       ((sync.mark_clock (sync.ship e k) + 10 * sqlite.Second) / sqlite.Second) r
     ∈ sqlite.outbox db') ∧
  (∀ id, published id db' → published id db).
Proof.
  intros Hwf Hq Hs Hst Henv now batch db'. subst db'.
  rewrite (dispatchCycle_batch e db Hwf Hq Hs Hst). fold now. fold batch.
  split; [|split].
  - apply shipAll_log. intros k. destruct (Henv k) as [[x ->] _]. done.
  - intros k r Hk.
    apply (shipAll_offline_rows (sync.ship e) Henv batch O db); [| |done].
    + pose proof (ready_rows_sorted now db Hwf) as Hsorted.
      rewrite <- (take_drop 100 (ready_rows now db)) in Hsorted.
      by apply StronglySorted_app_1_l in Hsorted.
    + intros y Hy. apply (subseteq_take 100) in Hy.
      by apply list_elem_of_filter in Hy as [_ ?].
  - intros id. by apply shipAll_offline_published.
Qed.

Lemma X8_witness :
  let db' := (sync.dispatchCycle offline_cycle three_rows_db).1.1 in
  sqlite.ob_retries <$> sqlite.outbox db' = [1; 1; 1] ∧
  sqlite.ob_next_attempt_at <$> sqlite.outbox db'
    = [Some 1700000015; Some 1700000015; Some 1700000015] ∧
  ∀ id, ¬ published id db'.
Proof.
  intros db'.
  destruct (X8_offline_cycle_defers_batch offline_cycle three_rows_db
              three_rows_wf eq_refl eq_refl eq_refl
              ltac:(intros k; split; [by eexists|done]))
    as (_ & _ & Hnone).
  split; [vm_compute; reflexivity|]. split; [vm_compute; reflexivity|].
  intros id Hp. apply Hnone in Hp. destruct Hp as (r & Hr & _ & Hpub).
  vm_compute in Hr.
  repeat (apply elem_of_cons in Hr as [->|Hr]; [by destruct Hpub|]).
  by apply elem_of_nil in Hr.
Defined.

(* --------------------------------------------------------------------- *)
(* The sync-state table.                                                 *)
(* --------------------------------------------------------------------- *)


(** X10. A successful SaveCheckpoint after an error does not clear the
    error: the row shows the new cursor and the new status, and still the
    last error message and the raised retry count; the inbox id of the row
    is the one it was created with, whatever the save passes. *)
Theorem X10_error_survives_success (t1 t2 t3 : Z)
    (provider inboxID cursor msg : string) (db : sqlite.DB) (row : sqlite.SyncState) :
  sqlite.provider_sync_state db !! provider = Some row →
  msg ≠ "" →
  let db1 := (sqlite.UpdateSyncStatus None t1 provider "ERROR" msg db).1 in
  let db2 := (sqlite.SaveCheckpoint None t2 t3 provider inboxID cursor "HOOKED" db1).1 in
  sqlite.provider_sync_state db2 !! provider
  = Some {| sqlite.ss_inbox_id := sqlite.ss_inbox_id row;
            sqlite.ss_cursor := Some cursor;
            sqlite.ss_last_synced_at := Some t2;
            sqlite.ss_status := Some "HOOKED";
            sqlite.ss_last_error := Some msg;
            sqlite.ss_retry_count := sqlite.ss_retry_count row + 1;
            sqlite.ss_updated_at := Some t3 |}.
Proof.
  intros Hrow Hmsg db1 db2. subst db1 db2. simpl.
  unfold sqlite.upsert_sync_state. simpl.
  rewrite lookup_insert_eq, lookup_alter_eq, Hrow. simpl.
  by rewrite bool_decide_true.
Qed.

Lemma X10_witness :
  let db1 := (sqlite.UpdateSyncStatus None 1700000030 "GOOGLE" "ERROR" "boom"
                (db_with "9" "HOOKED" None)).1 in
  let db2 := (sqlite.SaveCheckpoint None 1700000060 1700000060 "GOOGLE" "inbox"
                "12" "HOOKED" db1).1 in
  sqlite.stored_status "GOOGLE" db2 = Some "HOOKED" ∧
  sqlite.stored_error "GOOGLE" db2 = Some "boom".
Proof.
  intros db1 db2. subst db1 db2.
  unfold sqlite.stored_status, sqlite.stored_error.
  erewrite (X10_error_survives_success 1700000030 1700000060 1700000060
              "GOOGLE" "inbox" "12" "boom" (db_with "9" "HOOKED" None));
    [done|vm_compute; reflexivity|done].
Defined.

(** X11. UpdateSyncStatus for a provider that has no row writes nothing
    and reports no error of its own: the status and the message are
    lost. *)
Theorem X11_status_without_row_is_lost (exec : option string) (now : Z)
    (provider status msg : string) (db : sqlite.DB) :
  sqlite.provider_sync_state db !! provider = None →
  sqlite.UpdateSyncStatus exec now provider status msg db = (db, exec).
Proof.
  intros Hnone. unfold sqlite.UpdateSyncStatus. destruct exec; [done|].
  rewrite alter_id' by done. by destruct db.
Qed.

Lemma X11_witness :
  sqlite.UpdateSyncStatus None 1700000030 "GOOGLE" "ERROR" "boom" sqlite.empty_db
  = (sqlite.empty_db, None).
Proof. apply X11_status_without_row_is_lost. reflexivity. Defined.

(* --------------------------------------------------------------------- *)
(* The manager's keys, and the endpoints over the manager.               *)
(* --------------------------------------------------------------------- *)

Lemma append_cons_l (x : ascii) (a b : string) :
  String x a +:+ b = String x (a +:+ b).
Proof. reflexivity. Qed.

Lemma append_nil_l (b : string) : "" +:+ b = b.
Proof. reflexivity. Qed.

Lemma append_assoc (a b c : string) : (a +:+ b) +:+ c = a +:+ (b +:+ c).
Proof.
  induction a as [|x a IH]; [done|]. by rewrite !append_cons_l, IH.
Qed.

Lemma colon_split (u1 u2 r1 r2 : string) :
  colon_free u1 → colon_free u2 →
  u1 +:+ ":" +:+ r1 = u2 +:+ ":" +:+ r2 → u1 = u2 ∧ r1 = r2.
Proof.
  revert u2. induction u1 as [|c u1 IH]; intros [|c2 u2];
    rewrite ?append_cons_l, ?append_nil_l; simpl; intros H1 H2 Heq.
  - by injection Heq.
  - injection Heq as Hc _. destruct H2 as [H2 _]. by subst c2.
  - injection Heq as Hc _. destruct H1 as [H1 _]. by subst c.
  - injection Heq as -> Heq. destruct H1 as [_ H1], H2 as [_ H2].
    destruct (IH u2 H1 H2 Heq) as [-> ->]. done.
Qed.

Lemma append_cons_nonempty (a : string) (c : ascii) (b : string) :
  a +:+ String c b ≠ "".
Proof. destruct a; [rewrite append_nil_l|rewrite append_cons_l]; discriminate. Qed.

(** X12. The manager's key determines the triple as long as user id and
    inbox id hold no colon: two such triples have the same key exactly
    when they are the same triple. *)
Theorem X12_key_determines_triple (u1 i1 u2 i2 : string)
    (p1 p2 : sync.ProviderName) :
  colon_free u1 → colon_free i1 → colon_free u2 → colon_free i2 →
  sync.key_of u1 i1 p1 = sync.key_of u2 i2 p2 ↔ u1 = u2 ∧ i1 = i2 ∧ p1 = p2.
Proof.
  intros Hu1 Hi1 Hu2 Hi2. split.
  - intros Heq. unfold sync.key_of in Heq.
    apply colon_split in Heq as [-> Heq]; [|done|done].
    apply colon_split in Heq as [-> ->]; done.
  - by intros (-> & -> & ->).
Qed.

Lemma X12_witness :
  sync.key_of "u1" "primary" "GOOGLE" = sync.key_of "u2" "primary" "GOOGLE"
  ↔ "u1" = "u2" ∧ "primary" = "primary" ∧ "GOOGLE" = "GOOGLE".
Proof. apply X12_key_determines_triple; simpl; repeat split; discriminate. Defined.

Lemma StartSync_success (token : result unit) (adapter : result sync.MailProvider)
    (config : sync.InboxConfig) (m m' : sync.Manager) :
  sync.StartSync token adapter config m = (m', None) →
  let key := sync.key_of (sync.cfg_UserID config) (sync.cfg_InboxID config)
               (sync.cfg_Provider config) in
  sync.runners m !! key = None ∧
  known_provider (sync.cfg_Provider config) ∧
  m' = {| sync.runners := <[key := sync.launched m]> (sync.runners m);
          sync.launched := S (sync.launched m);
          sync.cancelled := sync.cancelled m |}.
Proof.
  intros Hstart key. unfold sync.StartSync in Hstart. fold key in Hstart.
  destruct (sync.runners m !! key) as [h|] eqn:Hkey; [discriminate|].
  destruct (negb _) eqn:Hprov; [discriminate|].
  destruct token as [?|?]; [|discriminate].
  destruct adapter as [?|?]; [|discriminate].
  injection Hstart as <-. split; [done|]. split; [|done].
  apply negb_false_iff, orb_true_iff in Hprov as [Hp|Hp];
    apply bool_decide_eq_true in Hp; [by left|by right].
Qed.

Lemma StartSync_fresh (ad : sync.MailProvider) (config : sync.InboxConfig)
    (m : sync.Manager) :
  let key := sync.key_of (sync.cfg_UserID config) (sync.cfg_InboxID config)
               (sync.cfg_Provider config) in
  sync.runners m !! key = None →
  known_provider (sync.cfg_Provider config) →
  sync.StartSync (Ok ()) (Ok ad) config m
  = ({| sync.runners := <[key := sync.launched m]> (sync.runners m);
        sync.launched := S (sync.launched m);
        sync.cancelled := sync.cancelled m |}, None).
Proof.
  intros key Hkey Hp. unfold sync.StartSync. fold key. rewrite Hkey.
  assert (bool_decide (sync.cfg_Provider config = sync.ProviderGoogle)
          || bool_decide (sync.cfg_Provider config = sync.ProviderMicrosoft) = true)
    as ->; [|done].
  apply orb_true_iff. destruct Hp as [Hp|Hp]; [left|right];
    by apply bool_decide_eq_true.
Qed.

Lemma StopSync_present (userID inboxID : string) (p : sync.ProviderName)
    (m : sync.Manager) (h : nat) :
  sync.runners m !! sync.key_of userID inboxID p = Some h →
  sync.StopSync userID inboxID p m
  = ({| sync.runners := delete (sync.key_of userID inboxID p) (sync.runners m);
        sync.launched := sync.launched m;
        sync.cancelled := {[h]} ∪ sync.cancelled m |}, None).
Proof. intros Hh. unfold sync.StopSync. by rewrite Hh. Qed.

Lemma running_listed (m : sync.Manager) (k : string) :
  k ∈ sync.GetRunningSyncs m ↔ is_Some (sync.runners m !! k).
Proof.
  unfold sync.GetRunningSyncs. rewrite list_elem_of_fmap. split.
  - intros ([k' h] & -> & Hin). apply elem_of_map_to_list in Hin. by exists h.
  - intros [h Hh]. exists (k, h). split; [done|]. by apply elem_of_map_to_list.
Qed.

Lemma IsRunning_lookup (u i : string) (p : sync.ProviderName) (m : sync.Manager) :
  sync.IsRunning u i p m = true ↔ is_Some (sync.runners m !! sync.key_of u i p).
Proof. unfold sync.IsRunning. apply bool_decide_eq_true. Qed.

(** X13. With a colon in the user id the key stops telling triples apart:
    once the sync of (a:b, i, p) runs, the manager reports (a, b:i, p) as
    running, refuses to start it, and a stop of (a, b:i, p) cancels the
    runner of (a:b, i, p). *)
Theorem X13_colon_ids_share_runner (a b i jwt : string) (p : sync.ProviderName)
    (token : result unit) (adapter : result sync.MailProvider)
    (m m' : sync.Manager) :
  sync.StartSync token adapter
    {| sync.cfg_UserID := a +:+ ":" +:+ b; sync.cfg_InboxID := i;
       sync.cfg_Provider := p; sync.cfg_UserJWT := jwt |} m = (m', None) →
  let i' := b +:+ ":" +:+ i in
  sync.IsRunning a i' p m' = true ∧
  (∀ token' adapter' jwt',
     sync.StartSync token' adapter'
       {| sync.cfg_UserID := a; sync.cfg_InboxID := i';
          sync.cfg_Provider := p; sync.cfg_UserJWT := jwt' |} m'
     = (m', Some "sync already running")) ∧
  (sync.StopSync a i' p m').2 = None ∧
  sync.IsRunning (a +:+ ":" +:+ b) i p (sync.StopSync a i' p m').1 = false ∧
  sync.launched m ∈ sync.cancelled (sync.StopSync a i' p m').1.
Proof.
  intros Hstart i'.
  apply StartSync_success in Hstart as (Hnone & Hp & ->). simpl in *.
  assert (sync.key_of (a +:+ ":" +:+ b) i p = sync.key_of a i' p) as Hkey.
  { unfold sync.key_of, i'. by rewrite !append_assoc. }
  rewrite Hkey in *.
  split; [|split].
  - apply IsRunning_lookup. simpl. rewrite lookup_insert_eq. by eexists.
  - intros token' adapter' jwt'. unfold sync.StartSync. simpl.
    by rewrite lookup_insert_eq.
  - erewrite StopSync_present by (simpl; apply lookup_insert_eq). simpl.
    split; [done|]. split; [|set_solver].
    apply not_true_is_false. rewrite IsRunning_lookup. simpl.
    rewrite Hkey, lookup_delete_eq. by intros [? ?].
Qed.

Lemma X13_witness :
  sync.IsRunning "a" "b:primary" "GOOGLE"
    (sync.StartSync (Ok ()) (Ok (gmail.Adapter (H := plain_runtime)))
       {| sync.cfg_UserID := "a:b"; sync.cfg_InboxID := "primary";
          sync.cfg_Provider := "GOOGLE"; sync.cfg_UserJWT := "jwt" |}
       sync.NewManager).1 = true.
Proof.
  by destruct (X13_colon_ids_share_runner "a" "b" "primary" "jwt" "GOOGLE"
                 (Ok ()) (Ok (gmail.Adapter (H := plain_runtime)))
                 sync.NewManager _ eq_refl) as [Hrun _].
Defined.

(** X14. The goroutine of a runner deletes its key when the runner ends,
    whoever holds the key by then.  Start a sync, stop it, start it again,
    and let the first runner end: the key of the second runner is gone
    while the second runner was never cancelled.  The manager then reports
    the triple as not running, cannot stop it, starts a third runner for
    it, and StopAll cancels the third runner only. *)
Theorem X14_stale_exit_unregisters_successor (userID inboxID jwt : string)
    (p : sync.ProviderName) (ad1 ad2 ad3 : sync.MailProvider) (m : sync.Manager) :
  manager_inv m → known_provider p →
  sync.runners m !! sync.key_of userID inboxID p = None →
  let config := {| sync.cfg_UserID := userID; sync.cfg_InboxID := inboxID;
                   sync.cfg_Provider := p; sync.cfg_UserJWT := jwt |} in
  let key := sync.key_of userID inboxID p in
  let first := sync.launched m in
  let second := S first in
  let third := S second in
  let m1 := (sync.StartSync (Ok ()) (Ok ad1) config m).1 in
  let m2 := (sync.StopSync userID inboxID p m1).1 in
  let m3 := (sync.StartSync (Ok ()) (Ok ad2) config m2).1 in
  let m4 := sync.runnerExit key m3 in
  let m5 := (sync.StartSync (Ok ()) (Ok ad3) config m4).1 in
  sync.runners m3 !! key = Some second ∧
  first ∈ sync.cancelled m3 ∧
  sync.runners m4 = sync.runners m ∧
  (second ∉ sync.cancelled m4) ∧
  sync.IsRunning userID inboxID p m4 = false ∧
  sync.StopSync userID inboxID p m4 = (m4, Some ("no sync running for " +:+ key)) ∧
  (sync.StartSync (Ok ()) (Ok ad3) config m4).2 = None ∧
  sync.runners m5 !! key = Some third ∧
  (second ∉ sync.cancelled (sync.StopAll m5)) ∧
  third ∈ sync.cancelled (sync.StopAll m5).
Proof.
  intros (Hlive & Hinj & Hcan) Hp Hkey config key first second third.
  pose (M := λ rs l c, {| sync.runners := rs; sync.launched := l;
                          sync.cancelled := c |}).
  pose (c2 := ({[first]} ∪ sync.cancelled m : gset nat)).
  assert (sync.StartSync (Ok ()) (Ok ad1) config m
          = (M (<[key := first]> (sync.runners m)) second (sync.cancelled m), None))
    as E1 by (by rewrite (StartSync_fresh ad1 config m)).
  assert (sync.StopSync userID inboxID p
            (M (<[key := first]> (sync.runners m)) second (sync.cancelled m))
          = (M (sync.runners m) second c2, None)) as E2.
  { erewrite StopSync_present by (simpl; apply lookup_insert_eq). simpl.
    fold key. by rewrite delete_insert_id. }
  assert (∀ ad l, sync.StartSync (Ok ()) (Ok ad) config (M (sync.runners m) l c2)
                  = (M (<[key := l]> (sync.runners m)) (S l) c2, None)) as E3.
  { intros ad l. by rewrite (StartSync_fresh ad config). }
  assert (∀ h l, sync.runnerExit key (M (<[key := h]> (sync.runners m)) l c2)
                 = M (sync.runners m) l c2) as E4.
  { intros h l. unfold sync.runnerExit. simpl. by rewrite delete_insert_id. }
  assert (second ∉ c2) as Hsecond.
  { unfold c2. rewrite elem_of_union, elem_of_singleton.
    intros [?|Hin]; [unfold second in *; lia|].
    apply Hcan in Hin. unfold second, first in *. lia. }
  intros m1 m2 m3 m4 m5. subst m1 m2 m3 m4 m5.
  rewrite E1. cbn [fst]. rewrite E2. cbn [fst]. rewrite (E3 ad2 second).
  cbn [fst]. rewrite E4, (E3 ad3 (S second)). cbn [fst snd].
  change (sync.runners m !! key = None) in Hkey.
  split; [apply lookup_insert_eq|].
  split; [by apply elem_of_union_l, elem_of_singleton|].
  split; [done|]. split; [done|]. split.
  { apply not_true_is_false. rewrite IsRunning_lookup. simpl. fold key.
    rewrite Hkey. by intros [? ?]. }
  split. { unfold sync.StopSync. simpl. fold key. by rewrite Hkey. }
  split; [done|]. split; [apply lookup_insert_eq|].
  unfold sync.StopAll. simpl. split.
  - rewrite elem_of_union, elem_of_list_to_set, list_elem_of_fmap.
    intros [([k h] & Hh & Hin)|Hin]; [|done]. simpl in Hh. subst h.
    apply elem_of_map_to_list, lookup_insert_Some in Hin as [[_ Hin]|[_ Hin]].
    + unfold third in Hin. lia.
    + apply Hlive in Hin as [Hlt _]. unfold second, first in Hlt. lia.
  - apply elem_of_union_l, elem_of_list_to_set, list_elem_of_fmap.
    exists (key, third). split; [done|].
    apply elem_of_map_to_list, lookup_insert_eq.
Qed.

Lemma X14_witness :
  let config := demo_config in
  let m3 := (sync.StartSync (Ok ()) (Ok (gmail.Adapter (H := plain_runtime))) config
               (sync.StopSync "u1" "primary" "GOOGLE"
                  (sync.StartSync (Ok ()) (Ok (gmail.Adapter (H := plain_runtime)))
                     config sync.NewManager).1).1).1 in
  let m4 := sync.runnerExit (sync.key_of "u1" "primary" "GOOGLE") m3 in
  sync.runners m3 !! sync.key_of "u1" "primary" "GOOGLE" = Some 1%nat ∧
  sync.IsRunning "u1" "primary" "GOOGLE" m4 = false ∧
  1%nat ∉ sync.cancelled m4.
Proof.
  intros config m3 m4.
  destruct (X14_stale_exit_unregisters_successor "u1" "primary" "bearer" "GOOGLE"
              (gmail.Adapter (H := plain_runtime)) (gmail.Adapter (H := plain_runtime))
              (gmail.Adapter (H := plain_runtime)) sync.NewManager
              manager_inv_new ltac:(by left) ltac:(reflexivity))
    as (H3 & _ & _ & H4 & Hrun & _).
  split; [exact H3|]. split; [exact Hrun|exact H4].
Defined.

(** X15. A StartSync that returns nil found the key absent and the
    provider one of the two, registered the new runner under the key and
    touched nothing else: the other keys, the cancel functions called so
    far; GetRunningSyncs lists the old keys and the new one. *)
Theorem X15_start_registers_one_runner (token : result unit)
    (adapter : result sync.MailProvider) (config : sync.InboxConfig)
    (m m' : sync.Manager) :
  sync.StartSync token adapter config m = (m', None) →
  let key := sync.key_of (sync.cfg_UserID config) (sync.cfg_InboxID config)
               (sync.cfg_Provider config) in
  sync.runners m !! key = None ∧
  known_provider (sync.cfg_Provider config) ∧
  sync.runners m' !! key = Some (sync.launched m) ∧
  (∀ k, k ≠ key → sync.runners m' !! k = sync.runners m !! k) ∧
  sync.GetRunningSyncs m' ≡ₚ key :: sync.GetRunningSyncs m ∧
  sync.cancelled m' = sync.cancelled m ∧
  sync.launched m' = S (sync.launched m).
Proof.
  intros Hstart key.
  apply StartSync_success in Hstart as (Hnone & Hp & ->). fold key in Hnone |- *.
  simpl. split; [done|]. split; [done|].
  split; [apply lookup_insert_eq|].
  split; [by intros k Hk; apply lookup_insert_ne|].
  split; [|done]. unfold sync.GetRunningSyncs. simpl.
  by rewrite map_to_list_insert.
Qed.

Lemma X15_witness :
  sync.GetRunningSyncs
    (sync.StartSync (Ok ()) (Ok (gmail.Adapter (H := plain_runtime)))
       demo_config sync.NewManager).1
  ≡ₚ sync.key_of "u1" "primary" "GOOGLE" :: sync.GetRunningSyncs sync.NewManager.
Proof.
  by destruct (X15_start_registers_one_runner (Ok ())
                 (Ok (gmail.Adapter (H := plain_runtime))) demo_config
                 sync.NewManager _ eq_refl) as (_ & _ & _ & _ & Hlist & _).
Defined.

(** X16. A StopSync that returns nil called the cancel function that was
    registered under the key, and that one only, and took the key out of
    the map: GetRunningSyncs lists the keys it listed before less the
    key, and IsRunning answers for every other triple as before. *)
Theorem X16_stop_removes_one_runner (userID inboxID : string)
    (p : sync.ProviderName) (m m' : sync.Manager) :
  sync.StopSync userID inboxID p m = (m', None) →
  let key := sync.key_of userID inboxID p in
  (∃ h, sync.runners m !! key = Some h ∧
        sync.cancelled m' = {[h]} ∪ sync.cancelled m) ∧
  sync.GetRunningSyncs m ≡ₚ key :: sync.GetRunningSyncs m' ∧
  sync.IsRunning userID inboxID p m' = false ∧
  (∀ u i q, sync.key_of u i q ≠ key →
            sync.IsRunning u i q m' = sync.IsRunning u i q m) ∧
  sync.launched m' = sync.launched m.
Proof.
  intros Hstop key. unfold sync.StopSync in Hstop. fold key in Hstop.
  destruct (sync.runners m !! key) as [h|] eqn:Hkey; [|discriminate].
  injection Hstop as <-. simpl.
  split; [by exists h|]. split.
  { unfold sync.GetRunningSyncs. simpl.
    rewrite <- (insert_delete_id (sync.runners m) key h) at 1 by done.
    rewrite map_to_list_insert by apply lookup_delete_eq. done. }
  split.
  { apply not_true_is_false. rewrite IsRunning_lookup. simpl. fold key.
    rewrite lookup_delete_eq. by intros [? ?]. }
  split; [|done]. intros u i q Hne. unfold sync.IsRunning. simpl.
  by rewrite lookup_delete_ne.
Qed.

Lemma X16_witness :
  let m := sync.run_ops
             [sync.OpStart (Ok ()) (Ok (gmail.Adapter (H := plain_runtime)))
                demo_config] in
  sync.IsRunning "u1" "primary" "GOOGLE" (sync.StopSync "u1" "primary" "GOOGLE" m).1
  = false.
Proof.
  intros m.
  by destruct (X16_stop_removes_one_runner "u1" "primary" "GOOGLE" m _ eq_refl)
    as (_ & _ & Hoff & _).
Defined.

(* --------------------------------------------------------------------- *)
(* The mail endpoints of cmd/core.                                       *)
(* --------------------------------------------------------------------- *)

Lemma prefix_substring (u : string) : ∀ k,
  (String.length u < String.length k)%nat ∧
  String.substring 0 (String.length u) k = u
  ↔ ∃ rest, rest ≠ "" ∧ k = u +:+ rest.
Proof.
  induction u as [|c u IH]; intros k.
  - destruct k as [|c' k]; simpl.
    + split; [intros [? _]; lia|]. intros (rest & Hne & Heq).
      rewrite append_nil_l in Heq. by subst.
    + split; [|intros _; split; [lia|done]].
      intros _. exists (String c' k). by rewrite append_nil_l.
  - destruct k as [|c' k]; simpl.
    + split; [intros [? _]; lia|]. intros (rest & _ & Heq).
      rewrite append_cons_l in Heq. discriminate.
    + split.
      * intros [Hlen Heq]. injection Heq as -> Heq.
        destruct (proj1 (IH k)) as (rest & Hne & ->); [split; [lia|done]|].
        exists rest. by rewrite append_cons_l.
      * intros (rest & Hne & Heq). rewrite append_cons_l in Heq.
        injection Heq as -> ->.
        destruct (proj2 (IH (u +:+ rest))) as [Hlen Hsub]; [by exists rest|].
        split; [lia|by rewrite Hsub].
Qed.

Lemma mailStatus_elem (userID k : string) (m : sync.Manager) :
  k ∈ main.mailStatus userID m
  ↔ is_Some (sync.runners m !! k) ∧ ∃ rest, rest ≠ "" ∧ k = userID +:+ rest.
Proof.
  unfold main.mailStatus, main.userSyncs.
  rewrite list_elem_of_filter, prefix_substring, running_listed. tauto.
Qed.

(** X17. GET /mail/status answers with the running keys that begin with
    the caller's id and are longer: the caller's own syncs, and with them
    the syncs of every user whose id begins with the caller's id. *)
Theorem X17_status_lists_longer_ids (userID : string) (m : sync.Manager) :
  (∀ k, k ∈ main.mailStatus userID m
        ↔ k ∈ sync.GetRunningSyncs m ∧ ∃ rest, rest ≠ "" ∧ k = userID +:+ rest) ∧
  (∀ suffix i p,
     sync.IsRunning (userID +:+ suffix) i p m = true →
     sync.key_of (userID +:+ suffix) i p ∈ main.mailStatus userID m).
Proof.
  split.
  - intros k. by rewrite mailStatus_elem, running_listed.
  - intros suffix i p Hrun. apply mailStatus_elem.
    split; [by apply IsRunning_lookup|].
    exists (suffix +:+ ":" +:+ i +:+ ":" +:+ p). split.
    + apply append_cons_nonempty.
    + unfold sync.key_of. by rewrite append_assoc.
Qed.

Lemma X17_witness :
  let m := (sync.StartSync (Ok ()) (Ok (gmail.Adapter (H := plain_runtime)))
              {| sync.cfg_UserID := "u10"; sync.cfg_InboxID := "primary";
                 sync.cfg_Provider := "GOOGLE"; sync.cfg_UserJWT := "jwt" |}
              sync.NewManager).1 in
  sync.key_of "u10" "primary" "GOOGLE" ∈ main.mailStatus "u1" m.
Proof.
  intros m.
  destruct (X17_status_lists_longer_ids "u1" m) as [_ Hext].
  apply (Hext "0" "primary" "GOOGLE"). reflexivity.
Defined.




(** X19. POST /mail/connect changes the manager only when it answers 200
    "sync started": a provider outside the four spellings, a missing
    Authorization header, a header of fewer than 7 bytes (the handler
    panics on it) and every error of StartSync leave the manager as it
    was. *)
Theorem X19_connect_changes_manager_only_on_200
    (provider authorization userID : string)
    (token : result unit) (adapter : result sync.MailProvider) (m : sync.Manager) :
  let out := main.mailConnect provider authorization userID token adapter m in
  (out.2 = main.Respond 200 "sync started" ∧
   ∃ p, main.mapProvider provider = Some p ∧
        sync.runners m !! sync.key_of userID "primary" p = None ∧
        sync.runners out.1
        = <[sync.key_of userID "primary" p := sync.launched m]> (sync.runners m))
  ∨ (out.1 = m ∧ out.2 ≠ main.Respond 200 "sync started" ∧
     (out.2 = main.Panicked ↔
      is_Some (main.mapProvider provider) ∧ authorization ≠ "" ∧
      (String.length authorization < 7)%nat)).
Proof.
  intros out. subst out. unfold main.mailConnect.
  destruct (main.mapProvider provider) as [p|] eqn:Hp.
  2: { right. split; [done|]. split; [done|]. split; [done|].
       by intros [[? ?] _]. }
  case_bool_decide as Hauth.
  { right. split; [done|]. split; [done|]. split; [done|]. by intros (_ & ? & _). }
  destruct (_ <? _)%nat eqn:Hlen.
  { right. split; [done|]. split; [done|]. split; [|done].
    intros _. split; [done|]. split; [done|]. by apply Nat.ltb_lt. }
  apply Nat.ltb_ge in Hlen.
  destruct (sync.StartSync _ _ _ _) as [m' [e|]] eqn:Hstart.
  - right. simpl.
    assert (m' = m) as ->.
    { unfold sync.StartSync in Hstart.
      repeat (match type of Hstart with
              | context [match ?x with _ => _ end] => destruct x
              end); by injection Hstart. }
    split; [done|]. split; [done|]. split; [done|]. intros (_ & _ & ?). lia.
  - left. simpl. split; [done|]. exists p. split; [done|].
    apply StartSync_success in Hstart as (Hnone & _ & ->). done.
Qed.

(* --------------------------------------------------------------------- *)
(* Outlook: the cursor is returned, never used.                          *)
(* --------------------------------------------------------------------- *)

(** X20. The Outlook adapter never sends its cursor to Graph: an
    incremental call hands the sink what a backfill hands it, the first
    page of the mailbox, whatever cursor it is given.  The cursor it
    returns is the id of the last message of that page, and the cursor it
    was given when the page has no such id. *)
Theorem X20_outlook_cursor_unused {St : Type} (client : outlook.Client)
    (user : string) (fn : sync.Sink St) (cp cp' : sync.Checkpoint) (st : St) :
  (outlook.IncrementalSync client user fn cp st).1
  = (outlook.InitialBackfill client user fn cp' st).1 ∧
  (outlook.IncrementalSync client user fn cp st).1
  = (outlook.IncrementalSync client user fn cp' st).1 ∧
  ∀ ncp, (outlook.IncrementalSync client user fn cp st).2 = Ok ncp →
         ∃ page, outlook.first_page (outlook.Messages_Get client user) = Ok page ∧
                 ncp = Some {| sync.Cursor :=
                                 default (sync.Cursor cp) (outlook.last_id page) |}.
Proof.
  unfold outlook.IncrementalSync, outlook.InitialBackfill.
  split; [|split].
  - case_bool_decide; destruct (outlook.first_page _) as [page|e]; try done;
      destruct (outlook.deliver _ _ _ _) as [st1 [e|]]; try done;
      by destruct (outlook.last_id page).
  - do 2 case_bool_decide; destruct (outlook.first_page _) as [page|e]; try done;
      destruct (outlook.deliver _ _ _ _) as [st1 [e|]]; try done;
      by destruct (outlook.last_id page).
  - intros ncp.
    case_bool_decide as Hcp; destruct (outlook.first_page _) as [page|e];
      try done; destruct (outlook.deliver _ _ _ _) as [st1 [e|]]; try done;
      destruct (outlook.last_id page) as [id|] eqn:Hid; simpl;
      intros [= <-]; exists page; rewrite ?Hid, ?Hcp; done.
Qed.

Lemma X20_witness :
  ∃ page, outlook.first_page (outlook.Messages_Get two_page_outlook "me") = Ok page ∧
          Ok (Some {| sync.Cursor := "a" |})
          = Ok (Some {| sync.Cursor := default "zzz" (outlook.last_id page) |}).
Proof.
  destruct (X20_outlook_cursor_unused two_page_outlook "me" (recording accept)
              {| sync.Cursor := "zzz" |} {| sync.Cursor := "" |} (tt, []))
    as (_ & _ & Hcur).
  destruct (Hcur (Some {| sync.Cursor := "a" |}) eq_refl) as (page & Hpage & Heq).
  exists page. split; [exact Hpage|]. f_equal. exact Heq.
Defined.

Section Redelivery.
Context `{GoRuntime}.
Variables userID inboxID : string.
Variable env : nat → sync.TxEnv.
Hypothesis Hok : ∀ n, sync.tx_okb (env n) = true.

(** Records the event log already holds: the log stays, the outbox takes
    one new row per record. *)
Lemma feed_present (ms : list sync.MessageMeta) : ∀ db n,
  (∀ m, m ∈ ms → sqlite.events_of (sync.Provider m) (sync.MessageID m) db ≠ []) →
  let db' := (sync.feed userID inboxID env ms (db, n)).1 in
  sqlite.email_received_events db' = sqlite.email_received_events db ∧
  sqlite.provider_sync_state db' = sqlite.provider_sync_state db ∧
  ∃ new, sqlite.outbox db' = sqlite.outbox db ++ new ∧
         sqlite.ob_msg_id <$> new
         = (λ m, sync.msgID_of (sync.Provider m) (sync.MessageID m)) <$> ms ∧
         Forall (λ row, sqlite.ob_published_at row = None) new.
Proof.
  induction ms as [|m ms IH]; intros db n Hpresent db'; subst db'.
  - simpl. split; [done|]. split; [done|]. exists []. by rewrite app_nil_r.
  - rewrite (feed_cons_committed userID inboxID env m ms db n) by apply Hok.
    rewrite insert_or_ignore_present by (simpl; apply Hpresent; left).
    destruct (IH (sqlite.insert_outbox (sync.now_outbox_ts (env n))
                    (sync.subject_of userID) "email.received"
                    (sync.event_payload (sync.uuid (env n)) (sync.now_ts (env n))
                       userID inboxID m)
                    (sync.msgID_of (sync.Provider m) (sync.MessageID m))
                    (sync.now_next_attempt (env n)) db) (S n))
      as (Hev & Hss & new & Hout & Hids & Hun).
    { intros m' Hm'. apply (Hpresent m'). by right. }
    split; [by rewrite Hev|]. split; [by rewrite Hss|].
    eexists (_ :: new). split; [|split].
    + rewrite Hout. simpl. by rewrite <- app_assoc.
    + by rewrite !fmap_cons, Hids.
    + by constructor.
Qed.

Lemma outlook_deliver_feed (user : string) (msgs : list outlook.Message) :
  ∀ db n,
    outlook.deliver user (sync.createProcessor userID inboxID env) msgs (db, n)
    = (sync.feed userID inboxID env
         ((λ m, outlook.normalizeOutlook m user) <$> msgs) (db, n), None).
Proof.
  induction msgs as [|m msgs IH]; intros db n; [done|].
  rewrite fmap_cons.
  rewrite (feed_cons_committed userID inboxID env _ _ db n) by apply Hok.
  simpl. unfold sync.createProcessor at 1.
  rewrite process_committed by apply Hok. apply IH.
Qed.

End Redelivery.

(** X21. A steady-state tick of an Outlook runner on a mailbox whose first
    page the store has already taken in: the adapter hands the whole page
    to the processor again, the event log stays as it is, and the outbox
    gets one new unpublished row per message of the page, so every
    message of the page is published once more.  The cursor the store
    holds afterwards is the id of the page's last message. *)
Theorem X21_outlook_tick_requeues_page `{GoRuntime} (userID inboxID : string)
    (e : sync.PassEnv outlook.Client) (db : sqlite.DB) (cursor : string)
    (page : list outlook.Message) :
  let r := {| sync.r_Provider := outlook.Adapter;
              sync.r_ProviderName := sync.ProviderMicrosoft |} in
  sqlite.LoadCheckpoint (sync.load_err e) sync.ProviderMicrosoft db = (cursor, None) →
  cursor ≠ "" →
  outlook.first_page (outlook.Messages_Get (sync.remote e) "me") = Ok page →
  (∀ n, sync.tx_okb (sync.tx_env e n) = true) →
  (∀ msg, msg ∈ page →
     sqlite.events_of sync.ProviderMicrosoft (default "" (outlook.GetId msg)) db ≠ []) →
  sync.save_err e = None →
  let out := sync.tick r userID inboxID e db in
  out.2 = [sync.CallIncremental {| sync.Cursor := cursor |}] ∧
  sqlite.email_received_events out.1 = sqlite.email_received_events db ∧
  (∃ new, sqlite.outbox out.1 = sqlite.outbox db ++ new ∧
          sqlite.ob_msg_id <$> new
          = (λ msg, sync.msgID_of sync.ProviderMicrosoft
                      (default "" (outlook.GetId msg))) <$> page ∧
          Forall (λ row, sqlite.ob_published_at row = None) new) ∧
  sqlite.LoadCheckpoint None sync.ProviderMicrosoft out.1
  = (default cursor (outlook.last_id page), None).
Proof.
  intros r Hload Hne Hpage Hok Hpresent Hsave out.
  destruct (feed_present userID inboxID (sync.tx_env e) Hok
              ((λ m, outlook.normalizeOutlook m "me") <$> page) db O)
    as (Hev & Hss & new & Hout & Hids & Hun).
  { intros m Hm. apply list_elem_of_fmap in Hm as (msg & -> & Hmsg).
    simpl. by apply Hpresent. }
  rewrite <- list_fmap_compose in Hids.
  assert (sqlite.LoadCheckpoint None sync.ProviderMicrosoft
            (sync.feed userID inboxID (sync.tx_env e)
               ((λ m, outlook.normalizeOutlook m "me") <$> page) (db, O)).1
          = (cursor, None)) as Hload'.
  { rewrite (load_of_sync_state _ _ db) by done.
    unfold sqlite.LoadCheckpoint in *. by destruct (sync.load_err e). }
  assert (sync.IncrementalSync (sync.r_Provider r) (sync.remote e) "me"
            {| sync.Cursor := cursor |}
            (sync.createProcessor userID inboxID (sync.tx_env e)) (db, O)
          = (sync.feed userID inboxID (sync.tx_env e)
               ((λ m, outlook.normalizeOutlook m "me") <$> page) (db, O),
             Ok (Some {| sync.Cursor := default cursor (outlook.last_id page) |})))
    as Hinc.
  { cbn [sync.IncrementalSync sync.r_Provider r outlook.Adapter].
    unfold outlook.IncrementalSync. cbn [sync.Cursor].
    rewrite bool_decide_false by done.
    rewrite Hpage, (outlook_deliver_feed userID inboxID (sync.tx_env e) Hok).
    by destruct (outlook.last_id page). }
  subst out.
  rewrite (tick_success r userID inboxID e db cursor _ _ Hload Hne Hinc).
  cbn [fst snd sync.Cursor sync.r_ProviderName r].
  assert (@sync.save_err (sync.Remote (sync.r_Provider r)) e = None) as Hsave'
    by exact Hsave.
  rewrite Hsave'.
  split; [done|]. case_bool_decide as Hid.
  - cbn [sqlite.SaveCheckpoint fst].
    split; [done|]. split; [by exists new|].
    unfold sqlite.LoadCheckpoint, sqlite.upsert_sync_state. simpl.
    rewrite lookup_insert_eq. by destruct (_ !! _).
  - rewrite Hid.
    split; [done|]. split; [by exists new|done].
Qed.

Lemma X21_witness :
  let out := sync.tick (H := plain_runtime) outlook_runner "u1" "primary"
               outlook_env outlook_synced_db in
  sqlite.email_received_events out.1
  = sqlite.email_received_events outlook_synced_db ∧
  ∃ new, sqlite.outbox out.1 = sqlite.outbox outlook_synced_db ++ new ∧
         sqlite.ob_msg_id <$> new = ["email.received|MICROSOFT|a"].
Proof.
  destruct (X21_outlook_tick_requeues_page (H := plain_runtime) "u1" "primary"
              outlook_env outlook_synced_db "a" [bare_outlook "a"])
    as (_ & Hev & (new & Hout & Hids & _) & _).
  - vm_compute. reflexivity.
  - done.
  - reflexivity.
  - intros n. reflexivity.
  - intros msg Hin. apply list_elem_of_singleton in Hin. subst msg.
    vm_compute. discriminate.
  - reflexivity.
  - split; [exact Hev|]. exists new. split; [exact Hout|exact Hids].
Defined.

(* --------------------------------------------------------------------- *)
(* Gmail: the headers of a record.                                       *)
(* --------------------------------------------------------------------- *)

Lemma headers_fold_lookup (hs : list (string * string)) (k : string) :
  ∀ h0 : gmap string string,
    fold_left (λ h kv, <[kv.1 := kv.2]> h) hs h0 !! k
    = match last (filter (λ kv, kv.1 = k) hs) with
      | Some kv => Some kv.2
      | None => h0 !! k
      end.
Proof.
  induction hs as [|[name value] hs IH]; intros h0; [done|].
  cbn [fold_left]. rewrite IH, filter_cons. simpl.
  destruct (decide (name = k)) as [->|Hne].
  - destruct (filter _ hs) as [|kv rest] eqn:E.
    + simpl. by rewrite lookup_insert_eq.
    + rewrite last_cons_cons.
      destruct (last (kv :: rest)) eqn:El; [done|]. by apply last_None in El.
  - destruct (last (filter _ hs)); [done|]. by rewrite lookup_insert_ne.
Qed.

(** X22. The header map of a Gmail record takes, for every name, the
    value of the last header of the message that has exactly that name
    (names differing in case are different headers); Subject and Sender
    are the values under "Subject" and "From", empty when there is no
    such header; and no address of To, Cc or Bcc is empty. *)
Theorem X22_gmail_last_header_wins `{GoRuntime} (m : gmail.Message)
    (userID : string) :
  let meta := gmail.normalize m userID in
  let value k := (λ kv : string * string, kv.2)
                   <$> last (filter (λ kv, kv.1 = k) (gmail.PayloadHeaders m)) in
  (∀ k, sync.Headers meta !! k = value k) ∧
  sync.Subject meta = default "" (value "Subject") ∧
  sync.Sender meta = default "" (value "From") ∧
  Forall (λ a, a ≠ "") (sync.To meta ++ sync.Cc meta ++ sync.Bcc meta).
Proof.
  intros meta value.
  assert (∀ k, fold_left (λ (h : gmap string string) kv, <[kv.1 := kv.2]> h)
                 (gmail.PayloadHeaders m) ∅ !! k = value k) as Hval.
  { intros k. rewrite headers_fold_lookup. unfold value.
    destruct (last _); [done|]. apply lookup_empty. }
  split; [exact Hval|]. subst meta. unfold gmail.normalize. simpl.
  rewrite !Hval. split; [done|]. split; [done|].
  assert (∀ s, Forall (λ a, a ≠ "") (gmail.splitAddrs s)) as Hsplit.
  { intros s. unfold gmail.splitAddrs. case_bool_decide; [constructor|].
    apply Forall_forall. intros a Ha.
    by apply list_elem_of_filter in Ha as [Ha _]. }
  rewrite !Forall_app. repeat split; apply Hsplit.
Qed.

(* --------------------------------------------------------------------- *)
(* The sync loop on an empty cursor.                                     *)
(* --------------------------------------------------------------------- *)

(** X23. A store whose cursor loads as empty (no row, a NULL or an empty
    cursor) makes the steady-state loop idle for good: whatever the
    provider holds and however many ticks fire, no tick calls the adapter
    or writes to the store. *)
Theorem X23_empty_cursor_idles_loop `{GoRuntime} (r : sync.Runner)
    (userID inboxID : string)
    (events : list (sync.LoopEvent (sync.Remote (sync.r_Provider r))))
    (db : sqlite.DB) (log : list sync.Call) :
  (sqlite.LoadCheckpoint None (sync.r_ProviderName r) db).1 = "" →
  sync.final_db (sync.syncLoop r userID inboxID events db log) = db ∧
  sync.calls (sync.syncLoop r userID inboxID events db log) = log.
Proof.
  intros Hempty. revert log.
  induction events as [|ev events IH]; intros log; [done|].
  destruct ev as [|e]; [done|]. cbn [sync.syncLoop].
  assert (sync.tick r userID inboxID e db = (db, [])) as ->.
  { unfold sync.tick. destruct (sync.load_err e) as [x|]; [done|].
    destruct (sqlite.LoadCheckpoint None (sync.r_ProviderName r) db)
      as [c err] eqn:E.
    simpl in Hempty. subst c.
    assert (err = None) as ->.
    { unfold sqlite.LoadCheckpoint in E. destruct (_ !! _); by injection E. }
    done. }
  rewrite app_nil_r. apply IH.
Qed.

Lemma X23_witness :
  sync.calls (sync.syncLoop (H := plain_runtime) demo_runner "u1" "primary"
                [sync.TickFire (calm_env demo_gmail);
                 sync.TickFire (calm_env demo_gmail)]
                (db_with "" "HOOKED" None) [])
  = [].
Proof.
  by destruct (X23_empty_cursor_idles_loop (H := plain_runtime) demo_runner
                 "u1" "primary"
                 [sync.TickFire (calm_env demo_gmail);
                  sync.TickFire (calm_env demo_gmail)]
                 (db_with "" "HOOKED" None) [] eq_refl) as [_ Hcalls].
Defined.
